(** * Cyclic-moment feature engineering for modulation classification

    A shallow embedding of the two feature extractors of the notebook
    [data_feature-engineering.ipynb] ([form_features], cell 6, and
    [form_next16_features], cell 10) and of the concatenation that forms the
    32-column feature matrix (cell 11).

    Numbers.  The notebook computes on [float64] and [complex128] values.
    The embedding keeps the scalar arithmetic abstract (class [Scalar]): every
    numpy operation is written with the operations of the class, following
    numpy's documented meaning ([np.mean] is the sum divided by the count,
    [np.angle] is the two-argument arctangent of the imaginary and the real
    part, [abs] of a complex number is the hypotenuse of its parts).  The
    structural results hold for every interpretation of the class, the
    one of [float64] included ([binary64_scalar], on Rocq's primitive
    floats, with the magnitude and the arctangent of the C library as
    parameters).  The exact interpretation over the real numbers
    ([R_scalar]) has no rounding, no signed zero and no not-a-number: what
    is proved for it alone is a statement on exact arithmetic, not on the
    values the notebook computes.

    Names.  The definitions of the notebook keep its names; a definition
    that follows the specification instead has the prefix [spec_].

    Failures.  Python exceptions are values of [exn]; a computation that can
    raise returns a [result].

    Data.  The cells that prepare the batches (2, 4, 5 and 8: the digital
    keys, the split, the training batch, [form_test_data]) are in module
    [Prep], with their own exceptions. *)

From Stdlib Require Import Reals Lra Psatz String OrdersEx.
From Stdlib Require Floats Uint63.
From stdpp Require Import base list sorting.

(** ** Exceptions and results *)

Inductive exn : Type :=
| IndexError
| ValueError
| ZeroDivisionError.

Inductive result (A : Type) : Type :=
| Ok (a : A)
| Raise (e : exn).

Arguments Ok {A} a.
Arguments Raise {A} e.

Definition bind {A B : Type} (m : result A) (k : A -> result B) : result B :=
  match m with
  | Ok a => k a
  | Raise e => Raise e
  end.

Notation "'do' x <- m ; k" := (bind m (fun x => k))
  (at level 10, x name, m at level 100, k at level 200).

(** [traverse f l] runs [f] on the elements of [l] from left to right, as a
    list comprehension does, and stops at the first exception. *)
Fixpoint traverse {A B : Type} (f : A -> result B) (l : list A) : result (list B) :=
  match l with
  | [] => Ok []
  | x :: l' => do y <- f x; do ys <- traverse f l'; Ok (y :: ys)
  end.

(** [for_range idx body s] is the loop [for i in idx: s = body(i, s)]. *)
Fixpoint for_range {St : Type} (idx : list nat) (body : nat -> St -> result St)
    (s : St) : result St :=
  match idx with
  | [] => Ok s
  | i :: idx' => do s' <- body i s; for_range idx' body s'
  end.

(** The remainder [a % b] of Python on non-negative integers. *)
Definition py_mod (a b : nat) : result nat :=
  if decide (b = 0) then Raise ZeroDivisionError else Ok (a mod b).

(** ** Scalars *)

(** The [float64] operations the notebook uses.  [of_nat] is the conversion
    of a Python integer, [fhypot x y] the magnitude of [x + iy] and
    [farctan2 y x] the two-argument arctangent. *)
Class Scalar (F : Type) : Type := {
  of_nat : nat -> F;
  fadd : F -> F -> F;
  fsub : F -> F -> F;
  fmul : F -> F -> F;
  fdiv : F -> F -> F;
  fabs : F -> F;
  fhypot : F -> F -> F;
  farctan2 : F -> F -> F
}.

(** Cells of a two-dimensional array (a list of rows). *)
Definition getitem2 {A : Type} (a : list (list A)) (i j : nat) : result A :=
  match a !! i with
  | Some row =>
      match row !! j with
      | Some x => Ok x
      | None => Raise IndexError
      end
  | None => Raise IndexError
  end.

Definition setitem2 {A : Type} (a : list (list A)) (i j : nat) (v : A)
  : result (list (list A)) :=
  match a !! i with
  | Some row =>
      if decide (j < length row) then Ok (<[i := <[j := v]> row]> a)
      else Raise IndexError
  | None => Raise IndexError
  end.

(** [np.reshape(a, [n, l])] of a two-dimensional array, in row-major order. *)
Definition np_reshape {A : Type} (a : list (list A)) (n l : nat)
  : result (list (list A)) :=
  let flat := concat a in
  if decide (length flat = n * l)
  then Ok (map (fun i => take l (drop (i * l) flat)) (seq 0 n))
  else Raise ValueError.

(** [np.vstack] of a list of scalars: one row of one cell per scalar; an
    empty list is refused ("need at least one array to concatenate"). *)
Definition np_vstack {A : Type} (xs : list A) : result (list (list A)) :=
  match xs with
  | [] => Raise ValueError
  | _ :: _ => Ok (map (fun x => [x]) xs)
  end.

(** [np.concatenate(arrs, axis=1)] of two-dimensional arrays, which is also
    what [np.hstack] does with them: the rows are joined side by side; the
    arrays must have one row count. *)
Definition np_concatenate1 {A : Type} (arrs : list (list (list A)))
  : result (list (list A)) :=
  match arrs with
  | [] => Raise ValueError
  | a :: rest =>
      if forallb (fun b => Nat.eqb (length b) (length a)) rest
      then Ok (map (fun i => concat (map (fun b => default [] (b !! i)) arrs))
                   (seq 0 (length a)))
      else Raise ValueError
  end.

(** [np.array([v]).T]: the vector [v] as a column. *)
Definition column {A : Type} (v : list A) : list (list A) :=
  map (fun x => [x]) v.

Section Arrays.
Context {F : Type} `{Scalar F}.

Definition fzero : F := of_nat 0.

(** The Python division [a / b] of two integers. *)
Definition py_truediv (a b : nat) : result F :=
  if decide (b = 0) then Raise ZeroDivisionError
  else Ok (fdiv (of_nat a) (of_nat b)).

Definition fsquare (x : F) : F := fmul x x.

Fixpoint fpower (x : F) (n : nat) : F :=
  match n with
  | 0 => of_nat 1
  | S n' => fmul x (fpower x n')
  end.

Definition fsum (l : list F) : F := foldl fadd fzero l.

(** *** Complex numbers *)

Record complex : Type := Cplx { re : F; im : F }.

(** [complex(a, b)] of two real numbers. *)
Definition py_complex (a b : F) : complex := Cplx a b.

Definition czero : complex := Cplx fzero fzero.
Definition cone : complex := Cplx (of_nat 1) fzero.

(** A real number in a complex array. *)
Definition of_real (x : F) : complex := Cplx x fzero.

Definition cadd (z w : complex) : complex :=
  Cplx (fadd (re z) (re w)) (fadd (im z) (im w)).

Definition csub (z w : complex) : complex :=
  Cplx (fsub (re z) (re w)) (fsub (im z) (im w)).

Definition cmul (z w : complex) : complex :=
  Cplx (fsub (fmul (re z) (re w)) (fmul (im z) (im w)))
       (fadd (fmul (re z) (im w)) (fmul (im z) (re w))).

Definition csquare (z : complex) : complex := cmul z z.

Fixpoint cpower (z : complex) (n : nat) : complex :=
  match n with
  | 0 => cone
  | S n' => cmul z (cpower z n')
  end.

(** A real factor times a complex number, a complex number over a count. *)
Definition cscale (c : F) (z : complex) : complex :=
  Cplx (fmul c (re z)) (fmul c (im z)).

Definition cdiv_real (z : complex) (x : F) : complex :=
  Cplx (fdiv (re z) x) (fdiv (im z) x).

Definition cabs (z : complex) : F := fhypot (re z) (im z).

Definition cangle (z : complex) : F := farctan2 (im z) (re z).

Definition csum (l : list complex) : complex := foldl cadd czero l.

(** *** The input batch *)

(** A three-dimensional array of reals: its shape and its cells. *)
Record ndarray3 : Type := {
  shape0 : nat;
  shape1 : nat;
  shape2 : nat;
  item : nat -> nat -> nat -> F
}.

Definition getitem3 (X : ndarray3) (i j k : nat) : result F :=
  if decide (i < shape0 X /\ j < shape1 X /\ k < shape2 X)
  then Ok (item X i j k)
  else Raise IndexError.

(** *** numpy on two-dimensional arrays, along axis 1 *)

Definition np_zeros (n l : nat) : list (list complex) :=
  replicate n (replicate l czero).

Definition np_mean (a : list (list F)) : list F :=
  map (fun row => fdiv (fsum row) (of_nat (length row))) a.

Definition np_cmean (a : list (list complex)) : list complex :=
  map (fun row => cdiv_real (csum row) (of_nat (length row))) a.

Definition np_sum (a : list (list F)) : list F := map fsum a.

Definition np_csum (a : list (list complex)) : list complex := map csum a.

Definition np_square (a : list (list F)) : list (list F) := map (map fsquare) a.

Definition np_csquare (a : list (list complex)) : list (list complex) :=
  map (map csquare) a.

Definition np_power (a : list (list F)) (n : nat) : list (list F) :=
  map (map (fun x => fpower x n)) a.

Definition np_cpower (a : list (list complex)) (n : nat) : list (list complex) :=
  map (map (fun z => cpower z n)) a.

Definition np_abs (a : list (list F)) : list (list F) := map (map fabs) a.

Definition np_cabs (a : list (list complex)) : list (list F) := map (map cabs) a.

Definition np_angle (a : list (list complex)) : list (list F) := map (map cangle) a.

(** A feature column is a real or a complex array. *)
Inductive ndarray : Type :=
| NdF (a : list (list F))
| NdC (a : list (list complex)).

Definition as_complex (a : ndarray) : list (list complex) :=
  match a with
  | NdF a => map (map of_real) a
  | NdC a => a
  end.

(** [np.array] of the sixteen feature columns: four of them are complex, so
    the stacked array is complex and the real columns are converted. *)
Definition np_array (l : list ndarray) : list (list (list complex)) :=
  map as_complex l.

(** A dictionary with string keys, in insertion order. *)
Fixpoint dict_setitem (d : list (string * ndarray)) (k : string) (v : ndarray)
  : list (string * ndarray) :=
  match d with
  | [] => [(k, v)]
  | (k', v') :: d' =>
      if String.eqb k' k then (k', v) :: d' else (k', v') :: dict_setitem d' k v
  end.

Definition dict_values (d : list (string * ndarray)) : list ndarray := map snd d.

End Arrays.

Arguments complex F : clear implicits.
Arguments ndarray3 F : clear implicits.
Arguments ndarray F : clear implicits.

(** ** The notebook's feature code *)

Section Features.
Context {F : Type} `{Scalar F}.
Local Open Scope string_scope.

(** *** Cell 6, [form_features]: the complex array *)

(** The list comprehension over [samp_num] and [column], [np.vstack] and
    [np.reshape] that give [X_complex] in [form_features].  The cell reads
    the channel dimension into [rows] and never uses it. *)
Definition form_features_X_complex (X : ndarray3 F)
  : result (list (list (complex F))) :=
  let n_samples := shape0 X in
  let rows := shape1 X in
  let vec_len := shape2 X in
  do X_complex <-
    traverse (fun samp_num =>
      traverse (fun column =>
        do a <- getitem3 X samp_num 0 column;
        do b <- getitem3 X samp_num 1 column;
        Ok (py_complex a b)) (seq 0 vec_len)) (seq 0 n_samples);
  do X_complex <- np_vstack (concat X_complex);
  np_reshape X_complex n_samples vec_len.

(** *** Cell 6: the sixteen features of lag 0 *)

Definition f1 (X_complex : list (list (complex F))) : ndarray F :=
  NdC (column (np_cmean X_complex)).

Definition f2 (X_complex : list (list (complex F))) : ndarray F :=
  NdF (column (np_mean (np_cabs X_complex))).

Definition f3 (X_complex_angl : list (list F)) : ndarray F :=
  NdF (column (np_mean X_complex_angl)).

Definition f4 (X_complex_angl : list (list F)) : ndarray F :=
  NdF (column (np_mean (np_abs X_complex_angl))).

Definition f5 (X_complex_sqr : list (list (complex F))) : ndarray F :=
  NdC (column (np_cmean X_complex_sqr)).

Definition f6 (X_complex : list (list (complex F))) : ndarray F :=
  NdF (column (np_mean (np_square (np_cabs X_complex)))).

Definition f7 (X_complex_angl : list (list F)) : ndarray F :=
  NdF (column (np_mean (np_square X_complex_angl))).

Definition f8 (X_complex_angl : list (list F)) : ndarray F :=
  NdF (column (np_mean (np_square (np_abs X_complex_angl)))).

Definition f9 (vec_len : nat) (X_complex X_complex_sqr : list (list (complex F)))
  : result (ndarray F) :=
  do c <- py_truediv 1 (vec_len ^ 2);
  Ok (NdC (column (zip_with csub
        (np_cmean X_complex_sqr)
        (map (cscale c) (map csquare (np_csum X_complex)))))).

Definition f10 (vec_len : nat) (X_complex : list (list (complex F)))
  : result (ndarray F) :=
  do c <- py_truediv 1 (vec_len ^ 2);
  Ok (NdF (column (zip_with fsub
        (np_mean (np_square (np_cabs X_complex)))
        (map (fmul c) (map fsquare (np_sum (np_cabs X_complex))))))).

Definition f11 (vec_len : nat) (X_complex_angl : list (list F))
  : result (ndarray F) :=
  do c <- py_truediv 1 (vec_len ^ 2);
  Ok (NdF (column (zip_with fsub
        (np_mean (np_square X_complex_angl))
        (map (fmul c) (map fsquare (np_sum X_complex_angl)))))).

Definition f12 (vec_len : nat) (X_complex_angl : list (list F))
  : result (ndarray F) :=
  do c <- py_truediv 1 (vec_len ^ 2);
  Ok (NdF (column (zip_with fsub
        (np_mean (np_square (np_abs X_complex_angl)))
        (map (fmul c) (map fsquare (np_sum (np_abs X_complex_angl))))))).

Definition f13 (vec_len : nat) (X_complex X_complex_sqr : list (list (complex F)))
  : result (ndarray F) :=
  do c <- py_truediv 1 (vec_len ^ 2);
  Ok (NdC (column (zip_with csub
        (np_cmean (np_cpower X_complex 4))
        (map (cscale c) (map csquare (np_csum X_complex_sqr)))))).

Definition f14 (vec_len : nat) (X_complex : list (list (complex F)))
  : result (ndarray F) :=
  do c <- py_truediv 1 (vec_len ^ 2);
  Ok (NdF (column (zip_with fsub
        (np_mean (np_power (np_cabs X_complex) 4))
        (map (fmul c) (map fsquare (np_sum (np_square (np_cabs X_complex)))))))).

Definition f15 (vec_len : nat) (X_complex_angl : list (list F))
  : result (ndarray F) :=
  do c <- py_truediv 1 (vec_len ^ 2);
  Ok (NdF (column (zip_with fsub
        (np_mean (np_power X_complex_angl 4))
        (map (fmul c) (map fsquare (np_sum (np_square X_complex_angl))))))).

Definition f16 (vec_len : nat) (X_complex_angl : list (list F))
  : result (ndarray F) :=
  do c <- py_truediv 1 (vec_len ^ 2);
  Ok (NdF (column (zip_with fsub
        (np_mean (np_power (np_abs X_complex_angl) 4))
        (map (fmul c) (map fsquare (np_sum (np_square (np_abs X_complex_angl)))))))).

(** [dict_16features] of [form_features], as a function of the three arrays
    the feature expressions read. *)
Definition form_features_dict (vec_len : nat)
    (X_complex X_complex_sqr : list (list (complex F)))
    (X_complex_angl : list (list F)) : result (list (string * ndarray F)) :=
  let d := [] in
  let d := dict_setitem d "f1" (f1 X_complex) in
  let d := dict_setitem d "f2" (f2 X_complex) in
  let d := dict_setitem d "f3" (f3 X_complex_angl) in
  let d := dict_setitem d "f4" (f4 X_complex_angl) in
  let d := dict_setitem d "f5" (f5 X_complex_sqr) in
  let d := dict_setitem d "f6" (f6 X_complex) in
  let d := dict_setitem d "f7" (f7 X_complex_angl) in
  let d := dict_setitem d "f8" (f8 X_complex_angl) in
  do v <- f9 vec_len X_complex X_complex_sqr;
  let d := dict_setitem d "f9" v in
  do v <- f10 vec_len X_complex;
  let d := dict_setitem d "f10" v in
  do v <- f11 vec_len X_complex_angl;
  let d := dict_setitem d "f11" v in
  do v <- f12 vec_len X_complex_angl;
  let d := dict_setitem d "f12" v in
  do v <- f13 vec_len X_complex X_complex_sqr;
  let d := dict_setitem d "f13" v in
  do v <- f14 vec_len X_complex;
  let d := dict_setitem d "f14" v in
  do v <- f15 vec_len X_complex_angl;
  let d := dict_setitem d "f15" v in
  do v <- f16 vec_len X_complex_angl;
  let d := dict_setitem d "f16" v in
  Ok d.

(** The end of both extractors: the values of the dictionary, stacked,
    joined side by side, and their absolute value. *)
Definition concatenate_features (dict_16features : list (string * ndarray F))
  : result (list (list F)) :=
  let X_16 := dict_values dict_16features in
  do X_16 <- np_concatenate1 (np_array X_16);
  Ok (np_cabs X_16).

Definition form_features (X : ndarray3 F) : result (list (list F)) :=
  let vec_len := shape2 X in
  do X_complex <- form_features_X_complex X;
  let X_complex_sqr := np_csquare X_complex in
  let X_complex_angl := np_angle X_complex in
  do dict_16features <-
    form_features_dict vec_len X_complex X_complex_sqr X_complex_angl;
  concatenate_features dict_16features.

(** *** Cell 10, [form_next16_features]: the complex array and its lag *)

Definition form_next16_features_X_complex (X : ndarray3 F)
  : result (list (list (complex F))) :=
  let n_samples := shape0 X in
  let rows := shape1 X in
  let vec_len := shape2 X in
  do X_complex <-
    traverse (fun samp_num =>
      traverse (fun column =>
        do a <- getitem3 X samp_num 0 column;
        do b <- getitem3 X samp_num 1 column;
        Ok (py_complex a b)) (seq 0 vec_len)) (seq 0 n_samples);
  do X_complex <- np_vstack (concat X_complex);
  np_reshape X_complex n_samples vec_len.

(** The two loops that fill the array of lagged products, for a lag [T];
    the notebook has [T = 8]. *)
Definition X_complex_lag (T n_samples vec_len : nat)
    (X_complex : list (list (complex F))) : result (list (list (complex F))) :=
  for_range (seq 0 n_samples) (fun samp_num X_complex_8lag =>
    for_range (seq 0 vec_len) (fun clmn X_complex_8lag =>
      do shift_by <- py_mod (clmn + T) vec_len;
      do a <- getitem2 X_complex samp_num clmn;
      do b <- getitem2 X_complex samp_num shift_by;
      setitem2 X_complex_8lag samp_num clmn (cmul a b)) X_complex_8lag)
    (np_zeros n_samples vec_len).

Definition X_complex_8lag (n_samples vec_len : nat)
    (X_complex : list (list (complex F))) : result (list (list (complex F))) :=
  X_complex_lag 8 n_samples vec_len X_complex.

(** *** Cell 10: the sixteen features of lag 8 *)

Definition f17 (X_complex_8lag : list (list (complex F))) : ndarray F :=
  NdC (column (np_cmean X_complex_8lag)).

Definition f18 (X_complex_8lag : list (list (complex F))) : ndarray F :=
  NdF (column (np_mean (np_cabs X_complex_8lag))).

Definition f19 (X_complex8_angl : list (list F)) : ndarray F :=
  NdF (column (np_mean X_complex8_angl)).

Definition f20 (X_complex8_angl : list (list F)) : ndarray F :=
  NdF (column (np_mean (np_abs X_complex8_angl))).

Definition f21 (X_complex8_sqr : list (list (complex F))) : ndarray F :=
  NdC (column (np_cmean X_complex8_sqr)).

Definition f22 (X_complex_8lag : list (list (complex F))) : ndarray F :=
  NdF (column (np_mean (np_square (np_cabs X_complex_8lag)))).

Definition f23 (X_complex8_angl : list (list F)) : ndarray F :=
  NdF (column (np_mean (np_square X_complex8_angl))).

Definition f24 (X_complex8_angl : list (list F)) : ndarray F :=
  NdF (column (np_mean (np_square (np_abs X_complex8_angl)))).

Definition f25 (vec_len : nat) (X_complex_8lag X_complex8_sqr : list (list (complex F)))
  : result (ndarray F) :=
  do c <- py_truediv 1 (vec_len ^ 2);
  Ok (NdC (column (zip_with csub
        (np_cmean X_complex8_sqr)
        (map (cscale c) (map csquare (np_csum X_complex_8lag)))))).

Definition f26 (vec_len : nat) (X_complex_8lag : list (list (complex F)))
  : result (ndarray F) :=
  do c <- py_truediv 1 (vec_len ^ 2);
  Ok (NdF (column (zip_with fsub
        (np_mean (np_square (np_cabs X_complex_8lag)))
        (map (fmul c) (map fsquare (np_sum (np_cabs X_complex_8lag))))))).

Definition f27 (vec_len : nat) (X_complex8_angl : list (list F))
  : result (ndarray F) :=
  do c <- py_truediv 1 (vec_len ^ 2);
  Ok (NdF (column (zip_with fsub
        (np_mean (np_square X_complex8_angl))
        (map (fmul c) (map fsquare (np_sum X_complex8_angl)))))).

Definition f28 (vec_len : nat) (X_complex8_angl : list (list F))
  : result (ndarray F) :=
  do c <- py_truediv 1 (vec_len ^ 2);
  Ok (NdF (column (zip_with fsub
        (np_mean (np_square (np_abs X_complex8_angl)))
        (map (fmul c) (map fsquare (np_sum (np_abs X_complex8_angl))))))).

Definition f29 (vec_len : nat) (X_complex_8lag X_complex8_sqr : list (list (complex F)))
  : result (ndarray F) :=
  do c <- py_truediv 1 (vec_len ^ 2);
  Ok (NdC (column (zip_with csub
        (np_cmean (np_cpower X_complex_8lag 4))
        (map (cscale c) (map csquare (np_csum X_complex8_sqr)))))).

Definition f30 (vec_len : nat) (X_complex_8lag : list (list (complex F)))
  : result (ndarray F) :=
  do c <- py_truediv 1 (vec_len ^ 2);
  Ok (NdF (column (zip_with fsub
        (np_mean (np_power (np_cabs X_complex_8lag) 4))
        (map (fmul c) (map fsquare (np_sum (np_square (np_cabs X_complex_8lag)))))))).

(** Feature 31 is the one expression of the cell that does not call
    [np.mean]: it multiplies the sum by [1/vec_len]. *)
Definition f31 (vec_len : nat) (X_complex8_angl : list (list F))
  : result (ndarray F) :=
  do c1 <- py_truediv 1 vec_len;
  do c <- py_truediv 1 (vec_len ^ 2);
  Ok (NdF (column (zip_with fsub
        (map (fmul c1) (np_sum (np_power X_complex8_angl 4)))
        (map (fmul c) (map fsquare (np_sum (np_square X_complex8_angl))))))).

Definition f32 (vec_len : nat) (X_complex8_angl : list (list F))
  : result (ndarray F) :=
  do c <- py_truediv 1 (vec_len ^ 2);
  Ok (NdF (column (zip_with fsub
        (np_mean (np_power (np_abs X_complex8_angl) 4))
        (map (fmul c) (map fsquare (np_sum (np_square (np_abs X_complex8_angl)))))))).

Definition form_next16_features_dict (vec_len : nat)
    (X_complex_8lag X_complex8_sqr : list (list (complex F)))
    (X_complex8_angl : list (list F)) : result (list (string * ndarray F)) :=
  let d := [] in
  let d := dict_setitem d "f17" (f17 X_complex_8lag) in
  let d := dict_setitem d "f18" (f18 X_complex_8lag) in
  let d := dict_setitem d "f19" (f19 X_complex8_angl) in
  let d := dict_setitem d "f20" (f20 X_complex8_angl) in
  let d := dict_setitem d "f21" (f21 X_complex8_sqr) in
  let d := dict_setitem d "f22" (f22 X_complex_8lag) in
  let d := dict_setitem d "f23" (f23 X_complex8_angl) in
  let d := dict_setitem d "f24" (f24 X_complex8_angl) in
  do v <- f25 vec_len X_complex_8lag X_complex8_sqr;
  let d := dict_setitem d "f25" v in
  do v <- f26 vec_len X_complex_8lag;
  let d := dict_setitem d "f26" v in
  do v <- f27 vec_len X_complex8_angl;
  let d := dict_setitem d "f27" v in
  do v <- f28 vec_len X_complex8_angl;
  let d := dict_setitem d "f28" v in
  do v <- f29 vec_len X_complex_8lag X_complex8_sqr;
  let d := dict_setitem d "f29" v in
  do v <- f30 vec_len X_complex_8lag;
  let d := dict_setitem d "f30" v in
  do v <- f31 vec_len X_complex8_angl;
  let d := dict_setitem d "f31" v in
  do v <- f32 vec_len X_complex8_angl;
  let d := dict_setitem d "f32" v in
  Ok d.

Definition form_next16_features (X : ndarray3 F) : result (list (list F)) :=
  let n_samples := shape0 X in
  let vec_len := shape2 X in
  do X_complex <- form_next16_features_X_complex X;
  do X_complex_8lag <- X_complex_8lag n_samples vec_len X_complex;
  let X_complex8_sqr := np_csquare X_complex_8lag in
  let X_complex8_angl := np_angle X_complex_8lag in
  do dict_16features <-
    form_next16_features_dict vec_len X_complex_8lag X_complex8_sqr X_complex8_angl;
  concatenate_features dict_16features.

(** *** Cell 11: the 32-column matrix *)

(** [X_32_train = np.concatenate((X_16_train, X_next16_train), axis = 1)],
    both blocks computed from one batch. *)
Definition X_32 (X : ndarray3 F) : result (list (list F)) :=
  do X_16 <- form_features X;
  do X_next16 <- form_next16_features X;
  np_concatenate1 [X_16; X_next16].

(** ** The statistics as the specification words them *)

(** The definitions of this part follow the specification, not the
    notebook: the complex sequence of a sample (data model), the lagged
    product (lagged product former) and the table of sixteen statistics
    with its final absolute value (moment and cumulant feature extractor).
    The theorems compare the notebook's code with them. *)

(** The complex sequence of sample [n]: its [k]-th value has real part
    [batch[n,0,k]] and imaginary part [batch[n,1,k]]. *)
Definition sample_sequence (X : ndarray3 F) (n : nat) : list (complex F) :=
  map (fun k => Cplx (item X n 0 k) (item X n 1 k)) (seq 0 (shape2 X)).

(** The lagged product: [w[k] = z[k] * z[(k + T) mod L]] for [k < L]. *)
Definition spec_lagged_product (T : nat) (z : list (complex F)) : list (complex F) :=
  map (fun k => cmul (nth k z czero) (nth ((k + T) mod length z) z czero))
      (seq 0 (length z)).

Definition mean (l : list F) : F := fdiv (fsum l) (of_nat (length l)).

Definition cmean (l : list (complex F)) : complex F :=
  cdiv_real (csum l) (of_nat (length l)).

(** A statistic is complex (1, 5, 9, 13) or real. *)
Inductive statistic_value : Type :=
| RealValue (x : F)
| ComplexValue (z : complex F).

(** The table of sixteen statistics of a sequence [X], with [n] its length;
    [mean] is the arithmetic mean over the positions of the sequence. *)
Definition spec_statistic (k : nat) (X : list (complex F)) : statistic_value :=
  let n := length X in
  let inv_n2 := fdiv (of_nat 1) (of_nat (n ^ 2)) in
  let X_sqr := map csquare X in
  let X_abs := map cabs X in
  let X_angle := map cangle X in
  let abs_angle := map fabs X_angle in
  match k with
  | 1 => ComplexValue (cmean X)
  | 2 => RealValue (mean X_abs)
  | 3 => RealValue (mean X_angle)
  | 4 => RealValue (mean abs_angle)
  | 5 => ComplexValue (cmean X_sqr)
  | 6 => RealValue (mean (map fsquare X_abs))
  | 7 => RealValue (mean (map fsquare X_angle))
  | 8 => RealValue (mean (map fsquare abs_angle))
  | 9 => ComplexValue (csub (cmean X_sqr) (cscale inv_n2 (csquare (csum X))))
  | 10 => RealValue (fsub (mean (map fsquare X_abs))
                          (fmul inv_n2 (fsquare (fsum X_abs))))
  | 11 => RealValue (fsub (mean (map fsquare X_angle))
                          (fmul inv_n2 (fsquare (fsum X_angle))))
  | 12 => RealValue (fsub (mean (map fsquare abs_angle))
                          (fmul inv_n2 (fsquare (fsum abs_angle))))
  | 13 => ComplexValue (csub (cmean (map (fun z => cpower z 4) X))
                             (cscale inv_n2 (csquare (csum X_sqr))))
  | 14 => RealValue (fsub (mean (map (fun x => fpower x 4) X_abs))
                          (fmul inv_n2 (fsquare (fsum (map fsquare X_abs)))))
  | 15 => RealValue (fsub (mean (map (fun x => fpower x 4) X_angle))
                          (fmul inv_n2 (fsquare (fsum (map fsquare X_angle)))))
  | 16 => RealValue (fsub (mean (map (fun x => fpower x 4) abs_angle))
                          (fmul inv_n2 (fsquare (fsum (map fsquare abs_angle)))))
  | _ => RealValue fzero
  end.

(** The final reduction: the magnitude of a complex statistic, the absolute
    value of a real one. *)
Definition spec_magnitude (v : statistic_value) : F :=
  match v with
  | RealValue x => fabs x
  | ComplexValue z => cabs z
  end.


(** The sixteen statistics of a sequence, in the order of the table. *)
Definition spec_feature_block (X : list (complex F)) : list F :=
  map (fun j => spec_magnitude (spec_statistic (S j) X)) (seq 0 16).

End Features.

Arguments statistic_value F : clear implicits.

(** ** One row of each extractor, from one sample *)

Section Samples.
Context {F : Type} `{Scalar F}.

(** The sixteen raw values (before the final absolute value) that the
    feature expressions compute from one row [X] of the complex array, in
    the order of the dictionary; [s15] is the fifteenth, which the two
    cells write differently.  The real ones are in complex form, as
    [np.array] leaves them. *)
Definition sample_raw (vec_len : nat) (X : list (complex F)) (s15 : F)
  : list (complex F) :=
  let c := fdiv (of_nat 1) (of_nat (vec_len ^ 2)) in
  let X_sqr := map csquare X in
  let X_abs := map cabs X in
  let X_angl := map cangle X in
  let abs_angl := map fabs X_angl in
  [ cmean X;
    of_real (mean X_abs);
    of_real (mean X_angl);
    of_real (mean abs_angl);
    cmean X_sqr;
    of_real (mean (map fsquare X_abs));
    of_real (mean (map fsquare X_angl));
    of_real (mean (map fsquare abs_angl));
    csub (cmean X_sqr) (cscale c (csquare (csum X)));
    of_real (fsub (mean (map fsquare X_abs)) (fmul c (fsquare (fsum X_abs))));
    of_real (fsub (mean (map fsquare X_angl)) (fmul c (fsquare (fsum X_angl))));
    of_real (fsub (mean (map fsquare abs_angl)) (fmul c (fsquare (fsum abs_angl))));
    csub (cmean (map (fun z => cpower z 4) X)) (cscale c (csquare (csum X_sqr)));
    of_real (fsub (mean (map (fun x => fpower x 4) X_abs))
                  (fmul c (fsquare (fsum (map fsquare X_abs)))));
    of_real s15;
    of_real (fsub (mean (map (fun x => fpower x 4) abs_angl))
                  (fmul c (fsquare (fsum (map fsquare abs_angl))))) ].

(** Feature 15 of cell 6 and feature 31 of cell 10, on the angles of one row. *)
Definition f15_sample (vec_len : nat) (X_angl : list F) : F :=
  fsub (mean (map (fun x => fpower x 4) X_angl))
       (fmul (fdiv (of_nat 1) (of_nat (vec_len ^ 2)))
             (fsquare (fsum (map fsquare X_angl)))).

Definition f31_sample (vec_len : nat) (X_angl : list F) : F :=
  fsub (fmul (fdiv (of_nat 1) (of_nat vec_len))
             (fsum (map (fun x => fpower x 4) X_angl)))
       (fmul (fdiv (of_nat 1) (of_nat (vec_len ^ 2)))
             (fsquare (fsum (map fsquare X_angl)))).

(** The row of [form_features] for a sample with complex sequence [z]. *)
Definition form_features_sample (z : list (complex F)) : list F :=
  map cabs (sample_raw (length z) z (f15_sample (length z) (map cangle z))).

(** The row of [form_next16_features] for a sample with complex sequence [z]. *)
Definition form_next16_features_sample (z : list (complex F)) : list F :=
  let w := spec_lagged_product 8 z in
  map cabs (sample_raw (length z) w (f31_sample (length z) (map cangle w))).

(** The twelve statistics of the table that are written on magnitudes and
    angles only (2, 3, 4, 6, 7, 8, 10, 11, 12, 14, 15, 16), as functions of
    the list of magnitudes and the list of angles of a sequence. *)
Definition spec_polar_statistic (k : nat) (X_abs X_angle : list F) : F :=
  let n := length X_abs in
  let inv_n2 := fdiv (of_nat 1) (of_nat (n ^ 2)) in
  let abs_angle := map fabs X_angle in
  match k with
  | 2 => mean X_abs
  | 3 => mean X_angle
  | 4 => mean abs_angle
  | 6 => mean (map fsquare X_abs)
  | 7 => mean (map fsquare X_angle)
  | 8 => mean (map fsquare abs_angle)
  | 10 => fsub (mean (map fsquare X_abs)) (fmul inv_n2 (fsquare (fsum X_abs)))
  | 11 => fsub (mean (map fsquare X_angle)) (fmul inv_n2 (fsquare (fsum X_angle)))
  | 12 => fsub (mean (map fsquare abs_angle)) (fmul inv_n2 (fsquare (fsum abs_angle)))
  | 14 => fsub (mean (map (fun x => fpower x 4) X_abs))
               (fmul inv_n2 (fsquare (fsum (map fsquare X_abs))))
  | 15 => fsub (mean (map (fun x => fpower x 4) X_angle))
               (fmul inv_n2 (fsquare (fsum (map fsquare X_angle))))
  | 16 => fsub (mean (map (fun x => fpower x 4) abs_angle))
               (fmul inv_n2 (fsquare (fsum (map fsquare abs_angle))))
  | _ => fzero
  end.

(** The columns (counted from 0) of those twelve statistics. *)
Definition polar_columns : list nat := [1; 2; 3; 5; 6; 7; 9; 10; 11; 13; 14; 15].

(** The complex array of a batch: one sequence per sample. *)
Definition batch_sequences (X : ndarray3 F) : list (list (complex F)) :=
  map (sample_sequence X) (seq 0 (shape0 X)).

(** Success of a computation. *)
Definition is_ok {A : Type} (r : result A) : Prop :=
  match r with
  | Ok _ => True
  | Raise _ => False
  end.

Definition raises {A : Type} (r : result A) : Prop :=
  match r with
  | Ok _ => False
  | Raise _ => True
  end.

End Samples.

(** ** Exact arithmetic: the real numbers *)

(** The principal value of the argument, in the interval from [-PI]
    (excluded) to [PI] (included); the argument of zero is zero.  The real
    numbers have one zero: where [float64] tells [-0.0] from [0.0]
    ([np.angle(-1-0j)] is [-pi]), this function cannot, and
    [Rarctan2 0 (-1)] is [PI]. *)
Definition Rarctan2 (y x : R) : R :=
  if Rlt_dec 0 x then atan (y / x)
  else if Rlt_dec x 0 then
    (if Rle_dec 0 y then atan (y / x) + PI else atan (y / x) - PI)
  else if Rlt_dec 0 y then PI / 2
  else if Rlt_dec y 0 then - PI / 2
  else 0.

(** The exact interpretation.  It is not [float64]: it has no rounding
    ([(1/n) * s] is [s / n]), one zero and no not-a-number, so a result
    proved for it alone is a statement on exact arithmetic. *)
#[export] Instance R_scalar : Scalar R := {|
  of_nat := INR;
  fadd := Rplus;
  fsub := Rminus;
  fmul := Rmult;
  fdiv := Rdiv;
  fabs := Rabs;
  fhypot := fun x y => sqrt (x * x + y * y);
  farctan2 := Rarctan2
|}.

(** ** Batches used as examples *)

(** Two samples of length four: a rotating unit vector and an all-zero
    sample. *)
Definition rotating_batch : ndarray3 R := {|
  shape0 := 2;
  shape1 := 2;
  shape2 := 4;
  item := fun n c k =>
    match n, c, k with
    | 0, 0, 0 => 1
    | 0, 0, 2 => -1
    | 0, 1, 1 => 1
    | 0, 1, 3 => -1
    | _, _, _ => 0
    end%R
|}.

(** The same two samples with a third channel. *)
Definition three_channel_batch : ndarray3 R := {|
  shape0 := 2;
  shape1 := 3;
  shape2 := 4;
  item := fun n c k =>
    match c with
    | 2 => 7%R
    | _ => item rotating_batch n c k
    end
|}.

(** An empty batch of samples of length four. *)
Definition empty_batch : ndarray3 R := {|
  shape0 := 0;
  shape1 := 2;
  shape2 := 4;
  item := fun _ _ _ => 0%R
|}.

(** A batch with the in-phase channel only. *)
Definition one_channel_batch : ndarray3 R := {|
  shape0 := 2;
  shape1 := 1;
  shape2 := 4;
  item := fun _ _ _ => 1%R
|}.

(** One complex sequence of length three. *)
Definition three_values : list (list (complex R)) :=
  [[Cplx 1 0; Cplx 0 1; Cplx (-1) 0]]%R.

(** ** [float64] arithmetic *)

(** The IEEE 754 binary64 operations of Rocq's primitive floats are the
    operations of [float64].  The magnitude and the two-argument arctangent
    are functions of the C library, which the primitive floats do not have:
    they are parameters here, and nothing is assumed of them.  [of_nat] is
    the conversion of a Python integer below 2^63. *)
Section Binary64.
Variables hypot arctan2 : PrimFloat.float -> PrimFloat.float -> PrimFloat.float.

Definition binary64_of_nat (n : nat) : PrimFloat.float :=
  PrimFloat.of_uint63 (Uint63.of_Z (Z.of_nat n)).

Definition binary64_scalar : Scalar PrimFloat.float := {|
  of_nat := binary64_of_nat;
  fadd := PrimFloat.add;
  fsub := PrimFloat.sub;
  fmul := PrimFloat.mul;
  fdiv := PrimFloat.div;
  fabs := PrimFloat.abs;
  fhypot := hypot;
  farctan2 := arctan2
|}.

End Binary64.

(** One row of three angles, 0, 1 and 2 radians: their squares, their
    fourth powers and the sums of these are small integers, exact in
    [float64] in whatever order they are computed. *)
Definition angles_0_1_2 : list (list PrimFloat.float) :=
  [[binary64_of_nat 0; binary64_of_nat 1; binary64_of_nat 2]].

(** The two values compared on that row, [(1/3) * 17 - (1/9) * 25] and
    [17 / 3 - (1/9) * 25] in [float64]: 2.8888888888888884 and
    2.8888888888888893. *)
Definition f31_of_0_1_2 : PrimFloat.float :=
  PrimFloat.sub
    (PrimFloat.mul (PrimFloat.div (binary64_of_nat 1) (binary64_of_nat 3))
                   (binary64_of_nat 17))
    (PrimFloat.mul (PrimFloat.div (binary64_of_nat 1) (binary64_of_nat 9))
                   (binary64_of_nat 25)).

Definition f15_of_0_1_2 : PrimFloat.float :=
  PrimFloat.sub
    (PrimFloat.div (binary64_of_nat 17) (binary64_of_nat 3))
    (PrimFloat.mul (PrimFloat.div (binary64_of_nat 1) (binary64_of_nat 9))
                   (binary64_of_nat 25)).


(** * The rest of the notebook: the data set, its split and its labels *)

(** Cells 2, 4, 5 and 8 prepare the batches that the extractors read.  A
    key of the data set is a pair of a modulation name and an SNR; its value
    is a three-dimensional array, seen here as the list of its samples (the
    slabs along axis 0) with the shape of one sample.  Dictionaries are
    lists of bindings in insertion order, with distinct keys. *)

Module Prep.

Inductive exn : Type :=
| KeyError
| ValueError
| IndexError.

Inductive result (A : Type) : Type :=
| Ok (a : A)
| Raise (e : exn).

Arguments Ok {A} a.
Arguments Raise {A} e.

Definition bind {A B : Type} (m : result A) (k : A -> result B) : result B :=
  match m with
  | Ok a => k a
  | Raise e => Raise e
  end.

Notation "'try' x <- m ; k" := (bind m (fun x => k))
  (at level 10, x name, m at level 100, k at level 200).

Fixpoint traverse {A B : Type} (f : A -> result B) (l : list A) : result (list B) :=
  match l with
  | [] => Ok []
  | x :: l' => try y <- f x; try ys <- traverse f l'; Ok (y :: ys)
  end.

(** [for_each l body s] is the loop [for i in l: s = body(i, s)]. *)
Fixpoint for_each {I St : Type} (l : list I) (body : I -> St -> result St) (s : St)
  : result St :=
  match l with
  | [] => Ok s
  | i :: l' => try s' <- body i s; for_each l' body s'
  end.

(** *** Lists *)

(** [l[i]] and [l.index(x)]. *)
Definition list_getitem {A : Type} (l : list A) (i : nat) : result A :=
  match l !! i with
  | Some x => Ok x
  | None => Raise IndexError
  end.

Fixpoint list_index {A : Type} (eqb : A -> A -> bool) (l : list A) (x : A)
  : result nat :=
  match l with
  | [] => Raise ValueError
  | y :: l' =>
      if eqb y x then Ok 0 else try i <- list_index eqb l' x; Ok (S i)
  end.

(** [sorted(list(set(l)))]: the distinct elements of [l] in increasing
    order.  The order in which the set lists them is of no account: the
    sorted list of distinct elements is unique. *)
Definition below {A : Type} (leb : A -> A -> bool) : relation A :=
  fun x y => leb x y = true.

#[export] Instance below_decision {A : Type} (leb : A -> A -> bool) (x y : A)
  : Decision (below leb x y) := bool_eq_dec (leb x y) true.

Definition py_sorted_set {A : Type} `{EqDecision A} (leb : A -> A -> bool)
    (l : list A) : list A :=
  merge_sort (below leb) (remove_dups l).

(** *** Keys and dictionaries *)

Definition key : Type := string * Z.

Definition key_eqb (k k' : key) : bool :=
  String.eqb (fst k) (fst k') && Z.eqb (snd k) (snd k').

#[local] Instance string_eq_decision : EqDecision string := String.string_dec.

Section Dictionaries.
Context {V : Type}.

(** [d[k]], and [d.update({k : v})] (which is [d[k] = v]). *)
Fixpoint dict_getitem (d : list (key * V)) (k : key) : result V :=
  match d with
  | [] => Raise KeyError
  | (k', v) :: d' => if key_eqb k' k then Ok v else dict_getitem d' k
  end.

Fixpoint dict_update (d : list (key * V)) (k : key) (v : V) : list (key * V) :=
  match d with
  | [] => [(k, v)]
  | (k', v') :: d' =>
      if key_eqb k' k then (k', v) :: d' else (k', v') :: dict_update d' k v
  end.

Definition dict_keys (d : list (key * V)) : list key := map fst d.

(** Cells 2 and 5: [snrs] and [mods] of the keys of a dictionary. *)
Definition snrs_of (d : list (key * V)) : list Z :=
  py_sorted_set Z.leb (map snd (dict_keys d)).

Definition mods_of (d : list (key * V)) : list string :=
  py_sorted_set String.leb (map fst (dict_keys d)).

(** *** Cell 2: the analogue modulations are deleted *)

Definition mods_to_rmv : list string := ["AM-DSB"; "AM-SSB"; "WBFM"]%string.

Definition keys_to_rmv (Xd : list (key * V)) : list key :=
  List.filter (fun key => existsb (String.eqb (fst key)) mods_to_rmv) (dict_keys Xd).

(** The dictionary comprehension over the keys that are not in
    [keys_to_rmv]. *)
Definition Xd_digital (Xd : list (key * V)) : result (list (key * V)) :=
  for_each
    (List.filter (fun key => negb (existsb (key_eqb key) (keys_to_rmv Xd)))
                 (dict_keys Xd))
    (fun key d => try v <- dict_getitem Xd key; Ok (dict_update d key v))
    [].

End Dictionaries.

(** *** Arrays of samples *)

(** A three-dimensional array: its samples (the slabs along axis 0) and
    the shape of one sample. *)
Record array (A : Type) : Type := {
  rows : list A;
  inner : nat * nat
}.

Arguments rows {A} a.
Arguments inner {A} a.

Section Arrays.
Context {A : Type}.

Definition shape0 (v : array A) : nat := length (rows v).

Definition inner_eqb (s s' : nat * nat) : bool :=
  Nat.eqb (fst s) (fst s') && Nat.eqb (snd s) (snd s').

(** [v[:h, :]] and [v[h:, :]]. *)
Definition slice_to (h : nat) (v : array A) : array A :=
  {| rows := take h (rows v); inner := inner v |}.

Definition slice_from (h : nat) (v : array A) : array A :=
  {| rows := drop h (rows v); inner := inner v |}.

(** [np.vstack] of a list of three-dimensional arrays: their samples one
    after the other; the list must not be empty and the samples must have
    one shape. *)
Definition np_vstack (l : list (array A)) : result (array A) :=
  match l with
  | [] => Raise ValueError
  | v :: rest =>
      if forallb (fun w => inner_eqb (inner w) (inner v)) rest
      then Ok {| rows := concat (map rows l); inner := inner v |}
      else Raise ValueError
  end.

(** [int(n * 0.5)] for a row count [n]: the product is exact in [float64]
    (row counts are far below 2^53) and [int] truncates it. *)
Definition half (n : nat) : nat := n / 2.

(** *** Cell 4: shuffle, then one half for the test set *)

(** [shuffle(v, random_state=0)] of scikit-learn is taken as a parameter. *)
Variable shuffle : array A -> array A.

Definition Xd_shuffled (Xd_digital : list (key * array A)) : list (key * array A) :=
  fold_left (fun d kv => dict_update d (fst kv) (shuffle (snd kv))) Xd_digital [].

Definition dict_test (Xd_shuffled : list (key * array A)) : list (key * array A) :=
  fold_left
    (fun d kv =>
       let v := snd kv in
       dict_update d (fst kv) (slice_to (half (shape0 v)) v))
    Xd_shuffled [].

Definition dict_train (Xd_shuffled : list (key * array A)) : list (key * array A) :=
  fold_left
    (fun d kv =>
       let v := snd kv in
       dict_update d (fst kv) (slice_from (half (shape0 v)) v))
    Xd_shuffled [].

(** *** Cell 5: the training batch and its labels *)

(** The loop [for i in range(n): labels.append(label)]. *)
Definition append_labels {L : Type} (labels : list L) (n : nat) (label : L) : list L :=
  fold_left (fun labels _ => labels ++ [label]) (seq 0 n) labels.

(** The two loops over [mods] and [snrs], [np.vstack], and the indices of
    the modulations: the result is [(X_train, y_train)]. *)
Definition training_set (dict_train : list (key * array A))
  : result (array A * list nat) :=
  let snrs := snrs_of dict_train in
  let mods := mods_of dict_train in
  try st <-
    for_each mods (fun mod' st =>
      for_each snrs (fun snr st =>
        try v <- dict_getitem dict_train (mod', snr);
        let X_train := fst st ++ [v] in
        try v' <- dict_getitem dict_train (mod', snr);
        let labels_train := append_labels (snd st) (shape0 v') (mod', snr) in
        Ok (X_train, labels_train)) st)
      ([], []);
  let labels_train := snd st in
  try X_train <- np_vstack (fst st);
  let n_samples_train := shape0 X_train in
  try y_train <-
    traverse (fun x =>
      try label <- list_getitem labels_train x;
      list_index String.eqb mods (fst label)) (seq 0 n_samples_train);
  Ok (X_train, y_train).

(** *** Cell 8: [form_test_data] *)

(** [np.vstack] of a list of strings: one row of one string each. *)
Definition np_vstack_labels (l : list string) : result (list (list string)) :=
  match l with
  | [] => Raise ValueError
  | _ :: _ => Ok (map (fun s => [s]) l)
  end.

(** [mods.index(row)] for a row of the label array: a name of [mods]
    equals a row of one string when it equals that string. *)
Definition index_of_row (mods : list string) (row : list string) : result nat :=
  match row with
  | [s] => list_index String.eqb mods s
  | _ => Raise ValueError
  end.

(** [form_test_data(snr)].  The entries [test_data[snr]] and
    [test_labels[snr]] of the two [defaultdict(list)] are lists when the
    function starts ([data0] and [labels0]; empty when first read, as in the
    loop of cell 8, which passes every SNR once); the function replaces
    them by the arrays it returns. *)
Definition form_test_data (dict_test : list (key * array A)) (mods : list string)
    (snr : Z) (data0 : list (array A)) (labels0 : list string)
  : result (array A * list nat) :=
  let st :=
    fold_left
      (fun st kv =>
         let k := fst kv in
         let v := snd kv in
         if Z.eqb (snd k) snr
         then (fst st ++ [v], append_labels (snd st) (shape0 v) (fst k))
         else st)
      dict_test (data0, labels0) in
  try test_data <- np_vstack (fst st);
  try test_labels <- np_vstack_labels (snd st);
  let n_samples_test := shape0 test_data in
  try labels <-
    traverse (fun x =>
      try row <- list_getitem test_labels x;
      index_of_row mods row) (seq 0 n_samples_test);
  Ok (test_data, labels).

End Arrays.

End Prep.

(** ** Data sets and batches used as examples *)

(** Reversing the samples of an array: a stand-in for [shuffle] in the
    examples. *)
Definition reverse_rows {A : Type} (v : Prep.array A) : Prep.array A :=
  {| Prep.rows := reverse (Prep.rows v); Prep.inner := Prep.inner v |}.

(** Six keys, two of them analogue; the samples are numbered instead of
    written out. *)
Definition small_dataset : list (Prep.key * Prep.array nat) :=
  [ (("QPSK"%string, 0%Z), {| Prep.rows := [1; 2; 3; 4]; Prep.inner := (2, 8) |});
    (("AM-DSB"%string, 0%Z), {| Prep.rows := [5; 6]; Prep.inner := (2, 8) |});
    (("BPSK"%string, 0%Z), {| Prep.rows := [7; 8; 9]; Prep.inner := (2, 8) |});
    (("QPSK"%string, (-2)%Z), {| Prep.rows := [10; 11]; Prep.inner := (2, 8) |});
    (("WBFM"%string, (-2)%Z), {| Prep.rows := [12]; Prep.inner := (2, 8) |});
    (("BPSK"%string, (-2)%Z), {| Prep.rows := [13; 14; 15]; Prep.inner := (2, 8) |}) ].

(** Its four digital keys. *)
Definition digital_dataset : list (Prep.key * Prep.array nat) :=
  [ (("QPSK"%string, 0%Z), {| Prep.rows := [1; 2; 3; 4]; Prep.inner := (2, 8) |});
    (("BPSK"%string, 0%Z), {| Prep.rows := [7; 8; 9]; Prep.inner := (2, 8) |});
    (("QPSK"%string, (-2)%Z), {| Prep.rows := [10; 11]; Prep.inner := (2, 8) |});
    (("BPSK"%string, (-2)%Z), {| Prep.rows := [13; 14; 15]; Prep.inner := (2, 8) |}) ].

(** Two keys with one sample each. *)
Definition single_sample_dataset : list (Prep.key * Prep.array nat) :=
  [ (("QPSK"%string, 0%Z), {| Prep.rows := [1]; Prep.inner := (2, 8) |});
    (("BPSK"%string, 0%Z), {| Prep.rows := [2]; Prep.inner := (2, 8) |}) ].

(** The samples of [rotating_batch] read from their second reading on,
    and the same batch at twice the amplitude. *)
Definition shifted_batch : ndarray3 R := {|
  shape0 := 2;
  shape1 := 2;
  shape2 := 4;
  item := fun n c k => item rotating_batch n c ((k + 1) mod 4)
|}.

Definition doubled_batch : ndarray3 R := {|
  shape0 := 2;
  shape1 := 2;
  shape2 := 4;
  item := fun n c k => (2 * item rotating_batch n c k)%R
|}.

(** * Proofs *)

(** ** Lists, comprehensions and loops *)

Lemma bind_ok {A B : Type} (m : result A) (k : A -> result B) (a : A) :
  m = Ok a -> bind m k = k a.
Proof. intros ->. reflexivity. Qed.

Lemma Ok_inj {A : Type} (a b : A) : Ok a = Ok b -> a = b.
Proof. intros Hab. injection Hab as ->. reflexivity. Qed.

Lemma traverse_ok {A B : Type} (f : A -> result B) (g : A -> B) (l : list A) :
  (forall x, In x l -> f x = Ok (g x)) -> traverse f l = Ok (map g l).
Proof.
  induction l as [|x l IH]; intros Hf; simpl.
  - reflexivity.
  - rewrite (Hf x) by (left; reflexivity). simpl.
    rewrite IH by (intros y Hy; apply Hf; right; exact Hy).
    reflexivity.
Qed.

Lemma traverse_raise_head {A B : Type} (f : A -> result B) (x : A) (l : list A) e :
  f x = Raise e -> traverse f (x :: l) = Raise e.
Proof. intros Hx. simpl. rewrite Hx. reflexivity. Qed.

Lemma concat_column {A : Type} (l : list A) : concat (column l) = l.
Proof.
  induction l as [|x l IH]; simpl; [reflexivity|]. f_equal. exact IH.
Qed.

Lemma length_column {A : Type} (l : list A) : length (column l) = length l.
Proof. unfold column. apply length_map. Qed.

Lemma lookup_column {A : Type} (l : list A) (i : nat) (x : A) :
  l !! i = Some x -> column l !! i = Some [x].
Proof.
  revert i. induction l as [|y l IH]; intros [|i] Hi; simpl in *;
    try discriminate.
  - congruence.
  - apply IH. exact Hi.
Qed.

Lemma lookup_map_Some {A B : Type} (f : A -> B) (l : list A) (i : nat) (x : A) :
  l !! i = Some x -> map f l !! i = Some (f x).
Proof.
  revert i. induction l as [|y l IH]; intros [|i] Hi; simpl in *;
    try discriminate.
  - congruence.
  - apply IH. exact Hi.
Qed.

Lemma concat_nil_rows {A : Type} (rows : list (list A)) :
  Forall (fun r => length r = 0) rows -> concat rows = [].
Proof.
  induction 1 as [|r rows Hr _ IH]; simpl; [reflexivity|].
  rewrite IH. destruct r; [reflexivity | discriminate].
Qed.

Lemma length_concat_uniform {A : Type} (L : nat) (rows : list (list A)) :
  Forall (fun r => length r = L) rows -> length (concat rows) = length rows * L.
Proof.
  induction 1 as [|r rows Hr _ IH]; simpl; [reflexivity|].
  rewrite length_app, IH, Hr. reflexivity.
Qed.

(** Cutting the concatenation of rows of one length gives the rows back. *)
Lemma chunks_concat {A : Type} (L : nat) (rows : list (list A)) :
  Forall (fun r => length r = L) rows ->
  map (fun i => take L (drop (i * L) (concat rows))) (seq 0 (length rows)) = rows.
Proof.
  induction 1 as [|r rows Hr _ IH]; [reflexivity|].
  cbn [length seq map]. f_equal.
  - cbn [concat]. simpl. apply take_app_length'. symmetry. exact Hr.
  - rewrite <- seq_shift, map_map. rewrite <- IH at 2.
    apply map_ext. intros i. cbn [concat].
    replace (S i * L) with (L + i * L) by lia.
    rewrite drop_app_add' by (symmetry; exact Hr). reflexivity.
Qed.

Lemma map_nth_seq {A B : Type} (f : A -> B) (d : A) (l : list A) :
  map (fun i => f (nth i l d)) (seq 0 (length l)) = map f l.
Proof.
  induction l as [|x l IH]; [reflexivity|].
  cbn [length seq map]. f_equal.
  rewrite <- seq_shift, map_map. exact IH.
Qed.

Lemma zip_with_map_same {A B C D : Type} (f : B -> C -> D) (g : A -> B) (h : A -> C)
    (l : list A) :
  zip_with f (map g l) (map h l) = map (fun x => f (g x) (h x)) l.
Proof.
  induction l as [|x l IH]; simpl; [reflexivity|]. f_equal. exact IH.
Qed.

Lemma map_column {A B : Type} (g : A -> B) (v : list A) :
  map (map g) (column v) = column (map g v).
Proof. unfold column. rewrite !map_map. reflexivity. Qed.

(** A loop over a range keeps an invariant that each iteration carries
    one step further. *)
Lemma for_range_invariant {St : Type} (P : nat -> St -> Prop)
    (body : nat -> St -> result St) (n a : nat) (s : St) :
  P a s ->
  (forall i s', a <= i < a + n -> P i s' ->
     exists s'', body i s' = Ok s'' /\ P (S i) s'') ->
  exists s_end, for_range (seq a n) body s = Ok s_end /\ P (a + n) s_end.
Proof.
  revert a s. induction n as [|n IH]; intros a s Hs Hstep.
  - exists s. split; [reflexivity|]. rewrite Nat.add_0_r. exact Hs.
  - destruct (Hstep a s) as (s1 & Hbody & Hs1); [lia | exact Hs |].
    destruct (IH (S a) s1 Hs1) as (s_end & Hloop & Hend).
    + intros i s' Hi. apply Hstep. lia.
    + exists s_end. split.
      * cbn [seq for_range]. rewrite Hbody. exact Hloop.
      * replace (a + S n) with (S a + n) by lia. exact Hend.
Qed.

(** Writing cell [k] of a list whose first [k] cells are already written. *)
Lemma insert_next {A : Type} (pre old : list A) (k : nat) (x v : A) :
  length pre = k -> old !! k = Some x ->
  <[k := v]> (pre ++ drop k old) = (pre ++ [v]) ++ drop (S k) old.
Proof.
  intros Hpre Hold.
  rewrite insert_app_r_alt by lia.
  rewrite Hpre, Nat.sub_diag, (drop_S _ _ _ Hold). simpl.
  rewrite <- app_assoc. reflexivity.
Qed.

Lemma lookup_next {A : Type} (pre old : list A) (k : nat) (x : A) :
  length pre = k -> old !! k = Some x -> (pre ++ drop k old) !! k = Some x.
Proof.
  intros Hpre Hold.
  rewrite lookup_app_r by lia.
  rewrite Hpre, Nat.sub_diag, (drop_S _ _ _ Hold). reflexivity.
Qed.

(** ** The complex array and the lagged products *)

Section ArrayFacts.
Context {F : Type} `{Scalar F}.

Lemma getitem3_ok (X : ndarray3 F) (i j k : nat) :
  i < shape0 X -> j < shape1 X -> k < shape2 X ->
  getitem3 X i j k = Ok (item X i j k).
Proof.
  intros Hi Hj Hk. unfold getitem3.
  destruct (decide _) as [_|Hn]; [reflexivity | tauto].
Qed.

Lemma getitem3_channel (X : ndarray3 F) (i j k : nat) :
  shape1 X <= j -> getitem3 X i j k = Raise IndexError.
Proof.
  intros Hj. unfold getitem3.
  destruct (decide _) as [(_ & Hlt & _)|_]; [lia | reflexivity].
Qed.

Lemma length_sample_sequence (X : ndarray3 F) (n : nat) :
  length (sample_sequence X n) = shape2 X.
Proof. unfold sample_sequence. rewrite length_map, length_seq. reflexivity. Qed.

Lemma length_batch_sequences (X : ndarray3 F) :
  length (batch_sequences X) = shape0 X.
Proof. unfold batch_sequences. rewrite length_map, length_seq. reflexivity. Qed.

Lemma batch_sequences_rows (X : ndarray3 F) :
  Forall (fun r => length r = shape2 X) (batch_sequences X).
Proof.
  unfold batch_sequences. apply Forall_forall. intros r Hr.
  apply list_elem_of_In, in_map_iff in Hr. destruct Hr as (n & <- & _).
  apply length_sample_sequence.
Qed.

Lemma lookup_batch_sequences (X : ndarray3 F) (n : nat) :
  n < shape0 X -> batch_sequences X !! n = Some (sample_sequence X n).
Proof.
  intros Hn. unfold batch_sequences.
  apply lookup_map_Some. rewrite lookup_seq_lt by exact Hn. reflexivity.
Qed.

(** The list comprehension of both cells, with at least two channels. *)
Lemma comprehension_ok (X : ndarray3 F) :
  2 <= shape1 X ->
  traverse (fun samp_num =>
    traverse (fun column =>
      do a <- getitem3 X samp_num 0 column;
      do b <- getitem3 X samp_num 1 column;
      Ok (py_complex a b)) (seq 0 (shape2 X))) (seq 0 (shape0 X))
  = Ok (batch_sequences X).
Proof.
  intros HC. unfold batch_sequences, sample_sequence.
  apply traverse_ok. intros n Hn. apply in_seq in Hn.
  apply traverse_ok. intros k Hk. apply in_seq in Hk.
  rewrite !getitem3_ok by lia. reflexivity.
Qed.

(** With no sample or no column the comprehension gives empty rows,
    whatever the channels. *)
Lemma comprehension_empty (X : ndarray3 F) :
  shape0 X = 0 \/ shape2 X = 0 ->
  exists rows,
    traverse (fun samp_num =>
      traverse (fun column =>
        do a <- getitem3 X samp_num 0 column;
        do b <- getitem3 X samp_num 1 column;
        Ok (py_complex a b)) (seq 0 (shape2 X))) (seq 0 (shape0 X))
    = Ok rows /\ concat rows = [].
Proof.
  intros [HN|HL].
  - rewrite HN. exists []. split; reflexivity.
  - rewrite HL. exists (map (fun _ => []) (seq 0 (shape0 X))). split.
    + apply traverse_ok. intros n _. reflexivity.
    + apply concat_nil_rows, Forall_forall. intros r Hr.
      apply list_elem_of_In, in_map_iff in Hr. destruct Hr as (n & <- & _).
      reflexivity.
Qed.

(** With fewer than two channels the first cell read is out of range. *)
Lemma comprehension_index (X : ndarray3 F) :
  shape1 X < 2 -> 1 <= shape0 X -> 1 <= shape2 X ->
  traverse (fun samp_num =>
    traverse (fun column =>
      do a <- getitem3 X samp_num 0 column;
      do b <- getitem3 X samp_num 1 column;
      Ok (py_complex a b)) (seq 0 (shape2 X))) (seq 0 (shape0 X))
  = Raise IndexError.
Proof.
  intros HC HN HL.
  destruct (shape0 X) as [|N] eqn:EN; [lia|].
  destruct (shape2 X) as [|L] eqn:EL; [lia|].
  cbn [seq]. apply traverse_raise_head. apply traverse_raise_head.
  destruct (decide (shape1 X = 0)) as [H0|H0].
  - rewrite getitem3_channel by lia. reflexivity.
  - rewrite getitem3_ok by lia. cbn [bind].
    rewrite getitem3_channel by lia. reflexivity.
Qed.

Lemma vstack_reshape_ok {A : Type} (rows : list (list A)) (N L : nat) :
  length rows = N -> Forall (fun r => length r = L) rows ->
  1 <= N -> 1 <= L ->
  (do v <- np_vstack (concat rows); np_reshape v N L) = Ok rows.
Proof.
  intros HN HL HN1 HL1.
  pose proof (length_concat_uniform L rows HL) as Hlen.
  unfold np_vstack. destruct (concat rows) as [|x flat] eqn:E.
  - simpl in Hlen. nia.
  - cbn [bind]. unfold np_reshape.
    change (map (fun x0 => [x0]) (x :: flat)) with (column (x :: flat)).
    rewrite concat_column.
    destruct (decide _) as [_|Hn]; [|exfalso; apply Hn; lia].
    rewrite <- E, <- HN. f_equal. apply chunks_concat. exact HL.
Qed.

Lemma vstack_empty {A B : Type} (rows : list (list A)) (k : list (list A) -> result B) :
  concat rows = [] -> (do v <- np_vstack (concat rows); k v) = Raise ValueError.
Proof. intros ->. reflexivity. Qed.

(** *** The loops of the lagged products *)

Lemma lagged_product_length (T : nat) (z : list (complex F)) :
  length (spec_lagged_product T z) = length z.
Proof. unfold spec_lagged_product. rewrite length_map, length_seq. reflexivity. Qed.

Lemma X_complex_lag_ok (T N L : nat) (Z : list (list (complex F))) :
  length Z = N -> Forall (fun r => length r = L) Z ->
  X_complex_lag T N L Z = Ok (map (spec_lagged_product T) Z).
Proof.
  intros HN HL. unfold X_complex_lag.
  destruct (for_range_invariant
    (fun n out => out = map (spec_lagged_product T) (take n Z) ++ drop n (np_zeros N L))
    (fun samp_num X_complex_8lag =>
      for_range (seq 0 L) (fun clmn X_complex_8lag0 =>
        do shift_by <- py_mod (clmn + T) L;
        do a <- getitem2 Z samp_num clmn;
        do b <- getitem2 Z samp_num shift_by;
        setitem2 X_complex_8lag0 samp_num clmn (cmul a b)) X_complex_8lag)
    N 0 (np_zeros N L)) as (out & Hloop & Hout).
  - reflexivity.
  - intros n out [_ Hn] ->. simpl in Hn.
    destruct (lookup_lt_is_Some_2 Z n) as [zrow Hz]; [lia|].
    assert (Hzl : length zrow = L).
    { rewrite Forall_lookup in HL. exact (HL n zrow Hz). }
    assert (Hzero : np_zeros N L !! n = Some (replicate L czero)).
    { unfold np_zeros. apply lookup_replicate_2. exact Hn. }
    assert (Hpre : length (map (spec_lagged_product T) (take n Z)) = n).
    { rewrite length_map, length_take. lia. }
    set (out := map (spec_lagged_product T) (take n Z) ++ drop n (np_zeros N L)).
    assert (Hlook : out !! n = Some (replicate L czero)).
    { apply lookup_next; assumption. }
    assert (Hlen : n < length out).
    { apply lookup_lt_is_Some_1. eauto. }
    pose (g := fun k => cmul (nth k zrow czero) (nth ((k + T) mod L) zrow czero)).
    destruct (for_range_invariant
      (fun k o => o = <[n := map g (seq 0 k) ++ drop k (replicate L czero)]> out)
      (fun clmn X_complex_8lag0 =>
        do shift_by <- py_mod (clmn + T) L;
        do a <- getitem2 Z n clmn;
        do b <- getitem2 Z n shift_by;
        setitem2 X_complex_8lag0 n clmn (cmul a b))
      L 0 out) as (o & Hinner & Ho).
    + simpl. rewrite list_insert_id by exact Hlook. reflexivity.
    + intros k o' [_ Hk] ->. simpl in Hk.
      assert (HL0 : L <> 0) by lia.
      assert (Hs : (k + T) mod L < L) by (apply Nat.mod_upper_bound; exact HL0).
      destruct (lookup_lt_is_Some_2 zrow k) as [a Ha]; [lia|].
      destruct (lookup_lt_is_Some_2 zrow ((k + T) mod L)) as [b Hb]; [lia|].
      unfold py_mod. destruct (decide (L = 0)) as [|_]; [lia|]. cbn [bind].
      unfold getitem2. rewrite Hz, Ha, Hb. cbn [bind].
      unfold setitem2. rewrite list_lookup_insert_eq by exact Hlen.
      destruct (decide _) as [_|Hbad].
      * eexists. split; [reflexivity|].
        rewrite list_insert_insert_eq. f_equal.
        rewrite (insert_next _ _ k czero).
        -- rewrite seq_S, map_app. simpl. unfold g.
           rewrite (nth_lookup_Some _ _ _ _ Ha), (nth_lookup_Some _ _ _ _ Hb).
           reflexivity.
        -- rewrite length_map, length_seq. reflexivity.
        -- apply lookup_replicate_2. exact Hk.
      * exfalso. apply Hbad.
        rewrite length_app, length_map, length_seq, length_drop, length_replicate.
        lia.
    + exists o. split; [exact Hinner|]. rewrite Ho. simpl.
      rewrite drop_ge by (rewrite length_replicate; lia).
      rewrite app_nil_r. unfold out.
      rewrite (insert_next _ _ n (replicate L czero)) by assumption.
      rewrite (take_S_r _ _ _ Hz), map_app. simpl.
      do 2 f_equal. unfold spec_lagged_product. rewrite Hzl. reflexivity.
  - rewrite Hloop. f_equal. rewrite Hout. simpl.
    rewrite take_ge by lia.
    rewrite drop_ge by (unfold np_zeros; rewrite length_replicate; lia).
    apply app_nil_r.
Qed.

End ArrayFacts.

(** ** The feature columns, row by row *)

Lemma map_seq_lookup {A B : Type} (f : nat -> B) (g : A -> B) (l : list A) :
  (forall i x, l !! i = Some x -> f i = g x) ->
  map f (seq 0 (length l)) = map g l.
Proof.
  revert f. induction l as [|x l IH]; intros f Hf; [reflexivity|].
  cbn [length seq map]. f_equal.
  - apply (Hf 0). reflexivity.
  - rewrite <- seq_shift, map_map. apply IH.
    intros i y Hi. apply (Hf (S i)). exact Hi.
Qed.

(** Columns that hold one value per row of [Z], joined side by side. *)
Lemma np_concatenate1_columns {A B : Type} (Z : list A)
    (arrs : list (list (list B))) (hs : list (A -> B)) :
  Forall2 (fun b h => b = column (map h Z)) arrs hs ->
  arrs <> [] ->
  np_concatenate1 arrs = Ok (map (fun z => map (fun h => h z) hs) Z).
Proof.
  intros Hcols Hne.
  assert (Hrow : forall i z, Z !! i = Some z ->
            concat (map (fun b => default [] (b !! i)) arrs)
            = map (fun h => h z) hs).
  { intros i z Hz. clear Hne.
    induction Hcols as [|b h arrs' hs' Hb _ IH]; [reflexivity|].
    cbn [map concat]. subst b.
    rewrite (lookup_column _ i (h z)) by (apply lookup_map_Some; exact Hz).
    simpl. f_equal. exact IH. }
  assert (Hlen : Forall (fun b => length b = length Z) arrs).
  { clear Hrow Hne. induction Hcols as [|b h arrs' hs' Hb _ IH]; constructor.
    - subst b. rewrite length_column, length_map. reflexivity.
    - exact IH. }
  destruct arrs as [|a rest]; [congruence|].
  unfold np_concatenate1.
  inversion Hlen as [|? ? Ha Hrest]; subst.
  assert (Hall : forallb (fun b => Nat.eqb (length b) (length a)) rest = true).
  { apply forallb_forall. intros b Hb. apply Nat.eqb_eq.
    rewrite Forall_forall in Hrest. rewrite Ha. apply Hrest.
    apply list_elem_of_In. exact Hb. }
  rewrite Hall, Ha. f_equal. apply map_seq_lookup. exact Hrow.
Qed.

Section FeatureFacts.
Context {F : Type} `{Scalar F}.
Local Open Scope string_scope.

Lemma py_truediv_ok (a b : nat) :
  b <> 0 -> py_truediv a b = Ok (fdiv (of_nat a) (of_nat b)).
Proof.
  intros Hb. unfold py_truediv. destruct (decide (b = 0)); [contradiction|].
  reflexivity.
Qed.

Lemma py_truediv_zero (a : nat) : py_truediv a 0 = Raise ZeroDivisionError.
Proof. reflexivity. Qed.

(** Sixteen distinct keys: the values come out in insertion order. *)
Lemma dict_values_lag0 (v1 v2 v3 v4 v5 v6 v7 v8 v9 v10 v11 v12 v13 v14 v15 v16
    : ndarray F) :
  dict_values
    (dict_setitem (dict_setitem (dict_setitem (dict_setitem
    (dict_setitem (dict_setitem (dict_setitem (dict_setitem
    (dict_setitem (dict_setitem (dict_setitem (dict_setitem
    (dict_setitem (dict_setitem (dict_setitem (dict_setitem []
      "f1" v1) "f2" v2) "f3" v3) "f4" v4) "f5" v5) "f6" v6) "f7" v7) "f8" v8)
      "f9" v9) "f10" v10) "f11" v11) "f12" v12) "f13" v13) "f14" v14)
      "f15" v15) "f16" v16)
  = [v1; v2; v3; v4; v5; v6; v7; v8; v9; v10; v11; v12; v13; v14; v15; v16].
Proof. reflexivity. Qed.

Lemma dict_values_lag8 (v1 v2 v3 v4 v5 v6 v7 v8 v9 v10 v11 v12 v13 v14 v15 v16
    : ndarray F) :
  dict_values
    (dict_setitem (dict_setitem (dict_setitem (dict_setitem
    (dict_setitem (dict_setitem (dict_setitem (dict_setitem
    (dict_setitem (dict_setitem (dict_setitem (dict_setitem
    (dict_setitem (dict_setitem (dict_setitem (dict_setitem []
      "f17" v1) "f18" v2) "f19" v3) "f20" v4) "f21" v5) "f22" v6) "f23" v7)
      "f24" v8) "f25" v9) "f26" v10) "f27" v11) "f28" v12) "f29" v13)
      "f30" v14) "f31" v15) "f32" v16)
  = [v1; v2; v3; v4; v5; v6; v7; v8; v9; v10; v11; v12; v13; v14; v15; v16].
Proof. reflexivity. Qed.

End FeatureFacts.

(** A feature column of one value per row: the nested maps are fused and
    the two operands of a difference are brought over one list. *)
Ltac column_normal_form :=
  cbv beta delta [as_complex np_mean np_cmean np_sum np_csum np_square
                  np_csquare np_power np_cpower np_abs np_cabs np_angle] iota;
  rewrite ?map_map, ?zip_with_map_same, ?map_column, ?map_map;
  reflexivity.

Section RowFacts.
Context {F : Type} `{Scalar F}.

(** The feature part of [form_features] on an array [Z] of rows. *)
Lemma form_features_rows (L : nat) (Z : list (list (complex F))) :
  L <> 0 -> Z <> [] ->
  (do d <- form_features_dict L Z (np_csquare Z) (np_angle Z);
   concatenate_features d)
  = Ok (map (fun z => map cabs (sample_raw L z (f15_sample L (map cangle z)))) Z).
Proof.
  intros HL HZ.
  assert (HL2 : L ^ 2 <> 0) by (apply Nat.pow_nonzero; exact HL).
  unfold form_features_dict, f9, f10, f11, f12, f13, f14, f15, f16.
  rewrite !(py_truediv_ok 1 (L ^ 2) HL2). cbn [bind]. cbv zeta.
  unfold concatenate_features. rewrite dict_values_lag0.
  unfold np_array. cbn [map].
  erewrite (np_concatenate1_columns Z); [| | discriminate].
  2: { unfold f1, f2, f3, f4, f5, f6, f7, f8.
       repeat (constructor; [column_normal_form|]).
       constructor. }
  cbn [bind]. unfold np_cabs. rewrite map_map. reflexivity.
Qed.

(** The feature part of [form_next16_features] on an array [W] of rows. *)
Lemma form_next16_features_rows (L : nat) (W : list (list (complex F))) :
  L <> 0 -> W <> [] ->
  (do d <- form_next16_features_dict L W (np_csquare W) (np_angle W);
   concatenate_features d)
  = Ok (map (fun w => map cabs (sample_raw L w (f31_sample L (map cangle w)))) W).
Proof.
  intros HL HW.
  assert (HL2 : L ^ 2 <> 0) by (apply Nat.pow_nonzero; exact HL).
  unfold form_next16_features_dict, f25, f26, f27, f28, f29, f30, f31, f32.
  rewrite !(py_truediv_ok 1 (L ^ 2) HL2), (py_truediv_ok 1 L HL).
  cbn [bind]. cbv zeta.
  unfold concatenate_features. rewrite dict_values_lag8.
  unfold np_array. cbn [map].
  erewrite (np_concatenate1_columns W); [| | discriminate].
  2: { unfold f17, f18, f19, f20, f21, f22, f23, f24.
       repeat (constructor; [column_normal_form|]).
       constructor. }
  cbn [bind]. unfold np_cabs. rewrite map_map. reflexivity.
Qed.

End RowFacts.

(** ** The two extractors in closed form *)

Section ExtractorFacts.
Context {F : Type} `{Scalar F}.

Lemma form_features_X_complex_ok (X : ndarray3 F) :
  1 <= shape0 X -> 1 <= shape2 X -> 2 <= shape1 X ->
  form_features_X_complex X = Ok (batch_sequences X).
Proof.
  intros HN HL HC. unfold form_features_X_complex. cbv zeta.
  rewrite (comprehension_ok X HC). cbn [bind].
  apply vstack_reshape_ok; auto using length_batch_sequences, batch_sequences_rows.
Qed.

Lemma form_next16_features_X_complex_ok (X : ndarray3 F) :
  1 <= shape0 X -> 1 <= shape2 X -> 2 <= shape1 X ->
  form_next16_features_X_complex X = Ok (batch_sequences X).
Proof.
  intros HN HL HC. unfold form_next16_features_X_complex. cbv zeta.
  rewrite (comprehension_ok X HC). cbn [bind].
  apply vstack_reshape_ok; auto using length_batch_sequences, batch_sequences_rows.
Qed.

Lemma form_features_X_complex_empty (X : ndarray3 F) :
  shape0 X = 0 \/ shape2 X = 0 ->
  form_features_X_complex X = Raise ValueError.
Proof.
  intros Hz. unfold form_features_X_complex. cbv zeta.
  destruct (comprehension_empty X Hz) as (rows & -> & Hrows). cbn [bind].
  apply vstack_empty. exact Hrows.
Qed.

Lemma form_next16_features_X_complex_empty (X : ndarray3 F) :
  shape0 X = 0 \/ shape2 X = 0 ->
  form_next16_features_X_complex X = Raise ValueError.
Proof.
  intros Hz. unfold form_next16_features_X_complex. cbv zeta.
  destruct (comprehension_empty X Hz) as (rows & -> & Hrows). cbn [bind].
  apply vstack_empty. exact Hrows.
Qed.

Lemma form_features_X_complex_index (X : ndarray3 F) :
  shape1 X < 2 -> 1 <= shape0 X -> 1 <= shape2 X ->
  form_features_X_complex X = Raise IndexError.
Proof.
  intros HC HN HL. unfold form_features_X_complex. cbv zeta.
  rewrite (comprehension_index X HC HN HL). reflexivity.
Qed.

Lemma form_next16_features_X_complex_index (X : ndarray3 F) :
  shape1 X < 2 -> 1 <= shape0 X -> 1 <= shape2 X ->
  form_next16_features_X_complex X = Raise IndexError.
Proof.
  intros HC HN HL. unfold form_next16_features_X_complex. cbv zeta.
  rewrite (comprehension_index X HC HN HL). reflexivity.
Qed.

Lemma batch_sequences_nonempty (X : ndarray3 F) :
  1 <= shape0 X -> batch_sequences X <> [].
Proof.
  intros HN Hnil. apply (f_equal length) in Hnil.
  rewrite length_batch_sequences in Hnil. simpl in Hnil. lia.
Qed.

Lemma form_features_ok (X : ndarray3 F) :
  1 <= shape0 X -> 1 <= shape2 X -> 2 <= shape1 X ->
  form_features X = Ok (map form_features_sample (batch_sequences X)).
Proof.
  intros HN HL HC. unfold form_features. cbv zeta.
  rewrite (form_features_X_complex_ok X HN HL HC). cbn [bind].
  rewrite form_features_rows by (auto using batch_sequences_nonempty; lia).
  f_equal. apply map_ext_in. intros z Hz.
  pose proof (batch_sequences_rows X) as Hrows.
  rewrite Forall_forall in Hrows.
  unfold form_features_sample.
  rewrite (Hrows z) by (apply list_elem_of_In; exact Hz). reflexivity.
Qed.

Lemma form_next16_features_ok (X : ndarray3 F) :
  1 <= shape0 X -> 1 <= shape2 X -> 2 <= shape1 X ->
  form_next16_features X
  = Ok (map form_next16_features_sample (batch_sequences X)).
Proof.
  intros HN HL HC. unfold form_next16_features. cbv zeta.
  rewrite (form_next16_features_X_complex_ok X HN HL HC). cbn [bind].
  unfold X_complex_8lag.
  rewrite (X_complex_lag_ok 8 (shape0 X) (shape2 X))
    by auto using length_batch_sequences, batch_sequences_rows.
  cbn [bind].
  rewrite form_next16_features_rows.
  - rewrite map_map. f_equal. apply map_ext_in. intros z Hz.
    pose proof (batch_sequences_rows X) as Hrows.
    rewrite Forall_forall in Hrows.
    unfold form_next16_features_sample. cbv zeta.
    rewrite (Hrows z) by (apply list_elem_of_In; exact Hz). reflexivity.
  - lia.
  - intros Hnil. apply (f_equal length) in Hnil.
    rewrite length_map, length_batch_sequences in Hnil. simpl in Hnil. lia.
Qed.

Lemma form_features_empty (X : ndarray3 F) :
  shape0 X = 0 \/ shape2 X = 0 -> form_features X = Raise ValueError.
Proof.
  intros Hz. unfold form_features. cbv zeta.
  rewrite (form_features_X_complex_empty X Hz). reflexivity.
Qed.

Lemma form_next16_features_empty (X : ndarray3 F) :
  shape0 X = 0 \/ shape2 X = 0 -> form_next16_features X = Raise ValueError.
Proof.
  intros Hz. unfold form_next16_features. cbv zeta.
  rewrite (form_next16_features_X_complex_empty X Hz). reflexivity.
Qed.

Lemma form_features_index (X : ndarray3 F) :
  shape1 X < 2 -> 1 <= shape0 X -> 1 <= shape2 X ->
  form_features X = Raise IndexError.
Proof.
  intros HC HN HL. unfold form_features. cbv zeta.
  rewrite (form_features_X_complex_index X HC HN HL). reflexivity.
Qed.

Lemma form_next16_features_index (X : ndarray3 F) :
  shape1 X < 2 -> 1 <= shape0 X -> 1 <= shape2 X ->
  form_next16_features X = Raise IndexError.
Proof.
  intros HC HN HL. unfold form_next16_features. cbv zeta.
  rewrite (form_next16_features_X_complex_index X HC HN HL). reflexivity.
Qed.

Lemma length_sample_raw (L : nat) (z : list (complex F)) (s : F) :
  length (sample_raw L z s) = 16.
Proof. reflexivity. Qed.



End ExtractorFacts.

(** ** The rows against the table of statistics *)

Section TableFacts.
Context {F : Type} `{Scalar F}.

(** Where the magnitude of a real number in complex form is its absolute
    value, the row of [form_features] is the table on the raw sequence. *)
Lemma form_features_sample_table (z : list (complex F)) :
  (forall x : F, cabs (of_real x) = fabs x) ->
  form_features_sample z = spec_feature_block z.
Proof.
  intros Habs. unfold form_features_sample, spec_feature_block, sample_raw, f15_sample.
  cbn [map seq spec_statistic spec_magnitude]. rewrite !Habs. reflexivity.
Qed.

(** Where moreover a sum times [1/n] is the sum over [n], the row of
    [form_next16_features] is the table on the lagged products. *)
Lemma form_next16_features_sample_table (z : list (complex F)) :
  (forall x : F, cabs (of_real x) = fabs x) ->
  (forall (n : nat) (s : F),
     fmul (fdiv (of_nat 1) (of_nat n)) s = fdiv s (of_nat n)) ->
  form_next16_features_sample z = spec_feature_block (spec_lagged_product 8 z).
Proof.
  intros Habs Hmean.
  unfold form_next16_features_sample, spec_feature_block, sample_raw, f31_sample.
  cbv zeta. cbn [map seq spec_statistic spec_magnitude].
  rewrite !Habs, (Hmean (length z)).
  unfold mean. rewrite !length_map, !lagged_product_length. reflexivity.
Qed.

End TableFacts.

(** ** Exact arithmetic *)

Lemma R_cabs_of_real (x : R) : cabs (of_real x) = Rabs x.
Proof.
  unfold cabs, of_real, fzero. simpl.
  replace (x * x + 0 * 0)%R with (Rsqr x) by (unfold Rsqr; ring).
  apply sqrt_Rsqr_abs.
Qed.

Lemma R_cabs_nonneg (z : complex R) : (0 <= cabs z)%R.
Proof. unfold cabs. simpl. apply sqrt_pos. Qed.

Lemma R_fabs_nonneg (x : R) : (0 <= fabs x)%R.
Proof. simpl. apply Rabs_pos. Qed.

Lemma R_mean_scale (n : nat) (s : R) :
  fmul (fdiv (of_nat 1) (of_nat n)) s = fdiv s (of_nat n).
Proof. simpl. unfold Rdiv. ring. Qed.

Lemma R_rows_nonneg (rows : list (list (complex R))) :
  Forall (Forall (fun x => (0 <= x)%R)) (map (map cabs) rows).
Proof.
  apply Forall_forall. intros r Hr.
  apply list_elem_of_In, in_map_iff in Hr. destruct Hr as (zs & <- & _).
  apply Forall_forall. intros x Hx.
  apply list_elem_of_In, in_map_iff in Hx. destruct Hx as (z & <- & _).
  apply R_cabs_nonneg.
Qed.

(** ** Running the embedding *)

Section Evaluation.
Context {F : Type} `{Scalar F}.

(** A row of three values: the shifted indices are 2, 0 and 1. *)
Example lag_8_of_three (a b c : complex F) :
  X_complex_8lag 1 3 [[a; b; c]] = Ok [[cmul a c; cmul b a; cmul c b]].
Proof. reflexivity. Qed.

Example lag_1_of_two_rows (a b c d : complex F) :
  X_complex_lag 1 2 2 [[a; b]; [c; d]]
  = Ok [[cmul a b; cmul b a]; [cmul c d; cmul d c]].
Proof. reflexivity. Qed.

(** One sample of two readings: the sixteen columns of the only row. *)
Example form_features_one_sample (it : nat -> nat -> nat -> F) :
  form_features {| shape0 := 1; shape1 := 2; shape2 := 2; item := it |}
  = Ok [form_features_sample
          [Cplx (it 0 0 0) (it 0 1 0); Cplx (it 0 0 1) (it 0 1 1)]].
Proof. reflexivity. Qed.

(** Two samples and a third channel, which is not read. *)
Example form_next16_features_two_samples (it : nat -> nat -> nat -> F) :
  form_next16_features {| shape0 := 2; shape1 := 3; shape2 := 2; item := it |}
  = Ok [form_next16_features_sample
          [Cplx (it 0 0 0) (it 0 1 0); Cplx (it 0 0 1) (it 0 1 1)];
        form_next16_features_sample
          [Cplx (it 1 0 0) (it 1 1 0); Cplx (it 1 0 1) (it 1 1 1)]].
Proof. reflexivity. Qed.

Example X_32_one_reading (it : nat -> nat -> nat -> F) :
  X_32 {| shape0 := 1; shape1 := 2; shape2 := 1; item := it |}
  = Ok [form_features_sample [Cplx (it 0 0 0) (it 0 1 0)]
        ++ form_next16_features_sample [Cplx (it 0 0 0) (it 0 1 0)]].
Proof. reflexivity. Qed.

Example form_features_no_sample (it : nat -> nat -> nat -> F) :
  form_features {| shape0 := 0; shape1 := 2; shape2 := 4; item := it |}
  = Raise ValueError.
Proof. reflexivity. Qed.

Example form_next16_features_no_reading (it : nat -> nat -> nat -> F) :
  form_next16_features {| shape0 := 3; shape1 := 2; shape2 := 0; item := it |}
  = Raise ValueError.
Proof. reflexivity. Qed.

Example form_features_one_channel (it : nat -> nat -> nat -> F) :
  form_features {| shape0 := 3; shape1 := 1; shape2 := 2; item := it |}
  = Raise IndexError.
Proof. reflexivity. Qed.

End Evaluation.

(** The argument is a principal value, and the argument of zero is zero. *)
Lemma Rarctan2_range (y x : R) : (- PI < Rarctan2 y x <= PI)%R.
Proof.
  pose proof PI_RGT_0 as Hpi.
  pose proof (atan_bound (y / x)) as [Hlo Hhi].
  unfold Rarctan2.
  destruct (Rlt_dec 0 x) as [Hx|Hx]; [lra|].
  destruct (Rlt_dec x 0) as [Hx'|Hx'].
  - pose proof (Rinv_lt_0_compat x Hx') as Hinv.
    destruct (Rle_dec 0 y) as [Hy|Hy].
    + assert (Hq : (y / x <= 0)%R) by (unfold Rdiv; nra).
      assert (Ha : (atan (y / x) <= 0)%R).
      { destruct Hq as [Hq|Hq].
        - left. rewrite <- atan_0. apply atan_increasing. exact Hq.
        - rewrite Hq, atan_0. lra. }
      lra.
    + assert (Hq : (0 < y / x)%R) by (unfold Rdiv; nra).
      assert (Ha : (0 < atan (y / x))%R).
      { rewrite <- atan_0. apply atan_increasing. exact Hq. }
      lra.
  - destruct (Rlt_dec 0 y); [lra|]. destruct (Rlt_dec y 0); lra.
Qed.

Lemma Rarctan2_0_0 : Rarctan2 0 0 = 0%R.
Proof.
  unfold Rarctan2. destruct (Rlt_dec 0 0) as [Hlt|_]; [lra|]. reflexivity.
Qed.

(** An all-zero sample of four readings: the sixteen statistics are 0. *)
Example zero_sample_block :
  spec_feature_block (replicate 4 (Cplx 0%R 0%R)) = replicate 16 0%R.
Proof.
  assert (Habs : cabs (Cplx 0%R 0%R) = 0%R).
  { unfold cabs. simpl. replace (0 * 0 + 0 * 0)%R with 0%R by ring. apply sqrt_0. }
  assert (Hang : cangle (Cplx 0%R 0%R) = 0%R).
  { unfold cangle. simpl. apply Rarctan2_0_0. }
  assert (Hsq : csquare (Cplx 0%R 0%R) = Cplx 0%R 0%R).
  { unfold csquare, cmul. simpl. f_equal; ring. }
  assert (Hpow : cpower (Cplx 0%R 0%R) 4 = Cplx 0%R 0%R).
  { unfold cpower, cmul. simpl. f_equal; ring. }
  assert (Hfabs : fabs 0%R = 0%R) by (simpl; apply Rabs_R0).
  assert (Hfsq : fsquare 0%R = 0%R) by (unfold fsquare; simpl; ring).
  assert (Hfpow : fpower 0%R 4 = 0%R) by (simpl; ring).
  assert (Hsum : fsum [0; 0; 0; 0]%R = 0%R) by (unfold fsum, fzero; simpl; ring).
  assert (Hmean : mean [0; 0; 0; 0]%R = 0%R).
  { unfold mean. rewrite Hsum. simpl. unfold Rdiv. ring. }
  assert (Hcsum : csum (replicate 4 (Cplx 0%R 0%R)) = Cplx 0%R 0%R).
  { unfold csum, cadd, czero, fzero. simpl. f_equal; ring. }
  assert (Hcmean : cmean (replicate 4 (Cplx 0%R 0%R)) = Cplx 0%R 0%R).
  { unfold cmean. rewrite Hcsum. unfold cdiv_real. simpl.
    f_equal; unfold Rdiv; ring. }
  assert (Hscale : forall c : R, cscale c (Cplx 0%R 0%R) = Cplx 0%R 0%R).
  { intros c. unfold cscale. simpl. f_equal; ring. }
  assert (Hcsub : csub (Cplx 0%R 0%R) (Cplx 0%R 0%R) = Cplx 0%R 0%R).
  { unfold csub. simpl. f_equal; ring. }
  assert (Hfsub : forall c : R, fsub 0%R (fmul c 0%R) = 0%R).
  { intros c. simpl. ring. }
  unfold spec_feature_block. cbn [seq map replicate].
  unfold spec_statistic. cbn [map length].
  rewrite ?Habs, ?Hang, ?Hsq, ?Hpow, ?Hfabs, ?Hfsq, ?Hfpow.
  cbn [replicate] in Hcsum, Hcmean.
  rewrite ?Hsum, ?Hmean, ?Hcsum, ?Hcmean, ?Hfsq, ?Hsq, ?Hscale, ?Hcsub, ?Hfsub.
  cbn [spec_magnitude]. rewrite ?Habs, ?Hfabs. reflexivity.
Qed.

(** The second sample of [rotating_batch] is all zero: its row in the
    result of [form_features] is sixteen zeros. *)
Example rotating_batch_zero_row :
  exists M, form_features rotating_batch = Ok M /\ M !! 1 = Some (replicate 16 0%R).
Proof.
  exists (map form_features_sample (batch_sequences rotating_batch)).
  split; [apply form_features_ok; simpl; lia|].
  rewrite <- zero_sample_block.
  rewrite <- (form_features_sample_table _ R_cabs_of_real).
  apply lookup_map_Some. reflexivity.
Qed.

(** * The claims *)

Lemma getitem2_lookup {A : Type} (a : list (list A)) (i j : nat) (row : list A) (x : A) :
  a !! i = Some row -> row !! j = Some x -> getitem2 a i j = Ok x.
Proof. intros Hi Hj. unfold getitem2. rewrite Hi, Hj. reflexivity. Qed.

Section StructuralClaims.
Context {F : Type} `{Scalar F}.

Lemma getitem2_batch_sequences (X : ndarray3 F) (n k : nat) :
  n < shape0 X -> k < shape2 X ->
  getitem2 (batch_sequences X) n k
  = Ok (py_complex (item X n 0 k) (item X n 1 k)).
Proof.
  intros Hn Hk.
  apply (getitem2_lookup _ _ _ (sample_sequence X n)).
  - apply lookup_batch_sequences. exact Hn.
  - unfold sample_sequence.
    apply (lookup_map_Some (fun k => Cplx (item X n 0 k) (item X n 1 k))).
    rewrite lookup_seq_lt by exact Hk. reflexivity.
Qed.

(** C10: the construction of the complex array inside [form_features] and
    the one inside [form_next16_features] are equal on every batch; on a
    batch of shape (N,2,L) with N and L at least 1 both succeed with the
    same array of N rows of length L, whose cell (n,k) has real part
    batch[n,0,k] and imaginary part batch[n,1,k]. *)
Theorem C10_one_complex_array (X : ndarray3 F) :
  form_features_X_complex X = form_next16_features_X_complex X /\
  (shape1 X = 2 -> 1 <= shape0 X -> 1 <= shape2 X ->
   exists Z,
     form_features_X_complex X = Ok Z /\
     form_next16_features_X_complex X = Ok Z /\
     length Z = shape0 X /\
     Forall (fun row => length row = shape2 X) Z /\
     forall n k, n < shape0 X -> k < shape2 X ->
       getitem2 Z n k = Ok (py_complex (item X n 0 k) (item X n 1 k))).
Proof.
  split; [reflexivity|].
  intros HC HN HL. exists (batch_sequences X).
  split; [apply form_features_X_complex_ok; lia|].
  split; [apply form_next16_features_X_complex_ok; lia|].
  split; [apply length_batch_sequences|].
  split; [apply batch_sequences_rows|].
  apply getitem2_batch_sequences.
Qed.

Lemma lookup_lagged_product (T : nat) (z : list (complex F)) (k : nat) (a b : complex F) :
  z !! k = Some a -> z !! ((k + T) mod length z) = Some b ->
  spec_lagged_product T z !! k = Some (cmul a b).
Proof.
  intros Ha Hb. unfold spec_lagged_product.
  assert (Hk : k < length z) by (apply lookup_lt_is_Some_1; eauto).
  rewrite <- (nth_lookup_Some _ _ czero _ Ha), <- (nth_lookup_Some _ _ czero _ Hb).
  apply (lookup_map_Some
    (fun k => cmul (nth k z czero) (nth ((k + T) mod length z) z czero))).
  rewrite lookup_seq_lt by exact Hk. reflexivity.
Qed.

(** C2: on N complex sequences of length L at least 1, the two loops of
    the lagged products succeed and give an array [w] of N rows where
    w[n][k] = z[n][k] * z[n][(k+8) mod L] for every n below N and k below L;
    the shifted index is reduced modulo L and is always within the row, so
    that the last cell w[n][L-1] reads the wrapped cell (L-1+8) mod L. *)
Theorem C2_lagged_product_cells (Z : list (list (complex F))) (N L : nat) :
  length Z = N -> Forall (fun row => length row = L) Z -> 1 <= L ->
  exists W,
    X_complex_8lag N L Z = Ok W /\
    length W = N /\
    Forall (fun row => length row = L) W /\
    (forall n k, n < N -> k < L ->
       (k + 8) mod L < L /\
       exists a b,
         getitem2 Z n k = Ok a /\
         getitem2 Z n ((k + 8) mod L) = Ok b /\
         getitem2 W n k = Ok (cmul a b)) /\
    (forall n, n < N ->
       exists a b,
         getitem2 Z n (L - 1) = Ok a /\
         getitem2 Z n ((L - 1 + 8) mod L) = Ok b /\
         getitem2 W n (L - 1) = Ok (cmul a b)).
Proof.
  intros HN HRows HL.
  assert (Hcells : forall n k, n < N -> k < L ->
    (k + 8) mod L < L /\
    exists a b,
      getitem2 Z n k = Ok a /\
      getitem2 Z n ((k + 8) mod L) = Ok b /\
      getitem2 (map (spec_lagged_product 8) Z) n k = Ok (cmul a b)).
  { intros n k Hn Hk.
    assert (Hs : (k + 8) mod L < L) by (apply Nat.mod_upper_bound; lia).
    split; [exact Hs|].
    destruct (lookup_lt_is_Some_2 Z n) as [zrow Hz]; [lia|].
    assert (Hzl : length zrow = L).
    { rewrite Forall_lookup in HRows. exact (HRows n zrow Hz). }
    destruct (lookup_lt_is_Some_2 zrow k) as [a Ha]; [lia|].
    destruct (lookup_lt_is_Some_2 zrow ((k + 8) mod L)) as [b Hb]; [lia|].
    exists a, b.
    split; [exact (getitem2_lookup _ _ _ _ _ Hz Ha)|].
    split; [exact (getitem2_lookup _ _ _ _ _ Hz Hb)|].
    apply (getitem2_lookup _ _ _ (spec_lagged_product 8 zrow)).
    - apply lookup_map_Some. exact Hz.
    - apply lookup_lagged_product; [exact Ha|]. rewrite Hzl. exact Hb. }
  exists (map (spec_lagged_product 8) Z).
  split; [apply X_complex_lag_ok; assumption|].
  split; [rewrite length_map; exact HN|].
  split.
  { apply Forall_forall. intros r Hr.
    apply list_elem_of_In, in_map_iff in Hr. destruct Hr as (z & <- & Hz).
    rewrite lagged_product_length. rewrite Forall_forall in HRows.
    apply HRows, list_elem_of_In. exact Hz. }
  split; [exact Hcells|].
  intros n Hn. apply Hcells; [exact Hn | lia].
Qed.

Lemma lagged_product_0 (z : list (complex F)) : spec_lagged_product 0 z = map csquare z.
Proof.
  unfold spec_lagged_product.
  rewrite <- (map_nth_seq csquare czero z).
  apply map_ext_in. intros k Hk. apply in_seq in Hk.
  rewrite Nat.add_0_r, Nat.mod_small by lia. reflexivity.
Qed.

(** C8: with lag T = 0 the rule w[n][k] = z[n][k] * z[n][(k+T) mod L] gives
    the elementwise square: the loops of the lagged products, run with
    T = 0 on N sequences of length L, return [np.square] of the array, so
    each cell w[n][k] is z[n][k] * z[n][k]. *)
Theorem C8_lag_zero_is_square (Z : list (list (complex F))) (N L : nat) :
  length Z = N -> Forall (fun row => length row = L) Z -> 1 <= L ->
  X_complex_lag 0 N L Z = Ok (np_csquare Z) /\
  (forall n k z, n < N -> k < L -> getitem2 Z n k = Ok z ->
     getitem2 (np_csquare Z) n k = Ok (cmul z z)) /\
  (forall z : list (complex F), spec_lagged_product 0 z = map csquare z).
Proof.
  intros HN HRows HL. split; [|split].
  - rewrite (X_complex_lag_ok 0 N L Z HN HRows). f_equal.
    unfold np_csquare. apply map_ext. intros z. apply lagged_product_0.
  - intros n k z Hn Hk Hz. unfold getitem2 in Hz.
    destruct (Z !! n) as [row|] eqn:Hrow; [|discriminate].
    destruct (row !! k) as [x|] eqn:Hx; [|discriminate].
    injection Hz as ->.
    apply (getitem2_lookup _ _ _ (map csquare row)).
    + unfold np_csquare. apply lookup_map_Some. exact Hrow.
    + apply (lookup_map_Some csquare). exact Hx.
  - apply lagged_product_0.
Qed.

End StructuralClaims.

Lemma np_concatenate1_pair {A B : Type} (f g : A -> list B) (l : list A) :
  np_concatenate1 [map f l; map g l] = Ok (map (fun x => f x ++ g x) l).
Proof.
  unfold np_concatenate1. cbn [forallb].
  rewrite !length_map, Nat.eqb_refl. cbn [andb]. f_equal.
  apply map_seq_lookup. intros i x Hx. cbn [map concat].
  rewrite (lookup_map_Some f l i x Hx), (lookup_map_Some g l i x Hx).
  simpl. rewrite app_nil_r. reflexivity.
Qed.

Section PipelineClaims.
Context {F : Type} `{Scalar F}.

(** C3: on a batch of shape (N,2,L) with N and L at least 1, joining the
    block of lag 0 and the block of lag 8 gives a matrix of N rows of 32
    columns; columns 0 to 15 of row i are row i of the lag-0 block, columns
    16 to 31 are row i of the lag-8 block, and both are functions of the
    complex sequence of sample i alone. *)
Theorem C3_feature_matrix (X : ndarray3 F) :
  1 <= shape0 X -> 1 <= shape2 X -> shape1 X = 2 ->
  exists M16 M8 M,
    form_features X = Ok M16 /\
    form_next16_features X = Ok M8 /\
    X_32 X = Ok M /\
    length M = shape0 X /\
    forall i, i < shape0 X ->
      exists row,
        M !! i = Some row /\
        length row = 32 /\
        M16 !! i = Some (take 16 row) /\
        M8 !! i = Some (drop 16 row) /\
        take 16 row = form_features_sample (sample_sequence X i) /\
        drop 16 row = form_next16_features_sample (sample_sequence X i).
Proof.
  intros HN HL HC.
  exists (map form_features_sample (batch_sequences X)),
         (map form_next16_features_sample (batch_sequences X)),
         (map (fun z => form_features_sample z ++ form_next16_features_sample z)
              (batch_sequences X)).
  split; [apply form_features_ok; lia|].
  split; [apply form_next16_features_ok; lia|].
  split.
  { unfold X_32.
    rewrite form_features_ok, form_next16_features_ok by lia. cbn [bind].
    apply np_concatenate1_pair. }
  split; [rewrite length_map; apply length_batch_sequences|].
  intros i Hi.
  pose proof (lookup_batch_sequences X i Hi) as Hz.
  exists (form_features_sample (sample_sequence X i)
          ++ form_next16_features_sample (sample_sequence X i)).
  split.
  { apply (lookup_map_Some
      (fun z => form_features_sample z ++ form_next16_features_sample z)).
    exact Hz. }
  split; [reflexivity|].
  rewrite take_app_length' by reflexivity.
  rewrite drop_app_length' by reflexivity.
  split; [apply lookup_map_Some; exact Hz|].
  split; [apply lookup_map_Some; exact Hz|].
  split; reflexivity.
Qed.

Lemma getitem2_form_features_sample (X : ndarray3 F) (n j : nat) (x : F) :
  n < shape0 X ->
  form_features_sample (sample_sequence X n) !! j = Some x ->
  getitem2 (map form_features_sample (batch_sequences X)) n j = Ok x.
Proof.
  intros Hn Hj.
  apply (getitem2_lookup _ _ _ (form_features_sample (sample_sequence X n))).
  - apply lookup_map_Some, lookup_batch_sequences. exact Hn.
  - exact Hj.
Qed.

(** C4: the lag-0 extractor works on the raw complex sequence z of each
    sample: twelve columns (statistics 2, 3, 4, 6, 7, 8, 10, 11, 12, 14, 15
    and 16) are the statistics written on the magnitudes |z| and the angles
    angle(z); statistic 1 is the mean of z itself; the elementwise square of
    z is read by statistics 5, 9 and 13 only, and replacing the array of
    squares by any other leaves the other thirteen feature columns
    unchanged.  No lagged product occurs in any of them. *)
Theorem C4_lag0_reads_raw_sequence (X : ndarray3 F) :
  1 <= shape0 X -> 1 <= shape2 X -> shape1 X = 2 ->
  (exists M,
     form_features X = Ok M /\
     forall n, n < shape0 X ->
       let z := sample_sequence X n in
       let c := fdiv (of_nat 1) (of_nat (length z ^ 2)) in
       (forall j, In j polar_columns ->
          getitem2 M n j
          = Ok (cabs (of_real (spec_polar_statistic (S j) (map cabs z) (map cangle z))))) /\
       getitem2 M n 0 = Ok (cabs (cmean z)) /\
       getitem2 M n 4 = Ok (cabs (cmean (map csquare z))) /\
       getitem2 M n 8
       = Ok (cabs (csub (cmean (map csquare z)) (cscale c (csquare (csum z))))) /\
       getitem2 M n 12
       = Ok (cabs (csub (cmean (map (fun x => cpower x 4) z))
                        (cscale c (csquare (csum (map csquare z))))))) /\
  (forall L Z S S' A d d' j,
     form_features_dict L Z S A = Ok d ->
     form_features_dict L Z S' A = Ok d' ->
     j <> 4 -> j <> 8 -> j <> 12 ->
     dict_values d !! j = dict_values d' !! j).
Proof.
  intros HN HL HC. split.
  - exists (map form_features_sample (batch_sequences X)).
    split; [apply form_features_ok; lia|].
    intros n Hn z c.
    split; [|repeat split; apply getitem2_form_features_sample; try exact Hn;
             reflexivity].
    intros j Hj. apply getitem2_form_features_sample; [exact Hn|].
    unfold form_features_sample, sample_raw, f15_sample, spec_polar_statistic, mean.
    rewrite !length_map.
    simpl in Hj.
    repeat (destruct Hj as [<-|Hj]; [reflexivity|]). contradiction.
  - intros L Z S S' A d d' j Hd Hd' H4 H8 H12.
    unfold form_features_dict, f9, f10, f11, f12, f13, f14, f15, f16 in Hd, Hd'.
    destruct (py_truediv 1 (L ^ 2)) as [c|e]; [|discriminate].
    cbn [bind] in Hd, Hd'. cbv zeta in Hd, Hd'.
    apply Ok_inj in Hd, Hd'. subst d d'.
    rewrite !dict_values_lag0.
    do 13 (destruct j as [|j]; [first [reflexivity | congruence]|]).
    destruct j as [|j]; [reflexivity|].
    destruct j as [|j]; [reflexivity|].
    destruct j as [|j]; reflexivity.
Qed.

(** C6 (amended): on a batch of shape (N,2,L) each extractor raises exactly
    when N = 0 or L = 0, and what it raises is the ValueError of stacking
    an empty list of complex values, before any division; for N and L at
    least 1 it returns, and row n of the result is the magnitude of each of
    the sixteen raw values of sample n, with nothing between the arithmetic
    and that final magnitude: no value is clamped, replaced or dropped. *)
Theorem C6_failure_and_propagation (X : ndarray3 F) :
  shape1 X = 2 ->
  (raises (form_features X) <-> shape0 X = 0 \/ shape2 X = 0) /\
  (raises (form_next16_features X) <-> shape0 X = 0 \/ shape2 X = 0) /\
  (shape0 X = 0 \/ shape2 X = 0 ->
     form_features X = Raise ValueError /\
     form_next16_features X = Raise ValueError) /\
  (1 <= shape0 X -> 1 <= shape2 X ->
     form_features X
     = Ok (map (fun n =>
                  let z := sample_sequence X n in
                  map cabs (sample_raw (length z) z
                              (f15_sample (length z) (map cangle z))))
               (seq 0 (shape0 X))) /\
     form_next16_features X
     = Ok (map (fun n =>
                  let w := spec_lagged_product 8 (sample_sequence X n) in
                  map cabs (sample_raw (length w) w
                              (f31_sample (length w) (map cangle w))))
               (seq 0 (shape0 X)))).
Proof.
  intros HC.
  assert (Hempty : shape0 X = 0 \/ shape2 X = 0 ->
            form_features X = Raise ValueError /\
            form_next16_features X = Raise ValueError).
  { intros Hz. split; [apply form_features_empty | apply form_next16_features_empty];
      exact Hz. }
  assert (Hok : 1 <= shape0 X -> 1 <= shape2 X ->
            form_features X = Ok (map form_features_sample (batch_sequences X)) /\
            form_next16_features X
            = Ok (map form_next16_features_sample (batch_sequences X))).
  { intros HN HL. split; [apply form_features_ok | apply form_next16_features_ok];
      lia. }
  split; [|split; [|split]].
  - split.
    + intros Hr. destruct (decide (shape0 X = 0)) as [|HN]; [left; assumption|].
      destruct (decide (shape2 X = 0)) as [|HL]; [right; assumption|].
      destruct Hok as [Hf _]; [lia | lia |]. rewrite Hf in Hr. contradiction.
    + intros Hz. destruct (Hempty Hz) as [-> _]. exact I.
  - split.
    + intros Hr. destruct (decide (shape0 X = 0)) as [|HN]; [left; assumption|].
      destruct (decide (shape2 X = 0)) as [|HL]; [right; assumption|].
      destruct Hok as [_ Hf]; [lia | lia |]. rewrite Hf in Hr. contradiction.
    + intros Hz. destruct (Hempty Hz) as [_ ->]. exact I.
  - exact Hempty.
  - intros HN HL. destruct (Hok HN HL) as [-> ->].
    unfold batch_sequences. rewrite !map_map. split; f_equal.
    apply map_ext. intros n. unfold form_next16_features_sample. cbv zeta.
    rewrite lagged_product_length. reflexivity.
Qed.

(** C7 (amended): with fewer than two channels both extractors raise, for
    every N and L, and return nothing; with two channels or more, and N and
    L at least 1, both return: a channel dimension above 2 is accepted. *)
Theorem C7_channel_dimension (X : ndarray3 F) :
  (shape1 X < 2 ->
     raises (form_features X) /\ raises (form_next16_features X)) /\
  (2 <= shape1 X -> 1 <= shape0 X -> 1 <= shape2 X ->
     is_ok (form_features X) /\ is_ok (form_next16_features X)).
Proof.
  split.
  - intros HC.
    destruct (decide (shape0 X = 0 \/ shape2 X = 0)) as [Hz|Hnz].
    + rewrite (form_features_empty X Hz), (form_next16_features_empty X Hz).
      split; exact I.
    + rewrite form_features_index, form_next16_features_index by lia.
      split; exact I.
  - intros HC HN HL.
    rewrite form_features_ok, form_next16_features_ok by lia.
    split; exact I.
Qed.

Lemma batch_sequences_agree (X X' : ndarray3 F) :
  shape0 X = shape0 X' -> shape2 X = shape2 X' ->
  (forall n k, n < shape0 X -> k < shape2 X ->
     item X n 0 k = item X' n 0 k /\ item X n 1 k = item X' n 1 k) ->
  batch_sequences X = batch_sequences X'.
Proof.
  intros HN HL Hitems. unfold batch_sequences, sample_sequence.
  rewrite <- HN, <- HL.
  apply map_ext_in. intros n Hn. apply in_seq in Hn.
  apply map_ext_in. intros k Hk. apply in_seq in Hk.
  destruct (Hitems n k) as [-> ->]; [lia | lia |]. reflexivity.
Qed.

(** C9: two batches with the same N and L, each with at least the channels
    0 and 1, whose cells of channel 0 and of channel 1 agree, give the same
    result in [form_features] and in [form_next16_features], whatever the
    number and the content of their further channels; for N and L at least
    1 that common result is a matrix, not an exception. *)
Theorem C9_only_channels_0_and_1 (X X' : ndarray3 F) :
  shape0 X = shape0 X' -> shape2 X = shape2 X' ->
  2 <= shape1 X -> 2 <= shape1 X' ->
  (forall n k, n < shape0 X -> k < shape2 X ->
     item X n 0 k = item X' n 0 k /\ item X n 1 k = item X' n 1 k) ->
  form_features X = form_features X' /\
  form_next16_features X = form_next16_features X' /\
  (1 <= shape0 X -> 1 <= shape2 X ->
     is_ok (form_features X') /\ is_ok (form_next16_features X')).
Proof.
  intros HN HL HC HC' Hitems.
  assert (Hok : 1 <= shape0 X -> 1 <= shape2 X ->
            form_features X = form_features X' /\
            form_next16_features X = form_next16_features X' /\
            is_ok (form_features X') /\ is_ok (form_next16_features X')).
  { intros HN1 HL1.
    rewrite (form_features_ok X), (form_next16_features_ok X) by lia.
    rewrite (form_features_ok X'), (form_next16_features_ok X') by lia.
    rewrite (batch_sequences_agree X X' HN HL Hitems).
    repeat split; reflexivity. }
  destruct (decide (shape0 X = 0 \/ shape2 X = 0)) as [Hz|Hnz].
  - assert (Hz' : shape0 X' = 0 \/ shape2 X' = 0) by lia.
    rewrite (form_features_empty X Hz), (form_features_empty X' Hz').
    rewrite (form_next16_features_empty X Hz), (form_next16_features_empty X' Hz').
    repeat split; try reflexivity; lia.
  - destruct Hok as (H1 & H2 & H3 & H4); [lia | lia |].
    repeat split; assumption.
Qed.

End PipelineClaims.

(** ** Feature 31 and the table *)

Section Feature31.
Context {F : Type} `{Scalar F}.

Lemma statistic_15_f15_sample (z : list (complex F)) :
  spec_statistic 15 z = RealValue (f15_sample (length z) (map cangle z)).
Proof. reflexivity. Qed.

Lemma f15_rows (L : nat) (A : list (list F)) :
  L <> 0 -> f15 L A = Ok (NdF (column (map (f15_sample L) A))).
Proof.
  intros HL. unfold f15.
  rewrite py_truediv_ok by (apply Nat.pow_nonzero; exact HL). cbn [bind].
  unfold np_mean, np_sum, np_power, np_square.
  rewrite !map_map, zip_with_map_same. reflexivity.
Qed.

Lemma f31_rows (L : nat) (A : list (list F)) :
  L <> 0 -> f31 L A = Ok (NdF (column (map (f31_sample L) A))).
Proof.
  intros HL. unfold f31.
  rewrite (py_truediv_ok 1 L HL).
  rewrite py_truediv_ok by (apply Nat.pow_nonzero; exact HL). cbn [bind].
  unfold np_sum, np_power, np_square.
  rewrite !map_map, zip_with_map_same. reflexivity.
Qed.

Lemma f31_f15_zero (A : list (list F)) : f31 0 A = f15 0 A.
Proof. reflexivity. Qed.

End Feature31.

Section TableColumns.
Context {F : Type} `{Scalar F}.




Lemma f31_sample_mean (L : nat) (a : list F) :
  length a = L ->
  (forall s : F, fmul (fdiv (of_nat 1) (of_nat L)) s = fdiv s (of_nat L)) ->
  f31_sample L a = f15_sample L a.
Proof.
  intros Ha Hmean. unfold f31_sample, f15_sample, mean.
  rewrite Hmean, length_map, Ha. reflexivity.
Qed.


(** C5 (amended): on an array of angles with rows of length L at least 1,
    feature 31 and the expression of feature 15 are both a first term minus
    the same second term, (1/L^2) * (sum(angle^2))^2, computed from the same
    sums; the first term of feature 31 is (1/L) * sum(angle^4), that of
    feature 15 is sum(angle^4) / L.  So the two are equal wherever
    (1/L) * s = s / L, as in exact arithmetic; and the expression of
    feature 15 is statistic 15 of the table. *)
Theorem C5_f31_first_term (L : nat) (A : list (list F)) :
  1 <= L -> Forall (fun row => length row = L) A ->
  f31 L A
  = Ok (NdF (column (map (fun a =>
              fsub (fmul (fdiv (of_nat 1) (of_nat L))
                         (fsum (map (fun x => fpower x 4) a)))
                   (fmul (fdiv (of_nat 1) (of_nat (L ^ 2)))
                         (fsquare (fsum (map fsquare a))))) A))) /\
  f15 L A
  = Ok (NdF (column (map (fun a =>
              fsub (fdiv (fsum (map (fun x => fpower x 4) a)) (of_nat L))
                   (fmul (fdiv (of_nat 1) (of_nat (L ^ 2)))
                         (fsquare (fsum (map fsquare a))))) A))) /\
  ((forall s : F, fmul (fdiv (of_nat 1) (of_nat L)) s = fdiv s (of_nat L)) ->
   f31 L A = f15 L A) /\
  (forall z : list (complex F),
     spec_statistic 15 z = RealValue (f15_sample (length z) (map cangle z))).
Proof.
  intros HL HRows.
  assert (H15 : map (f15_sample L) A
    = map (fun a =>
             fsub (fdiv (fsum (map (fun x => fpower x 4) a)) (of_nat L))
                  (fmul (fdiv (of_nat 1) (of_nat (L ^ 2)))
                        (fsquare (fsum (map fsquare a))))) A).
  { apply map_ext_in. intros a Ha. unfold f15_sample, mean.
    rewrite Forall_forall in HRows.
    rewrite length_map, (HRows a) by (apply list_elem_of_In; exact Ha). reflexivity. }
  split; [rewrite f31_rows by lia; reflexivity|].
  split; [rewrite f15_rows by lia; rewrite H15; reflexivity|].
  split; [|intros z; apply statistic_15_f15_sample].
  intros Hmean. rewrite f31_rows, f15_rows by lia. do 3 f_equal.
  apply map_ext_in. intros a Ha. apply f31_sample_mean; [|exact Hmean].
  rewrite Forall_forall in HRows. apply HRows, list_elem_of_In. exact Ha.
Qed.

End TableColumns.

(** ** The claims at concrete batches *)

(** In [float64] the two first terms differ: with L = 3 and the angles 0, 1
    and 2 the sum of the fourth powers is 17, and (1/3) * 17 is not 17 / 3. *)
Lemma C5_counterexample :
  (forall hypot arctan2 : PrimFloat.float -> PrimFloat.float -> PrimFloat.float,
     @f31 PrimFloat.float (binary64_scalar hypot arctan2) 3 angles_0_1_2
     = Ok (NdF [[f31_of_0_1_2]]) /\
     @f15 PrimFloat.float (binary64_scalar hypot arctan2) 3 angles_0_1_2
     = Ok (NdF [[f15_of_0_1_2]])) /\
  PrimFloat.ltb f31_of_0_1_2 f15_of_0_1_2 = true /\
  f31_of_0_1_2 <> f15_of_0_1_2.
Proof.
  split; [intros hypot arctan2; split; vm_compute; reflexivity|].
  split; [reflexivity|].
  intros Heq. apply (f_equal (fun x => PrimFloat.ltb x f15_of_0_1_2)) in Heq.
  vm_compute in Heq. discriminate Heq.
Qed.



Lemma C5_witness :
  (1 <= 3 /\ Forall (fun row => length row = 3) angles_0_1_2) /\
  forall hypot arctan2 : PrimFloat.float -> PrimFloat.float -> PrimFloat.float,
    @f31 PrimFloat.float (binary64_scalar hypot arctan2) 3 angles_0_1_2
    = Ok (NdF [[f31_of_0_1_2]]) /\
    @f15 PrimFloat.float (binary64_scalar hypot arctan2) 3 angles_0_1_2
    = Ok (NdF [[f15_of_0_1_2]]).
Proof.
  assert (Hrows : Forall (fun row : list PrimFloat.float => length row = 3) angles_0_1_2).
  { repeat constructor. }
  split; [split; [lia | exact Hrows]|].
  intros hypot arctan2.
  destruct (@C5_f31_first_term PrimFloat.float (binary64_scalar hypot arctan2) 3 angles_0_1_2)
    as (H31 & H15 & _); [lia | exact Hrows |].
  rewrite H31, H15. split; vm_compute; reflexivity.
Defined.

Lemma C2_witness :
  (length three_values = 1 /\ Forall (fun row => length row = 3) three_values
   /\ 1 <= 3) /\
  exists W, X_complex_8lag 1 3 three_values = Ok W /\ length W = 1.
Proof.
  assert (Hrows : Forall (fun row : list (complex R) => length row = 3) three_values).
  { repeat constructor. }
  split; [split; [reflexivity | split; [exact Hrows | lia]]|].
  destruct (C2_lagged_product_cells three_values 1 3)
    as (W & HW & Hlen & _); [reflexivity | exact Hrows | lia |].
  exists W. split; assumption.
Defined.

Lemma C3_witness :
  (1 <= shape0 rotating_batch /\ 1 <= shape2 rotating_batch
   /\ shape1 rotating_batch = 2) /\
  exists M, X_32 rotating_batch = Ok M /\ length M = 2.
Proof.
  split; [simpl; lia|].
  destruct (C3_feature_matrix rotating_batch)
    as (M16 & M8 & M & _ & _ & HM & Hlen & _); [simpl; lia ..|].
  exists M. split; [exact HM | exact Hlen].
Defined.

Lemma C4_witness :
  (1 <= shape0 rotating_batch /\ 1 <= shape2 rotating_batch
   /\ shape1 rotating_batch = 2) /\
  exists M,
    form_features rotating_batch = Ok M /\
    getitem2 M 0 0 = Ok (cabs (cmean (sample_sequence rotating_batch 0))).
Proof.
  split; [simpl; lia|].
  destruct (C4_lag0_reads_raw_sequence rotating_batch)
    as [(M & HM & Hrow) _]; [simpl; lia ..|].
  exists M. split; [exact HM|].
  destruct (Hrow 0) as (_ & H0 & _); [simpl; lia | exact H0].
Defined.

(** The empty batch has samples of length four, not zero, and both
    extractors raise: a failure does not need L = 0. *)
Lemma C6_counterexample :
  (shape0 empty_batch = 0 /\ shape1 empty_batch = 2 /\ shape2 empty_batch = 4) /\
  form_features empty_batch = Raise ValueError /\
  form_next16_features empty_batch = Raise ValueError /\
  ~ (raises (form_features empty_batch) <-> shape2 empty_batch = 0) /\
  ~ (raises (form_next16_features empty_batch) <-> shape2 empty_batch = 0).
Proof.
  assert (H16 : form_features empty_batch = Raise ValueError).
  { apply form_features_empty. left. reflexivity. }
  assert (H8 : form_next16_features empty_batch = Raise ValueError).
  { apply form_next16_features_empty. left. reflexivity. }
  split; [repeat split|]. split; [exact H16|]. split; [exact H8|].
  rewrite H16, H8. split; intros [Hr _]; specialize (Hr I); discriminate.
Qed.

Lemma C6_witness :
  shape1 empty_batch = 2 /\
  form_features empty_batch = Raise ValueError /\
  form_next16_features empty_batch = Raise ValueError.
Proof.
  split; [reflexivity|].
  destruct (C6_failure_and_propagation empty_batch) as (_ & _ & Hempty & _);
    [reflexivity|].
  apply Hempty. left. reflexivity.
Defined.

(** A batch with three channels is not refused. *)
Lemma C7_counterexample :
  shape1 three_channel_batch <> 2 /\
  is_ok (form_features three_channel_batch) /\
  is_ok (form_next16_features three_channel_batch).
Proof.
  split; [simpl; lia|].
  rewrite form_features_ok, form_next16_features_ok by (simpl; lia).
  split; exact I.
Qed.

Lemma C7_witness :
  shape1 one_channel_batch < 2 /\
  raises (form_features one_channel_batch) /\
  raises (form_next16_features one_channel_batch).
Proof.
  assert (HC : shape1 one_channel_batch < 2) by (simpl; lia).
  split; [exact HC|].
  exact (proj1 (C7_channel_dimension one_channel_batch) HC).
Defined.

Lemma C8_witness :
  (length three_values = 1 /\ Forall (fun row => length row = 3) three_values
   /\ 1 <= 3) /\
  X_complex_lag 0 1 3 three_values = Ok (np_csquare three_values).
Proof.
  assert (Hrows : Forall (fun row : list (complex R) => length row = 3) three_values).
  { repeat constructor. }
  split; [split; [reflexivity | split; [exact Hrows | lia]]|].
  apply (C8_lag_zero_is_square three_values 1 3); [reflexivity | exact Hrows | lia].
Defined.

Lemma C9_witness :
  (shape0 rotating_batch = shape0 three_channel_batch /\
   shape2 rotating_batch = shape2 three_channel_batch /\
   2 <= shape1 rotating_batch /\ 2 <= shape1 three_channel_batch /\
   forall n k, n < shape0 rotating_batch -> k < shape2 rotating_batch ->
     item rotating_batch n 0 k = item three_channel_batch n 0 k /\
     item rotating_batch n 1 k = item three_channel_batch n 1 k) /\
  form_features rotating_batch = form_features three_channel_batch /\
  form_next16_features rotating_batch = form_next16_features three_channel_batch.
Proof.
  assert (Hitems : forall n k,
            n < shape0 rotating_batch -> k < shape2 rotating_batch ->
            item rotating_batch n 0 k = item three_channel_batch n 0 k /\
            item rotating_batch n 1 k = item three_channel_batch n 1 k).
  { intros n k _ _. split; reflexivity. }
  split.
  { split; [reflexivity|]. split; [reflexivity|].
    split; [simpl; lia|]. split; [simpl; lia | exact Hitems]. }
  destruct (C9_only_channels_0_and_1 rotating_batch three_channel_batch)
    as (H16 & H8 & _); [reflexivity | reflexivity | simpl; lia | simpl; lia
                        | exact Hitems |].
  split; [exact H16 | exact H8].
Defined.

Lemma C10_witness :
  (shape1 rotating_batch = 2 /\ 1 <= shape0 rotating_batch
   /\ 1 <= shape2 rotating_batch) /\
  exists Z,
    form_features_X_complex rotating_batch = Ok Z /\
    form_next16_features_X_complex rotating_batch = Ok Z /\
    getitem2 Z 0 1 = Ok (py_complex 0%R 1%R).
Proof.
  split; [simpl; lia|].
  destruct (proj2 (C10_one_complex_array rotating_batch))
    as (Z & H0 & H8 & _ & _ & Hcells); [simpl; lia ..|].
  exists Z. split; [exact H0|]. split; [exact H8|].
  apply (Hcells 0 1); simpl; lia.
Defined.

(** * The data set, its split and its labels: proofs *)

(** ** Sorted sets and positions *)

Lemma String_leb_total : Total (Prep.below String.leb).
Proof. intros x y. apply String.leb_total. Qed.

Lemma String_compare_Lt_trans (x y z : string) :
  String.compare x y = Lt -> String.compare y z = Lt -> String.compare x z = Lt.
Proof.
  intros Hxy Hyz.
  pose proof String_as_OT.lt_strorder as [_ Htrans].
  exact (Htrans x y z Hxy Hyz).
Qed.

Lemma String_compare_refl (x : string) : String.compare x x = Eq.
Proof.
  pose proof (String.compare_antisym x x) as Hanti.
  destruct (String.compare x x); simpl in Hanti; congruence.
Qed.

Lemma String_leb_trans : Transitive (Prep.below String.leb).
Proof.
  intros x y z. unfold Prep.below, String.leb.
  destruct (String.compare x y) eqn:Hxy; [| |discriminate]; intros _;
    destruct (String.compare y z) eqn:Hyz; [| |discriminate| | |discriminate];
    intros _.
  - apply String.compare_eq_iff in Hxy, Hyz. subst.
    rewrite String_compare_refl. reflexivity.
  - apply String.compare_eq_iff in Hxy. subst. rewrite Hyz. reflexivity.
  - apply String.compare_eq_iff in Hyz. subst. rewrite Hxy. reflexivity.
  - rewrite (String_compare_Lt_trans x y z Hxy Hyz). reflexivity.
Qed.

Lemma Z_leb_total : Total (Prep.below Z.leb).
Proof. intros x y. unfold Prep.below. rewrite !Z.leb_le. lia. Qed.

Lemma Z_leb_trans : Transitive (Prep.below Z.leb).
Proof. intros x y z. unfold Prep.below. rewrite !Z.leb_le. lia. Qed.

Lemma py_sorted_set_elem {A : Type} `{EqDecision A} (leb : A -> A -> bool)
    (l : list A) (x : A) :
  x ∈ Prep.py_sorted_set leb l <-> x ∈ l.
Proof.
  unfold Prep.py_sorted_set.
  rewrite (merge_sort_Permutation (Prep.below leb) (remove_dups l)).
  apply elem_of_remove_dups.
Qed.

Lemma py_sorted_set_NoDup {A : Type} `{EqDecision A} (leb : A -> A -> bool)
    (l : list A) :
  NoDup (Prep.py_sorted_set leb l).
Proof.
  unfold Prep.py_sorted_set.
  rewrite (merge_sort_Permutation (Prep.below leb) (remove_dups l)).
  apply NoDup_remove_dups.
Qed.

Lemma py_sorted_set_sorted {A : Type} `{EqDecision A} (leb : A -> A -> bool)
    (l : list A) :
  Total (Prep.below leb) -> Transitive (Prep.below leb) ->
  StronglySorted (Prep.below leb) (Prep.py_sorted_set leb l).
Proof.
  intros Htotal Htrans. unfold Prep.py_sorted_set.
  apply StronglySorted_merge_sort; assumption.
Qed.

(** A sorted list without duplicates is strictly sorted. *)
Lemma StronglySorted_strict {A : Type} (R Q : relation A) (l : list A) :
  (forall x y, R x y -> x <> y -> Q x y) ->
  StronglySorted R l -> NoDup l -> StronglySorted Q l.
Proof.
  intros HQ. induction 1 as [|x l Hsorted IH Hall]; intros Hnodup; constructor.
  - apply IH. apply NoDup_cons in Hnodup. tauto.
  - apply NoDup_cons in Hnodup. destruct Hnodup as [Hx _].
    rewrite Forall_forall in Hall. apply Forall_forall. intros y Hy.
    apply HQ; [apply Hall; exact Hy|]. intros ->. contradiction.
Qed.

(** [l.index(x)] finds the position of [x], and only of [x]. *)
Lemma list_index_lookup {A : Type} (eqb : A -> A -> bool) (l : list A) (x : A) (j : nat) :
  (forall a b, eqb a b = true <-> a = b) ->
  Prep.list_index eqb l x = Prep.Ok j -> l !! j = Some x.
Proof.
  intros Heqb. revert j. induction l as [|y l IH]; intros j; simpl; [discriminate|].
  destruct (eqb y x) eqn:Hyx.
  - intros Hj. injection Hj as <-. apply Heqb in Hyx. subst. reflexivity.
  - destruct (Prep.list_index eqb l x) as [i|e]; simpl; [|discriminate].
    intros Hj. injection Hj as <-. simpl. apply IH. reflexivity.
Qed.

Lemma list_index_NoDup {A : Type} (eqb : A -> A -> bool) (l : list A) (x : A) (j : nat) :
  (forall a b, eqb a b = true <-> a = b) ->
  NoDup l -> l !! j = Some x -> Prep.list_index eqb l x = Prep.Ok j.
Proof.
  intros Heqb Hnodup. revert j.
  induction l as [|y l IH]; intros j Hj; [discriminate|].
  apply NoDup_cons in Hnodup. destruct Hnodup as [Hy Hnodup].
  destruct j as [|j]; simpl in *.
  - injection Hj as ->. rewrite (proj2 (Heqb x x) eq_refl). reflexivity.
  - destruct (eqb y x) eqn:Hyx.
    + apply Heqb in Hyx. subst. exfalso. apply Hy.
      apply list_elem_of_lookup. eauto.
    + rewrite (IH Hnodup j Hj). reflexivity.
Qed.

Lemma list_index_absent {A : Type} (eqb : A -> A -> bool) (l : list A) (x : A) :
  (forall a b, eqb a b = true <-> a = b) ->
  x ∉ l -> Prep.list_index eqb l x = Prep.Raise Prep.ValueError.
Proof.
  intros Heqb. induction l as [|y l IH]; intros Hx; simpl; [reflexivity|].
  apply not_elem_of_cons in Hx. destruct Hx as [Hxy Hx].
  destruct (eqb y x) eqn:Hyx.
  - apply Heqb in Hyx. congruence.
  - rewrite (IH Hx). reflexivity.
Qed.

Lemma list_index_present {A : Type} (eqb : A -> A -> bool) (l : list A) (x : A) :
  (forall a b, eqb a b = true <-> a = b) ->
  x ∈ l -> exists j, Prep.list_index eqb l x = Prep.Ok j.
Proof.
  intros Heqb. induction l as [|y l IH]; intros Hx; simpl.
  - apply elem_of_nil in Hx. contradiction.
  - destruct (eqb y x) eqn:Hyx; [eauto|].
    apply elem_of_cons in Hx. destruct Hx as [->|Hx].
    + rewrite (proj2 (Heqb y y) eq_refl) in Hyx. discriminate.
    + destruct (IH Hx) as [j ->]. simpl. eauto.
Qed.

Lemma String_eqb_spec (a b : string) : String.eqb a b = true <-> a = b.
Proof. apply String.eqb_eq. Qed.

Section SortedKeys.
Context {V : Type}.

Lemma elem_of_snrs_of (d : list (Prep.key * V)) (s : Z) :
  s ∈ Prep.snrs_of d <-> exists m, (m, s) ∈ Prep.dict_keys d.
Proof.
  unfold Prep.snrs_of. rewrite py_sorted_set_elem.
  rewrite list_elem_of_In, in_map_iff. split.
  - intros ([m s'] & <- & Hk). exists m. apply list_elem_of_In. exact Hk.
  - intros [m Hk]. exists (m, s). split; [reflexivity|].
    apply list_elem_of_In. exact Hk.
Qed.

Lemma elem_of_mods_of (d : list (Prep.key * V)) (m : string) :
  m ∈ Prep.mods_of d <-> exists s, (m, s) ∈ Prep.dict_keys d.
Proof.
  unfold Prep.mods_of. rewrite py_sorted_set_elem.
  rewrite list_elem_of_In, in_map_iff. split.
  - intros ([m' s] & <- & Hk). exists s. apply list_elem_of_In. exact Hk.
  - intros [s Hk]. exists (m, s). split; [reflexivity|].
    apply list_elem_of_In. exact Hk.
Qed.

(** X1: [snrs] and [mods] are the SNRs and the modulation names of the keys,
    each once, in strictly increasing order (numeric, alphabetical); so
    [mods.index] and the lookup by position are inverse to each other, and
    [mods.index] raises ValueError exactly on a name no key has. *)
Theorem snrs_mods_sorted_sets (d : list (Prep.key * V)) :
  (StronglySorted Z.lt (Prep.snrs_of d) /\
   forall s, s ∈ Prep.snrs_of d <-> exists m, (m, s) ∈ Prep.dict_keys d) /\
  (StronglySorted (fun a b => String.ltb a b = true) (Prep.mods_of d) /\
   forall m, m ∈ Prep.mods_of d <-> exists s, (m, s) ∈ Prep.dict_keys d) /\
  (forall m j,
     Prep.list_index String.eqb (Prep.mods_of d) m = Prep.Ok j
     <-> Prep.mods_of d !! j = Some m) /\
  (forall m,
     Prep.list_index String.eqb (Prep.mods_of d) m = Prep.Raise Prep.ValueError
     <-> ~ exists s, (m, s) ∈ Prep.dict_keys d).
Proof.
  split; [|split; [|split]].
  - split; [|apply elem_of_snrs_of].
    apply (StronglySorted_strict (Prep.below Z.leb)).
    + intros x y Hle Hne. apply Z.leb_le in Hle. lia.
    + apply py_sorted_set_sorted; [apply Z_leb_total | apply Z_leb_trans].
    + apply py_sorted_set_NoDup.
  - split; [|apply elem_of_mods_of].
    apply (StronglySorted_strict (Prep.below String.leb)).
    + intros x y Hle Hne. unfold Prep.below, String.leb in Hle.
      unfold String.ltb. destruct (String.compare x y) eqn:Hxy;
        [|reflexivity|discriminate].
      apply String.compare_eq_iff in Hxy. contradiction.
    + apply py_sorted_set_sorted; [apply String_leb_total | apply String_leb_trans].
    + apply py_sorted_set_NoDup.
  - intros m j. split.
    + apply list_index_lookup, String_eqb_spec.
    + apply list_index_NoDup; [apply String_eqb_spec | apply py_sorted_set_NoDup].
  - intros m. rewrite <- elem_of_mods_of. split.
    + intros Hraise Hin.
      destruct (list_index_present String.eqb _ m String_eqb_spec Hin) as [j Hj].
      congruence.
    + apply list_index_absent, String_eqb_spec.
Qed.

End SortedKeys.

(** ** Dictionaries *)

Lemma key_eqb_eq (k k' : Prep.key) : Prep.key_eqb k k' = true <-> k = k'.
Proof.
  destruct k as [m s], k' as [m' s']. unfold Prep.key_eqb. simpl.
  rewrite andb_true_iff, String.eqb_eq, Z.eqb_eq. split.
  - intros [-> ->]. reflexivity.
  - intros Heq. injection Heq as -> ->. split; reflexivity.
Qed.

Lemma key_eqb_refl (k : Prep.key) : Prep.key_eqb k k = true.
Proof. apply key_eqb_eq. reflexivity. Qed.

Lemma key_eqb_neq (k k' : Prep.key) : k <> k' -> Prep.key_eqb k k' = false.
Proof.
  intros Hne. destruct (Prep.key_eqb k k') eqn:E; [|reflexivity].
  apply key_eqb_eq in E. contradiction.
Qed.

Section DictFacts.
Context {V : Type}.

Lemma dict_getitem_absent (d : list (Prep.key * V)) (k : Prep.key) :
  k ∉ Prep.dict_keys d -> Prep.dict_getitem d k = Prep.Raise Prep.KeyError.
Proof.
  induction d as [|[k' v'] d IH]; intros Hk; simpl; [reflexivity|].
  simpl in Hk. apply not_elem_of_cons in Hk. destruct Hk as [Hne Hk].
  rewrite key_eqb_neq by congruence. apply IH. exact Hk.
Qed.

Lemma dict_getitem_elem (d : list (Prep.key * V)) (k : Prep.key) (v : V) :
  NoDup (Prep.dict_keys d) -> (k, v) ∈ d -> Prep.dict_getitem d k = Prep.Ok v.
Proof.
  induction d as [|[k' v'] d IH]; intros Hnodup Hin.
  - apply elem_of_nil in Hin. contradiction.
  - simpl in Hnodup. apply NoDup_cons in Hnodup. destruct Hnodup as [Hk' Hnodup].
    apply elem_of_cons in Hin. simpl. destruct Hin as [Heq|Hin].
    + injection Heq as -> ->. rewrite key_eqb_refl. reflexivity.
    + rewrite key_eqb_neq; [apply IH; assumption|].
      intros ->. apply Hk'. unfold Prep.dict_keys.
      apply list_elem_of_In, in_map_iff. exists (k, v).
      split; [reflexivity | apply list_elem_of_In; exact Hin].
Qed.

Lemma dict_getitem_Ok (d : list (Prep.key * V)) (k : Prep.key) (v : V) :
  Prep.dict_getitem d k = Prep.Ok v -> (k, v) ∈ d.
Proof.
  induction d as [|[k' v'] d IH]; simpl; [discriminate|].
  destruct (Prep.key_eqb k' k) eqn:E.
  - intros Hv. injection Hv as ->. apply key_eqb_eq in E. subst. left.
  - intros Hv. right. apply IH. exact Hv.
Qed.

(** A lookup returns a value or raises KeyError, nothing else. *)
Lemma dict_getitem_cases (d : list (Prep.key * V)) (k : Prep.key) :
  (exists v, Prep.dict_getitem d k = Prep.Ok v /\ k ∈ Prep.dict_keys d) \/
  (Prep.dict_getitem d k = Prep.Raise Prep.KeyError /\ k ∉ Prep.dict_keys d).
Proof.
  induction d as [|[k' v'] d IH]; simpl.
  - right. split; [reflexivity | apply not_elem_of_nil].
  - destruct (Prep.key_eqb k' k) eqn:E.
    + left. exists v'. split; [reflexivity|]. apply key_eqb_eq in E. subst. left.
    + destruct IH as [(v & Hv & Hin)|[Hraise Hnot]].
      * left. exists v. split; [exact Hv | right; exact Hin].
      * right. split; [exact Hraise|]. apply not_elem_of_cons. split; [|exact Hnot].
        intros ->. rewrite key_eqb_refl in E. discriminate.
Qed.

Lemma dict_update_fresh (d : list (Prep.key * V)) (k : Prep.key) (v : V) :
  k ∉ Prep.dict_keys d -> Prep.dict_update d k v = d ++ [(k, v)].
Proof.
  induction d as [|[k' v'] d IH]; intros Hk; simpl; [reflexivity|].
  simpl in Hk. apply not_elem_of_cons in Hk. destruct Hk as [Hne Hk].
  rewrite key_eqb_neq by congruence. rewrite IH by exact Hk. reflexivity.
Qed.

(** A loop of updates over bindings with fresh, distinct keys appends them. *)
Lemma fold_update_fresh {W : Type} (g : Prep.key * W -> V) (l : list (Prep.key * W))
    (acc : list (Prep.key * V)) :
  NoDup (Prep.dict_keys acc ++ map fst l) ->
  fold_left (fun d kv => Prep.dict_update d (fst kv) (g kv)) l acc
  = acc ++ map (fun kv => (fst kv, g kv)) l.
Proof.
  revert acc. induction l as [|[k w] l IH]; intros acc Hnodup; simpl.
  - rewrite app_nil_r. reflexivity.
  - assert (Hk : k ∉ Prep.dict_keys acc).
    { apply NoDup_app in Hnodup. destruct Hnodup as (_ & Hdisj & _).
      intros Hin. apply (Hdisj k Hin). left. }
    rewrite dict_update_fresh by exact Hk.
    rewrite IH.
    + rewrite <- app_assoc. reflexivity.
    + unfold Prep.dict_keys. rewrite map_app. simpl.
      rewrite <- app_assoc. exact Hnodup.
Qed.

Lemma for_each_update_fresh (Xd l acc : list (Prep.key * V)) :
  (forall k v, (k, v) ∈ l -> Prep.dict_getitem Xd k = Prep.Ok v) ->
  NoDup (Prep.dict_keys acc ++ Prep.dict_keys l) ->
  Prep.for_each (Prep.dict_keys l)
    (fun key d => Prep.bind (Prep.dict_getitem Xd key)
                    (fun v => Prep.Ok (Prep.dict_update d key v))) acc
  = Prep.Ok (acc ++ l).
Proof.
  revert acc. induction l as [|[k v] l IH]; intros acc Hget Hnodup; simpl.
  - rewrite app_nil_r. reflexivity.
  - rewrite (Hget k v) by left. simpl.
    assert (Hk : k ∉ Prep.dict_keys acc).
    { apply NoDup_app in Hnodup. destruct Hnodup as (_ & Hdisj & _).
      intros Hin. apply (Hdisj k Hin). left. }
    rewrite dict_update_fresh by exact Hk.
    rewrite IH.
    + rewrite <- app_assoc. reflexivity.
    + intros k' v' Hin. apply Hget. right. exact Hin.
    + unfold Prep.dict_keys in *. rewrite map_app. simpl.
      rewrite <- app_assoc. exact Hnodup.
Qed.

Lemma filter_map_fst (p : Prep.key -> bool) (d : list (Prep.key * V)) :
  List.filter p (map fst d) = map fst (List.filter (fun kv => p (fst kv)) d).
Proof.
  induction d as [|[k v] d IH]; simpl; [reflexivity|].
  destruct (p k); simpl; rewrite IH; reflexivity.
Qed.

Lemma NoDup_filter_keys (p : Prep.key * V -> bool) (d : list (Prep.key * V)) :
  NoDup (Prep.dict_keys d) -> NoDup (Prep.dict_keys (List.filter p d)).
Proof.
  unfold Prep.dict_keys. induction d as [|[k v] d IH]; simpl; intros Hnodup.
  - constructor.
  - apply NoDup_cons in Hnodup. destruct Hnodup as [Hk Hnodup].
    destruct (p (k, v)); simpl; [|apply IH; exact Hnodup].
    apply NoDup_cons. split; [|apply IH; exact Hnodup].
    intros Hin. apply Hk.
    apply list_elem_of_In, in_map_iff in Hin. destruct Hin as (kv & Hfst & Hin).
    apply filter_In in Hin. destruct Hin as [Hin _].
    apply list_elem_of_In, in_map_iff. exists kv. split; assumption.
Qed.

(** Membership in [keys_to_rmv], for a key of the dictionary. *)
Lemma in_keys_to_rmv (Xd : list (Prep.key * V)) (k : Prep.key) :
  In k (Prep.dict_keys Xd) ->
  existsb (Prep.key_eqb k) (Prep.keys_to_rmv Xd)
  = existsb (String.eqb (fst k)) Prep.mods_to_rmv.
Proof.
  intros Hk. unfold Prep.keys_to_rmv.
  destruct (existsb (String.eqb (fst k)) Prep.mods_to_rmv) eqn:Hp.
  - apply existsb_exists. exists k. split; [|apply key_eqb_refl].
    apply filter_In. split; assumption.
  - destruct (existsb (Prep.key_eqb k) _) eqn:He; [|reflexivity].
    apply existsb_exists in He. destruct He as (k' & Hin & Heq).
    apply key_eqb_eq in Heq. subst k'.
    apply filter_In in Hin. destruct Hin as [_ Hp']. congruence.
Qed.

(** X2: on a dictionary (distinct keys) the comprehension of cell 2 never
    raises; it keeps, in their order and with their arrays, exactly the
    bindings whose modulation is none of AM-DSB, AM-SSB and WBFM. *)
Theorem Xd_digital_keeps_digital (Xd : list (Prep.key * V)) :
  NoDup (Prep.dict_keys Xd) ->
  Prep.Xd_digital Xd
  = Prep.Ok (List.filter
               (fun kv => negb (existsb (String.eqb (fst (fst kv))) Prep.mods_to_rmv))
               Xd) /\
  (forall d, Prep.Xd_digital Xd = Prep.Ok d ->
     forall k v, (k, v) ∈ d <->
       (k, v) ∈ Xd /\ fst k <> "AM-DSB"%string /\ fst k <> "AM-SSB"%string
       /\ fst k <> "WBFM"%string).
Proof.
  intros Hnodup.
  assert (Heq : Prep.Xd_digital Xd
    = Prep.Ok (List.filter
         (fun kv => negb (existsb (String.eqb (fst (fst kv))) Prep.mods_to_rmv)) Xd)).
  { unfold Prep.Xd_digital.
    unfold Prep.dict_keys at 1. rewrite filter_map_fst.
    rewrite (filter_ext_in
      (fun kv => negb (existsb (Prep.key_eqb (fst kv)) (Prep.keys_to_rmv Xd)))
      (fun kv => negb (existsb (String.eqb (fst (fst kv))) Prep.mods_to_rmv))).
    - apply (for_each_update_fresh Xd _ []).
      + intros k v Hin. apply dict_getitem_elem; [exact Hnodup|].
        apply list_elem_of_In, filter_In in Hin. apply list_elem_of_In. tauto.
      + simpl. apply NoDup_filter_keys. exact Hnodup.
    - intros kv Hin. rewrite in_keys_to_rmv; [reflexivity|].
      unfold Prep.dict_keys. apply in_map. exact Hin. }
  split; [exact Heq|].
  intros d Hd k v. rewrite Heq in Hd. injection Hd as <-.
  rewrite list_elem_of_In, filter_In, <- list_elem_of_In. simpl.
  rewrite orb_false_r, !negb_orb, !andb_true_iff, !negb_true_iff.
  rewrite !String.eqb_neq. tauto.
Qed.

End DictFacts.

(** ** Cell 4: the split *)

Section SplitFacts.
Context {A : Type}.

Lemma dict_keys_map_values {V W : Type} (g : Prep.key * V -> W) (d : list (Prep.key * V)) :
  Prep.dict_keys (map (fun kv => (fst kv, g kv)) d) = Prep.dict_keys d.
Proof. unfold Prep.dict_keys. rewrite map_map. reflexivity. Qed.

Lemma Xd_shuffled_map (shuffle : Prep.array A -> Prep.array A)
    (Xd : list (Prep.key * Prep.array A)) :
  NoDup (Prep.dict_keys Xd) ->
  Prep.Xd_shuffled shuffle Xd = map (fun kv => (fst kv, shuffle (snd kv))) Xd.
Proof.
  intros Hnodup. unfold Prep.Xd_shuffled.
  exact (fold_update_fresh (fun kv => shuffle (snd kv)) Xd [] Hnodup).
Qed.

Lemma dict_test_map (S : list (Prep.key * Prep.array A)) :
  NoDup (Prep.dict_keys S) ->
  Prep.dict_test S
  = map (fun kv => (fst kv, Prep.slice_to (Prep.half (Prep.shape0 (snd kv))) (snd kv))) S.
Proof.
  intros Hnodup. unfold Prep.dict_test.
  exact (fold_update_fresh
    (fun kv => Prep.slice_to (Prep.half (Prep.shape0 (snd kv))) (snd kv)) S [] Hnodup).
Qed.

Lemma dict_train_map (S : list (Prep.key * Prep.array A)) :
  NoDup (Prep.dict_keys S) ->
  Prep.dict_train S
  = map (fun kv => (fst kv, Prep.slice_from (Prep.half (Prep.shape0 (snd kv))) (snd kv))) S.
Proof.
  intros Hnodup. unfold Prep.dict_train.
  exact (fold_update_fresh
    (fun kv => Prep.slice_from (Prep.half (Prep.shape0 (snd kv))) (snd kv)) S [] Hnodup).
Qed.

Lemma elem_of_map_values {V W : Type} (g : Prep.key * V -> W) (d : list (Prep.key * V))
    (k : Prep.key) (v : V) :
  (k, v) ∈ d -> (k, g (k, v)) ∈ map (fun kv => (fst kv, g kv)) d.
Proof.
  intros Hin. apply list_elem_of_In, in_map_iff. exists (k, v).
  split; [reflexivity | apply list_elem_of_In; exact Hin].
Qed.

(** X3: cell 4 keeps the keys and their order in the test and in the
    training dictionary; under each key the test array is the first
    floor(n/2) rows of the shuffled array and the training array the other
    n - floor(n/2) rows, so that the two together hold every sample of the
    key exactly once. *)
Theorem train_test_split (shuffle : Prep.array A -> Prep.array A)
    (Xd : list (Prep.key * Prep.array A)) :
  NoDup (Prep.dict_keys Xd) ->
  (forall v, Prep.inner (shuffle v) = Prep.inner v /\
             Prep.rows (shuffle v) ≡ₚ Prep.rows v) ->
  Prep.dict_keys (Prep.dict_test (Prep.Xd_shuffled shuffle Xd)) = Prep.dict_keys Xd /\
  Prep.dict_keys (Prep.dict_train (Prep.Xd_shuffled shuffle Xd)) = Prep.dict_keys Xd /\
  forall k v, (k, v) ∈ Xd ->
    exists te tr,
      Prep.dict_getitem (Prep.dict_test (Prep.Xd_shuffled shuffle Xd)) k = Prep.Ok te /\
      Prep.dict_getitem (Prep.dict_train (Prep.Xd_shuffled shuffle Xd)) k = Prep.Ok tr /\
      Prep.rows te ++ Prep.rows tr = Prep.rows (shuffle v) /\
      Prep.rows te ++ Prep.rows tr ≡ₚ Prep.rows v /\
      Prep.shape0 te = Prep.shape0 v / 2 /\
      Prep.shape0 tr = Prep.shape0 v - Prep.shape0 v / 2 /\
      Prep.inner te = Prep.inner v /\ Prep.inner tr = Prep.inner v.
Proof.
  intros Hnodup Hshuffle.
  rewrite (Xd_shuffled_map shuffle Xd Hnodup).
  set (S := map (fun kv => (fst kv, shuffle (snd kv))) Xd).
  assert (HS : NoDup (Prep.dict_keys S)).
  { unfold S. rewrite (dict_keys_map_values (fun kv => shuffle (snd kv))).
    exact Hnodup. }
  assert (HkS : Prep.dict_keys S = Prep.dict_keys Xd).
  { unfold S. apply (dict_keys_map_values (fun kv => shuffle (snd kv))). }
  rewrite (dict_test_map S HS), (dict_train_map S HS).
  rewrite !dict_keys_map_values.
  split; [exact HkS|]. split; [exact HkS|].
  intros k v Hin.
  assert (HinS : (k, shuffle v) ∈ S).
  { unfold S. exact (elem_of_map_values (fun kv => shuffle (snd kv)) Xd k v Hin). }
  destruct (Hshuffle v) as [Hinner Hperm].
  assert (Hlen : Prep.shape0 (shuffle v) = Prep.shape0 v).
  { unfold Prep.shape0. apply Permutation_length. exact Hperm. }
  exists (Prep.slice_to (Prep.half (Prep.shape0 (shuffle v))) (shuffle v)),
         (Prep.slice_from (Prep.half (Prep.shape0 (shuffle v))) (shuffle v)).
  split.
  { apply dict_getitem_elem; [rewrite dict_keys_map_values; exact HS|].
    exact (elem_of_map_values
      (fun kv => Prep.slice_to (Prep.half (Prep.shape0 (snd kv))) (snd kv))
      S k (shuffle v) HinS). }
  split.
  { apply dict_getitem_elem; [rewrite dict_keys_map_values; exact HS|].
    exact (elem_of_map_values
      (fun kv => Prep.slice_from (Prep.half (Prep.shape0 (snd kv))) (snd kv))
      S k (shuffle v) HinS). }
  unfold Prep.slice_to, Prep.slice_from. cbn [Prep.rows Prep.inner].
  rewrite take_drop.
  split; [reflexivity|]. split; [exact Hperm|].
  unfold Prep.shape0 in *. cbn [Prep.rows].
  rewrite length_take, length_drop, Hlen. unfold Prep.half.
  assert (Hhalf : length (Prep.rows v) / 2 <= length (Prep.rows v)).
  { apply Nat.Div0.div_le_upper_bound. lia. }
  split; [lia|]. split; [reflexivity|]. split; exact Hinner.
Qed.

End SplitFacts.

(** ** Cell 5: the training batch *)

Lemma for_each_app {I St : Type} (l1 l2 : list I)
    (body : I -> St -> Prep.result St) (s : St) :
  Prep.for_each (l1 ++ l2) body s
  = Prep.bind (Prep.for_each l1 body s) (Prep.for_each l2 body).
Proof.
  revert s. induction l1 as [|i l1 IH]; intros s; simpl; [reflexivity|].
  destruct (body i s) as [s'|e]; simpl; [apply IH | reflexivity].
Qed.

Lemma for_each_map {I J St : Type} (f : I -> J) (l : list I)
    (body : J -> St -> Prep.result St) (s : St) :
  Prep.for_each (map f l) body s = Prep.for_each l (fun i => body (f i)) s.
Proof.
  revert s. induction l as [|i l IH]; intros s; simpl; [reflexivity|].
  destruct (body (f i) s) as [s'|e]; simpl; [apply IH | reflexivity].
Qed.

(** Two nested loops are one loop over the pairs, the outer index first. *)
Lemma for_each_nested {I J St : Type} (l1 : list I) (l2 : list J)
    (body : I * J -> St -> Prep.result St) (s : St) :
  Prep.for_each l1 (fun i st => Prep.for_each l2 (fun j st' => body (i, j) st') st) s
  = Prep.for_each (list_prod l1 l2) body s.
Proof.
  revert s. induction l1 as [|i l1 IH]; intros s; simpl; [reflexivity|].
  rewrite for_each_app, for_each_map.
  destruct (Prep.for_each l2 (fun j => body (i, j)) s) as [s'|e]; simpl;
    [apply IH | reflexivity].
Qed.

Lemma append_labels_replicate {L : Type} (labels : list L) (n : nat) (label : L) :
  Prep.append_labels labels n label = labels ++ replicate n label.
Proof.
  unfold Prep.append_labels. generalize 0 as a. revert labels.
  induction n as [|n IH]; intros labels a; simpl.
  - rewrite app_nil_r. reflexivity.
  - rewrite IH, <- app_assoc. reflexivity.
Qed.

Lemma traverse_total {A B : Type} (f : A -> Prep.result B) (l : list A) :
  (forall x, x ∈ l -> exists y, f x = Prep.Ok y) ->
  exists ys, Prep.traverse f l = Prep.Ok ys /\
             Forall2 (fun x y => f x = Prep.Ok y) l ys.
Proof.
  induction l as [|x l IH]; intros Hf; simpl.
  - exists []. split; [reflexivity | constructor].
  - destruct (Hf x) as [y Hy]; [left|].
    destruct IH as (ys & Hys & Hall); [intros z Hz; apply Hf; right; exact Hz|].
    exists (y :: ys). rewrite Hy. simpl. rewrite Hys. simpl.
    split; [reflexivity | constructor; assumption].
Qed.

Lemma zip_replicate {A B : Type} (l : list A) (c : B) :
  zip l (replicate (length l) c) = map (fun r => (r, c)) l.
Proof. induction l as [|x l IH]; simpl; [reflexivity|]. rewrite IH. reflexivity. Qed.

Lemma map_const_replicate {A B : Type} (c : B) (l : list A) :
  map (fun _ => c) l = replicate (length l) c.
Proof. induction l as [|x l IH]; simpl; [reflexivity|]. rewrite IH. reflexivity. Qed.

Section TrainingFacts.
Context {A : Type}.

(** The body of the two loops of cell 5, on a pair of a modulation and an
    SNR. *)
Lemma training_loop_ok (d : list (Prep.key * Prep.array A))
    (combos : list (string * Z)) (vs : list (Prep.array A))
    (X0 : list (Prep.array A)) (L0 : list (string * Z)) :
  Forall2 (fun c v => Prep.dict_getitem d c = Prep.Ok v) combos vs ->
  Prep.for_each combos
    (fun c st =>
       Prep.bind (Prep.dict_getitem d c) (fun v =>
       Prep.bind (Prep.dict_getitem d c) (fun v' =>
       Prep.Ok (fst st ++ [v], Prep.append_labels (snd st) (Prep.shape0 v') c))))
    (X0, L0)
  = Prep.Ok (X0 ++ vs,
             L0 ++ concat (zip_with (fun c v => replicate (Prep.shape0 v) c) combos vs)).
Proof.
  intros Hall. revert X0 L0.
  induction Hall as [|c v combos vs Hc _ IH]; intros X0 L0; simpl.
  - rewrite !app_nil_r. reflexivity.
  - rewrite Hc. simpl. rewrite append_labels_replicate, IH.
    rewrite <- !app_assoc. reflexivity.
Qed.

Lemma training_loop_KeyError (d : list (Prep.key * Prep.array A))
    (combos : list Prep.key) (st : list (Prep.array A) * list Prep.key) :
  (exists c, c ∈ combos /\ c ∉ Prep.dict_keys d) ->
  Prep.for_each combos
    (fun c st =>
       Prep.bind (Prep.dict_getitem d c) (fun v =>
       Prep.bind (Prep.dict_getitem d c) (fun v' =>
       Prep.Ok (fst st ++ [v], Prep.append_labels (snd st) (Prep.shape0 v') c))))
    st
  = Prep.Raise Prep.KeyError.
Proof.
  revert st. induction combos as [|c combos IH]; intros st (c0 & Hin & Hmiss).
  - apply elem_of_nil in Hin. contradiction.
  - simpl. destruct (dict_getitem_cases d c) as [(v & Hv & _)|[Hraise _]].
    + rewrite Hv. simpl. apply IH. exists c0. split; [|exact Hmiss].
      apply elem_of_cons in Hin. destruct Hin as [->|Hin]; [|exact Hin].
      rewrite (dict_getitem_absent d c Hmiss) in Hv. discriminate.
    + rewrite Hraise. reflexivity.
Qed.

Lemma grid_values (d : list (Prep.key * Prep.array A)) (combos : list Prep.key) :
  (forall c, c ∈ combos -> c ∈ Prep.dict_keys d) ->
  exists vs, Forall2 (fun c v => Prep.dict_getitem d c = Prep.Ok v) combos vs.
Proof.
  induction combos as [|c combos IH]; intros Hgrid.
  - exists []. constructor.
  - destruct IH as [vs Hvs]; [intros c' Hc'; apply Hgrid; right; exact Hc'|].
    destruct (dict_getitem_cases d c) as [(v & Hv & _)|[_ Hmiss]].
    + exists (v :: vs). constructor; assumption.
    + exfalso. apply Hmiss, Hgrid. left.
Qed.

Lemma grid_values_cases (d : list (Prep.key * Prep.array A)) (combos : list Prep.key) :
  (exists vs, Forall2 (fun c v => Prep.dict_getitem d c = Prep.Ok v) combos vs) \/
  (exists c, c ∈ combos /\ c ∉ Prep.dict_keys d).
Proof.
  induction combos as [|c combos IH].
  - left. exists []. constructor.
  - destruct (dict_getitem_cases d c) as [(v & Hv & _)|[_ Hmiss]].
    + destruct IH as [[vs Hvs]|(c' & Hin & Hmiss)].
      * left. exists (v :: vs). constructor; assumption.
      * right. exists c'. split; [right|]; assumption.
    + right. exists c. split; [left | exact Hmiss].
Qed.

Lemma np_vstack_cases (l : list (Prep.array A)) :
  Prep.np_vstack l = Prep.Raise Prep.ValueError \/
  exists X, Prep.np_vstack l = Prep.Ok X /\
            Prep.rows X = concat (map Prep.rows l) /\ l <> [].
Proof.
  unfold Prep.np_vstack. destruct l as [|v rest]; [left; reflexivity|].
  destruct (forallb _ rest); [|left; reflexivity].
  right. eexists. split; [reflexivity|]. split; [reflexivity | discriminate].
Qed.

Lemma length_label_blocks {K : Type} (combos : list K) (vs : list (Prep.array A)) :
  length combos = length vs ->
  length (concat (zip_with (fun c v => replicate (Prep.shape0 v) c) combos vs))
  = length (concat (map Prep.rows vs)).
Proof.
  revert vs. induction combos as [|c combos IH]; intros [|v vs] Hlen;
    simpl in *; try discriminate; [reflexivity|].
  rewrite !length_app, length_replicate, IH by congruence. reflexivity.
Qed.

Lemma zip_label_blocks {K : Type} (combos : list K) (vs : list (Prep.array A)) :
  length combos = length vs ->
  zip (concat (map Prep.rows vs))
      (concat (zip_with (fun c v => replicate (Prep.shape0 v) c) combos vs))
  = concat (zip_with (fun c v => map (fun r => (r, c)) (Prep.rows v)) combos vs).
Proof.
  revert vs. induction combos as [|c combos IH]; intros [|v vs] Hlen;
    try discriminate; [reflexivity|].
  cbn [map zip_with concat].
  rewrite zip_with_app by (rewrite length_replicate; reflexivity).
  rewrite IH by (simpl in Hlen; congruence). f_equal. apply zip_replicate.
Qed.

Lemma elem_of_label_blocks {K : Type} (combos : list K) (vs : list (Prep.array A))
    (lab : K) :
  lab ∈ concat (zip_with (fun c v => replicate (Prep.shape0 v) c) combos vs) ->
  lab ∈ combos.
Proof.
  revert vs. induction combos as [|c combos IH]; intros [|v vs]; simpl;
    try (intros Hin; apply elem_of_nil in Hin; contradiction).
  intros Hin. apply elem_of_app in Hin. destruct Hin as [Hin|Hin].
  - apply elem_of_replicate in Hin. destruct Hin as [-> _]. left.
  - right. exact (IH vs Hin).
Qed.

(** What [training_set] does once every pair of a modulation and an SNR
    is a key. *)
Lemma training_set_grid (d : list (Prep.key * Prep.array A))
    (vs : list (Prep.array A)) :
  Forall2 (fun c v => Prep.dict_getitem d c = Prep.Ok v)
          (list_prod (Prep.mods_of d) (Prep.snrs_of d)) vs ->
  (Prep.np_vstack vs = Prep.Raise Prep.ValueError /\
   Prep.training_set d = Prep.Raise Prep.ValueError) \/
  (exists X y,
     Prep.np_vstack vs = Prep.Ok X /\
     Prep.training_set d = Prep.Ok (X, y) /\
     Forall2 (fun label j => Prep.mods_of d !! j = Some (fst label))
       (concat (zip_with (fun c v => replicate (Prep.shape0 v) c)
                  (list_prod (Prep.mods_of d) (Prep.snrs_of d)) vs)) y).
Proof.
  intros Hvs. unfold Prep.training_set. cbv zeta.
  rewrite (for_each_nested (Prep.mods_of d) (Prep.snrs_of d)
    (fun c st =>
       Prep.bind (Prep.dict_getitem d c) (fun v =>
       Prep.bind (Prep.dict_getitem d c) (fun v' =>
       Prep.Ok (fst st ++ [v], Prep.append_labels (snd st) (Prep.shape0 v') c))))).
  rewrite (training_loop_ok d _ vs [] [] Hvs). cbn [Prep.bind fst snd app].
  set (combos := list_prod (Prep.mods_of d) (Prep.snrs_of d)) in *.
  set (labels := concat (zip_with (fun c v => replicate (Prep.shape0 v) c) combos vs)).
  destruct (np_vstack_cases vs) as [Hraise|(X & HX & Hrows & _)].
  - left. rewrite Hraise. split; reflexivity.
  - right. rewrite HX. cbn [Prep.bind].
    assert (Hlen : length labels = Prep.shape0 X).
    { unfold labels, Prep.shape0. rewrite Hrows. apply length_label_blocks.
      exact (Forall2_length _ _ _ Hvs). }
    destruct (traverse_total
      (fun x => Prep.bind (Prep.list_getitem labels x)
                  (fun label => Prep.list_index String.eqb (Prep.mods_of d) (fst label)))
      (seq 0 (Prep.shape0 X))) as (y & Hy & Hall).
    { intros x Hx. apply elem_of_seq in Hx.
      destruct (lookup_lt_is_Some_2 labels x) as [lab Hlab]; [lia|].
      unfold Prep.list_getitem. rewrite Hlab. cbn [Prep.bind].
      apply list_index_present; [apply String_eqb_spec|].
      assert (Hin : lab ∈ combos).
      { apply (elem_of_label_blocks combos vs). apply list_elem_of_lookup. eauto. }
      destruct lab as [m s]. unfold combos in Hin.
      apply list_elem_of_In, in_prod_iff in Hin. destruct Hin as [Hm _].
      apply list_elem_of_In. exact Hm. }
    exists X, y. rewrite Hy. cbn [Prep.bind].
    split; [reflexivity|]. split; [reflexivity|].
    apply Forall2_same_length_lookup. split.
    + rewrite Hlen, <- (Forall2_length _ _ _ Hall), length_seq. reflexivity.
    + intros i lab j Hlab Hj.
      assert (Hi : i < Prep.shape0 X).
      { rewrite <- Hlen. apply lookup_lt_is_Some_1. eauto. }
      rewrite Forall2_lookup in Hall. specialize (Hall i).
      rewrite lookup_seq_lt, Hj in Hall by exact Hi. inversion Hall as [? ? Hf|]; subst.
      simpl in Hf. unfold Prep.list_getitem in Hf. rewrite Hlab in Hf.
      cbn [Prep.bind] in Hf.
      exact (list_index_lookup String.eqb _ _ _ String_eqb_spec Hf).
Qed.

End TrainingFacts.

Section TrainingTheorems.
Context {A : Type}.

Lemma np_vstack_ValueError (l : list (Prep.array A)) :
  Prep.np_vstack l = Prep.Raise Prep.ValueError <->
  l = [] \/ exists v w, v ∈ l /\ w ∈ l /\ Prep.inner v <> Prep.inner w.
Proof.
  assert (Heqb : forall s s', Prep.inner_eqb s s' = true <-> s = s').
  { intros [a b] [a' b']. unfold Prep.inner_eqb. simpl.
    rewrite andb_true_iff, !Nat.eqb_eq. split; [intros [-> ->]; reflexivity|].
    intros Heq. injection Heq as -> ->. split; reflexivity. }
  unfold Prep.np_vstack. destruct l as [|v rest].
  - split; [left; reflexivity | reflexivity].
  - destruct (forallb _ rest) eqn:Hall.
    + split; [discriminate|]. intros [Hnil|(a & b & Ha & Hb & Hne)]; [discriminate|].
      exfalso. apply Hne. rewrite forallb_forall in Hall.
      assert (Hv : forall w, w ∈ v :: rest -> Prep.inner w = Prep.inner v).
      { intros w Hw. apply elem_of_cons in Hw. destruct Hw as [->|Hw]; [reflexivity|].
        apply Heqb, Hall, list_elem_of_In, Hw. }
      rewrite (Hv a Ha), (Hv b Hb). reflexivity.
    + split; [|reflexivity]. intros _. right.
      assert (Hw : exists w, w ∈ rest /\ Prep.inner w <> Prep.inner v).
      { clear -Hall Heqb. induction rest as [|w rest IH]; [discriminate|].
        simpl in Hall. apply andb_false_iff in Hall. destruct Hall as [Hw|Hrest].
        - exists w. split; [left|]. intros Heq. apply Heqb in Heq. congruence.
        - destruct (IH Hrest) as (w' & Hin & Hne). exists w'. split; [right|]; assumption. }
      destruct Hw as (w & Hin & Hne).
      exists w, v. split; [right; exact Hin|]. split; [left | exact Hne].
Qed.

Lemma np_vstack_uniform (l : list (Prep.array A)) (sh : nat * nat) :
  l <> [] -> Forall (fun v => Prep.inner v = sh) l ->
  Prep.np_vstack l
  = Prep.Ok {| Prep.rows := concat (map Prep.rows l); Prep.inner := sh |}.
Proof.
  intros Hne Hall. destruct l as [|v rest]; [contradiction|].
  apply Forall_cons in Hall. destruct Hall as [Hv Hrest].
  unfold Prep.np_vstack. replace (forallb _ rest) with true; [rewrite Hv; reflexivity|].
  symmetry. apply forallb_forall. intros w Hw.
  rewrite Forall_forall in Hrest. rewrite (Hrest w), Hv by (apply list_elem_of_In, Hw).
  unfold Prep.inner_eqb. rewrite !Nat.eqb_refl. reflexivity.
Qed.

Lemma tagged_rows {K : Type} (combos : list K) (vs : list (Prep.array A)) :
  length combos = length vs ->
  map fst (concat (zip_with (fun c v => map (fun r => (r, c)) (Prep.rows v)) combos vs))
  = concat (map Prep.rows vs) /\
  map snd (concat (zip_with (fun c v => map (fun r => (r, c)) (Prep.rows v)) combos vs))
  = concat (zip_with (fun c v => replicate (Prep.shape0 v) c) combos vs).
Proof.
  revert vs. induction combos as [|c combos IH]; intros [|v vs] Hlen;
    try discriminate; [split; reflexivity|].
  cbn [map zip_with concat]. rewrite !map_app, !map_map. cbn [fst snd].
  destruct (IH vs) as [-> ->]; [simpl in Hlen; congruence|].
  rewrite map_id. split; [reflexivity|]. f_equal.
  apply map_const_replicate.
Qed.

Lemma mods_snrs_nonempty {V : Type} (d : list (Prep.key * V)) :
  d <> [] -> list_prod (Prep.mods_of d) (Prep.snrs_of d) <> [].
Proof.
  destruct d as [|[[m s] v] d]; [contradiction|]. intros _.
  set (l := list_prod _ _).
  assert (Hin : (m, s) ∈ l).
  { apply list_elem_of_In, in_prod_iff. split; apply list_elem_of_In.
    - apply elem_of_mods_of. exists s. left.
    - apply elem_of_snrs_of. exists m. left. }
  intros Hnil. rewrite Hnil in Hin. apply elem_of_nil in Hin. exact Hin.
Qed.

(** X4: when the dictionary is not empty, holds every pair of one of its
    modulations and one of its SNRs, and its arrays have one sample shape,
    cell 5 succeeds.  X_train holds the samples of the arrays in the order
    of the two loops (modulations outermost, both in increasing order), and
    y_train holds, at the position of each sample, the index in [mods] of
    the modulation of the key the sample was stored under. *)
Theorem training_set_aligned (d : list (Prep.key * Prep.array A)) (sh : nat * nat) :
  d <> [] ->
  (forall m s, m ∈ Prep.mods_of d -> s ∈ Prep.snrs_of d -> (m, s) ∈ Prep.dict_keys d) ->
  Forall (fun kv => Prep.inner (snd kv) = sh) d ->
  exists X y vs,
    Prep.training_set d = Prep.Ok (X, y) /\
    Forall2 (fun c v => Prep.dict_getitem d c = Prep.Ok v)
            (list_prod (Prep.mods_of d) (Prep.snrs_of d)) vs /\
    Prep.inner X = sh /\
    let tagged :=
      concat (zip_with (fun c v => map (fun r => (r, c)) (Prep.rows v))
                (list_prod (Prep.mods_of d) (Prep.snrs_of d)) vs) in
    Prep.rows X = map fst tagged /\
    Forall2 (fun rc j => Prep.mods_of d !! j = Some (fst (snd rc))) tagged y.
Proof.
  intros Hne Hgrid Hshape.
  destruct (grid_values d (list_prod (Prep.mods_of d) (Prep.snrs_of d))) as [vs Hvs].
  { intros [m s] Hc. apply list_elem_of_In, in_prod_iff in Hc.
    apply Hgrid; apply list_elem_of_In; tauto. }
  assert (Hlen := Forall2_length _ _ _ Hvs).
  assert (Hvsne : vs <> []).
  { intros ->. apply (mods_snrs_nonempty d Hne).
    destruct (list_prod _ _); [reflexivity | discriminate]. }
  assert (Hvsh : Forall (fun v => Prep.inner v = sh) vs).
  { apply Forall_forall. intros v Hv.
    apply list_elem_of_lookup in Hv. destruct Hv as [i Hi].
    destruct (Forall2_lookup_r _ _ _ _ _ Hvs Hi) as (c & _ & Hc).
    apply dict_getitem_Ok in Hc. rewrite Forall_forall in Hshape.
    exact (Hshape _ Hc). }
  pose proof (np_vstack_uniform vs sh Hvsne Hvsh) as HX.
  destruct (training_set_grid d vs Hvs) as [[Hraise _]|(X & y & HX' & Hts & Hy)].
  { rewrite HX in Hraise. discriminate. }
  rewrite HX in HX'. injection HX' as <-.
  exists {| Prep.rows := concat (map Prep.rows vs); Prep.inner := sh |}, y, vs. split; [exact Hts|]. split; [exact Hvs|]. split; [reflexivity|].
  destruct (tagged_rows (list_prod (Prep.mods_of d) (Prep.snrs_of d)) vs Hlen)
    as [Hfst Hsnd].
  cbv zeta. cbn [Prep.rows]. split; [symmetry; exact Hfst|].
  rewrite <- Hsnd in Hy. apply Forall2_fmap_l in Hy. exact Hy.
Qed.

(** X5: the ways cell 5 fails.  It raises KeyError exactly when some pair
    of a modulation and an SNR of the dictionary is not one of its keys;
    otherwise it raises ValueError exactly when the dictionary is empty or
    two of the arrays it reads differ in their sample shape; it raises no
    IndexError. *)
Theorem training_set_errors (d : list (Prep.key * Prep.array A)) :
  (Prep.training_set d = Prep.Raise Prep.KeyError <->
   exists m s, m ∈ Prep.mods_of d /\ s ∈ Prep.snrs_of d /\ (m, s) ∉ Prep.dict_keys d) /\
  (Prep.training_set d = Prep.Raise Prep.ValueError <->
   (forall m s, m ∈ Prep.mods_of d -> s ∈ Prep.snrs_of d -> (m, s) ∈ Prep.dict_keys d) /\
   (d = [] \/
    exists c c' v v',
      c ∈ list_prod (Prep.mods_of d) (Prep.snrs_of d) /\
      c' ∈ list_prod (Prep.mods_of d) (Prep.snrs_of d) /\
      Prep.dict_getitem d c = Prep.Ok v /\ Prep.dict_getitem d c' = Prep.Ok v' /\
      Prep.inner v <> Prep.inner v')) /\
  Prep.training_set d <> Prep.Raise Prep.IndexError.
Proof.
  set (combos := list_prod (Prep.mods_of d) (Prep.snrs_of d)).
  assert (Hmissing : (exists m s, m ∈ Prep.mods_of d /\ s ∈ Prep.snrs_of d /\
                                  (m, s) ∉ Prep.dict_keys d) ->
                     Prep.training_set d = Prep.Raise Prep.KeyError).
  { intros (m & s & Hm & Hs & Hmiss). unfold Prep.training_set. cbv zeta.
    rewrite (for_each_nested (Prep.mods_of d) (Prep.snrs_of d)
      (fun c st =>
         Prep.bind (Prep.dict_getitem d c) (fun v =>
         Prep.bind (Prep.dict_getitem d c) (fun v' =>
         Prep.Ok (fst st ++ [v], Prep.append_labels (snd st) (Prep.shape0 v') c))))).
    rewrite training_loop_KeyError; [reflexivity|].
    exists (m, s). split; [|exact Hmiss].
    apply list_elem_of_In, in_prod_iff. split; apply list_elem_of_In; assumption. }
  destruct (grid_values_cases d combos) as [[vs Hvs]|([m s] & Hc & Hmiss)].
  2: { assert (Hex : exists m s, m ∈ Prep.mods_of d /\ s ∈ Prep.snrs_of d /\
                                 (m, s) ∉ Prep.dict_keys d).
       { exists m, s. apply list_elem_of_In, in_prod_iff in Hc.
         destruct Hc as [Hm Hs]. apply list_elem_of_In in Hm, Hs.
         split; [exact Hm|]. split; [exact Hs | exact Hmiss]. }
       rewrite (Hmissing Hex). split; [split; [intros _; exact Hex | reflexivity]|]. split; [|discriminate].
       split; [discriminate|]. intros [Hgrid _]. exfalso.
       destruct Hex as (m' & s' & Hm & Hs & Hmiss'). exact (Hmiss' (Hgrid m' s' Hm Hs)). }
  - assert (Hgrid : forall m s, m ∈ Prep.mods_of d -> s ∈ Prep.snrs_of d ->
                                (m, s) ∈ Prep.dict_keys d).
    { intros m s Hm Hs.
      assert (Hc : (m, s) ∈ combos).
      { apply list_elem_of_In, in_prod_iff. split; apply list_elem_of_In; assumption. }
      apply list_elem_of_lookup in Hc. destruct Hc as [i Hi].
      destruct (Forall2_lookup_l _ _ _ _ _ Hvs Hi) as (v & _ & Hv).
      apply dict_getitem_Ok in Hv. unfold Prep.dict_keys.
      apply list_elem_of_In, in_map_iff. exists ((m, s), v).
      split; [reflexivity | apply list_elem_of_In; exact Hv]. }
    assert (Hall : ~ exists m s, m ∈ Prep.mods_of d /\ s ∈ Prep.snrs_of d /\
                                 (m, s) ∉ Prep.dict_keys d).
    { intros (m & s & Hm & Hs & Hmiss). exact (Hmiss (Hgrid m s Hm Hs)). }
    assert (Hshapes : Prep.np_vstack vs = Prep.Raise Prep.ValueError <->
      d = [] \/
      exists c c' v v', c ∈ combos /\ c' ∈ combos /\
        Prep.dict_getitem d c = Prep.Ok v /\ Prep.dict_getitem d c' = Prep.Ok v' /\
        Prep.inner v <> Prep.inner v').
    { rewrite np_vstack_ValueError. split.
      - intros [->|(v & w & Hv & Hw & Hneq)].
        + left. destruct d as [|kv d]; [reflexivity|]. exfalso.
          apply (mods_snrs_nonempty (kv :: d)); [discriminate|].
          apply Forall2_length in Hvs. fold combos.
          destruct combos; [reflexivity | discriminate].
        + right. apply list_elem_of_lookup in Hv, Hw.
          destruct Hv as [i Hi], Hw as [j Hj].
          destruct (Forall2_lookup_r _ _ _ _ _ Hvs Hi) as (c & Hci & Hc).
          destruct (Forall2_lookup_r _ _ _ _ _ Hvs Hj) as (c' & Hcj & Hc').
          exists c, c', v, w.
          split; [apply list_elem_of_lookup; eauto|].
          split; [apply list_elem_of_lookup; eauto|]. tauto.
      - intros [->|(c & c' & v & v' & Hc & Hc' & Hv & Hv' & Hneq)].
        + left. inversion Hvs. reflexivity.
        + right. apply list_elem_of_lookup in Hc, Hc'.
          destruct Hc as [i Hi], Hc' as [j Hj].
          destruct (Forall2_lookup_l _ _ _ _ _ Hvs Hi) as (w & Hwi & Hw).
          destruct (Forall2_lookup_l _ _ _ _ _ Hvs Hj) as (w' & Hwj & Hw').
          rewrite Hv in Hw. rewrite Hv' in Hw'.
          injection Hw as <-. injection Hw' as <-.
          exists v, v'.
          split; [apply list_elem_of_lookup; eauto|].
          split; [apply list_elem_of_lookup; eauto | exact Hneq]. }
    destruct (training_set_grid d vs Hvs) as [[Hraise Hts]|(X & y & HX & Hts & _)];
      rewrite Hts.
    + split; [split; [discriminate | intros Hex; exfalso; exact (Hall Hex)]|].
      split; [|discriminate]. split; [|reflexivity].
      intros _. split; [exact Hgrid | apply Hshapes, Hraise].
    + split; [split; [discriminate | intros Hex; exfalso; exact (Hall Hex)]|].
      split; [|discriminate]. split; [discriminate|].
      intros [_ Hbad]. apply Hshapes in Hbad. rewrite HX in Hbad. discriminate.
Qed.

End TrainingTheorems.

(** ** Cell 8: the test batch of one SNR *)

Lemma list_index_cases {A : Type} (eqb : A -> A -> bool) (l : list A) (x : A) :
  (forall a b, eqb a b = true <-> a = b) ->
  (exists j, Prep.list_index eqb l x = Prep.Ok j /\ l !! j = Some x) \/
  (Prep.list_index eqb l x = Prep.Raise Prep.ValueError /\ x ∉ l).
Proof.
  intros Heqb. induction l as [|y l IH]; simpl.
  - right. split; [reflexivity | apply not_elem_of_nil].
  - destruct (eqb y x) eqn:Hyx.
    + left. exists 0. apply Heqb in Hyx. subst. split; reflexivity.
    + destruct IH as [(j & -> & Hj)|[-> Hx]]; simpl.
      * left. exists (S j). split; [reflexivity | exact Hj].
      * right. split; [reflexivity|]. apply not_elem_of_cons. split; [|exact Hx].
        intros ->. rewrite (proj2 (Heqb y y) eq_refl) in Hyx. discriminate.
Qed.

(** [map(lambda x: g(l[x]), range(len(l)))] is [map(g, l)]. *)
Lemma traverse_range {A B : Type} (f : nat -> Prep.result B) (g : A -> Prep.result B)
    (l : list A) (a : nat) :
  (forall i x, l !! i = Some x -> f (a + i) = g x) ->
  Prep.traverse f (seq a (length l)) = Prep.traverse g l.
Proof.
  revert a. induction l as [|x l IH]; intros a Hf; simpl; [reflexivity|].
  rewrite <- (Hf 0 x eq_refl), Nat.add_0_r.
  rewrite (IH (S a)); [reflexivity|].
  intros i y Hy. rewrite <- (Hf (S i) y Hy). f_equal. lia.
Qed.

Lemma traverse_index_cases (mods : list string) (labels : list string) :
  (exists y, Prep.traverse (Prep.list_index String.eqb mods) labels = Prep.Ok y /\
             Forall2 (fun s j => mods !! j = Some s) labels y) \/
  (Prep.traverse (Prep.list_index String.eqb mods) labels = Prep.Raise Prep.ValueError /\
   exists s, s ∈ labels /\ s ∉ mods).
Proof.
  induction labels as [|s labels IH]; simpl.
  - left. exists []. split; [reflexivity | constructor].
  - destruct (list_index_cases String.eqb mods s String_eqb_spec)
      as [(j & -> & Hj)|[-> Hs]]; simpl.
    + destruct IH as [(y & -> & Hy)|[-> (s' & Hin & Hs')]]; simpl.
      * left. exists (j :: y). split; [reflexivity | constructor; assumption].
      * right. split; [reflexivity|]. exists s'. split; [right|]; assumption.
    + right. split; [reflexivity|]. exists s. split; [left | exact Hs].
Qed.

Section TestFacts.
Context {A : Type}.

Lemma form_test_data_loop (d : list (Prep.key * Prep.array A)) (snr : Z)
    (X0 : list (Prep.array A)) (L0 : list string) :
  fold_left
    (fun st kv =>
       if Z.eqb (snd (fst kv)) snr
       then (fst st ++ [snd kv],
             Prep.append_labels (snd st) (Prep.shape0 (snd kv)) (fst (fst kv)))
       else st)
    d (X0, L0)
  = (X0 ++ map snd (List.filter (fun kv => Z.eqb (snd (fst kv)) snr) d),
     L0 ++ concat (map (fun kv => replicate (Prep.shape0 (snd kv)) (fst (fst kv)))
                     (List.filter (fun kv => Z.eqb (snd (fst kv)) snr) d))).
Proof.
  revert X0 L0. induction d as [|kv d IH]; intros X0 L0.
  - simpl. rewrite !app_nil_r. reflexivity.
  - cbn [fold_left List.filter].
    destruct (Z.eqb _ snr); cbn [map concat fst snd].
    + rewrite IH, append_labels_replicate, <- !app_assoc. reflexivity.
    + apply IH.
Qed.

Lemma length_test_labels (l : list (Prep.key * Prep.array A)) :
  length (concat (map (fun kv => replicate (Prep.shape0 (snd kv)) (fst (fst kv))) l))
  = length (concat (map Prep.rows (map snd l))).
Proof.
  induction l as [|kv l IH]; simpl; [reflexivity|].
  rewrite !length_app, length_replicate, IH. reflexivity.
Qed.

Lemma tagged_test_rows (l : list (Prep.key * Prep.array A)) :
  map fst (concat (map (fun kv => map (fun r => (r, fst (fst kv))) (Prep.rows (snd kv))) l))
  = concat (map Prep.rows (map snd l)) /\
  map snd (concat (map (fun kv => map (fun r => (r, fst (fst kv))) (Prep.rows (snd kv))) l))
  = concat (map (fun kv => replicate (Prep.shape0 (snd kv)) (fst (fst kv))) l).
Proof.
  induction l as [|kv l IH]; [split; reflexivity|].
  cbn [map concat]. rewrite !map_app.
  destruct IH as [-> ->]. rewrite !map_map. cbn [fst snd].
  rewrite map_id. split; [reflexivity|]. f_equal.
  apply map_const_replicate.
Qed.

(** The four ways a first call of [form_test_data] ends. *)
Lemma form_test_data_cases (d : list (Prep.key * Prep.array A)) (mods : list string)
    (snr : Z) :
  let matched := List.filter (fun kv => Z.eqb (snd (fst kv)) snr) d in
  let labels :=
    concat (map (fun kv => replicate (Prep.shape0 (snd kv)) (fst (fst kv))) matched) in
  (Prep.np_vstack (map snd matched) = Prep.Raise Prep.ValueError /\
   Prep.form_test_data d mods snr [] [] = Prep.Raise Prep.ValueError) \/
  (exists X, Prep.np_vstack (map snd matched) = Prep.Ok X /\
     ((labels = [] /\ Prep.form_test_data d mods snr [] [] = Prep.Raise Prep.ValueError) \/
      (labels <> [] /\ (exists s, s ∈ labels /\ s ∉ mods) /\
       Prep.form_test_data d mods snr [] [] = Prep.Raise Prep.ValueError) \/
      (labels <> [] /\
       exists y, Prep.form_test_data d mods snr [] [] = Prep.Ok (X, y) /\
                 Forall2 (fun s j => mods !! j = Some s) labels y))).
Proof.
  intros matched labels. unfold Prep.form_test_data. cbv zeta.
  rewrite (form_test_data_loop d snr [] []). cbn [fst snd app].
  fold matched. fold labels.
  destruct (np_vstack_cases (map snd matched)) as [Hraise|(X & HX & Hrows & _)].
  { left. rewrite Hraise. split; reflexivity. }
  right. exists X. rewrite HX. split; [reflexivity|]. cbn [Prep.bind].
  assert (Hn : Prep.shape0 X = length labels).
  { unfold Prep.shape0. rewrite Hrows. symmetry. apply length_test_labels. }
  rewrite Hn. clear Hn. clearbody labels.
  destruct labels as [|s0 labels].
  { left. split; reflexivity. }
  right. cbn [Prep.np_vstack_labels Prep.bind].
  rewrite (traverse_range _ (Prep.list_index String.eqb mods) (s0 :: labels) 0).
  2: { intros i s Hs. cbn [Nat.add]. unfold Prep.list_getitem.
       change (map (fun s => [s]) (s0 :: labels)) with ((fun s => [s]) <$> (s0 :: labels)).
       rewrite list_lookup_fmap, Hs. reflexivity. }
  destruct (traverse_index_cases mods (s0 :: labels)) as [(y & -> & Hy)|[-> Hs]].
  - right. split; [discriminate|]. exists y. split; [reflexivity | exact Hy].
  - left. split; [discriminate|]. split; [exact Hs | reflexivity].
Qed.

End TestFacts.

Section TestTheorems.
Context {A : Type}.

Lemma elem_of_matched (d : list (Prep.key * Prep.array A)) (snr : Z)
    (kv : Prep.key * Prep.array A) :
  kv ∈ List.filter (fun kv => Z.eqb (snd (fst kv)) snr) d <->
  kv ∈ d /\ snd (fst kv) = snr.
Proof.
  split.
  - intros Hin. apply list_elem_of_In, filter_In in Hin. destruct Hin as [Hin Heq].
    split; [apply list_elem_of_In; exact Hin | apply Z.eqb_eq; exact Heq].
  - intros [Hin Heq]. apply list_elem_of_In, filter_In.
    split; [apply list_elem_of_In; exact Hin | apply Z.eqb_eq; exact Heq].
Qed.

Lemma elem_of_test_labels (l : list (Prep.key * Prep.array A)) (s : string) :
  s ∈ concat (map (fun kv => replicate (Prep.shape0 (snd kv)) (fst (fst kv))) l) <->
  exists kv, kv ∈ l /\ Prep.rows (snd kv) <> [] /\ fst (fst kv) = s.
Proof.
  induction l as [|kv l IH]; cbn [map concat].
  - split; [intros H; apply elem_of_nil in H; contradiction|].
    intros (kv & H & _). apply elem_of_nil in H. contradiction.
  - rewrite elem_of_app, IH, elem_of_replicate. unfold Prep.shape0. split.
    + intros [[Hs Hlen]|(kv' & Hin & Hne & Hs)].
      * exists kv. split; [left|]. split; [|congruence].
        intros Hnil. rewrite Hnil in Hlen. apply Hlen. reflexivity.
      * exists kv'. split; [right; exact Hin|]. tauto.
    + intros (kv' & Hin & Hne & Hs). apply elem_of_cons in Hin.
      destruct Hin as [->|Hin].
      * left. split; [congruence|]. destruct (Prep.rows _); [congruence|].
        discriminate.
      * right. exists kv'. tauto.
Qed.

(** X6: a first call of [form_test_data(snr)], when the arrays stored
    under that SNR have one sample shape, at least one of them has a
    sample, and the modulations of those that have samples are in [mods].
    The call succeeds; its first result stacks the samples of those arrays
    in the order of the dictionary, and its second result holds, at the
    position of each sample, the index in [mods] of the modulation of the
    key the sample was stored under. *)
Theorem form_test_data_aligned (d : list (Prep.key * Prep.array A))
    (mods : list string) (snr : Z) (sh : nat * nat) :
  (forall k v, (k, v) ∈ d -> snd k = snr -> Prep.inner v = sh) ->
  (exists k v, (k, v) ∈ d /\ snd k = snr /\ Prep.rows v <> []) ->
  (forall k v, (k, v) ∈ d -> snd k = snr -> Prep.rows v <> [] -> fst k ∈ mods) ->
  exists X y,
    Prep.form_test_data d mods snr [] [] = Prep.Ok (X, y) /\
    Prep.inner X = sh /\
    let tagged :=
      concat (map (fun kv => map (fun r => (r, fst (fst kv))) (Prep.rows (snd kv)))
                (List.filter (fun kv => Z.eqb (snd (fst kv)) snr) d)) in
    Prep.rows X = map fst tagged /\
    Forall2 (fun rc j => mods !! j = Some (snd rc)) tagged y.
Proof.
  intros Hshape (k0 & v0 & Hin0 & Hsnr0 & Hrows0) Hmods.
  set (matched := List.filter (fun kv => Z.eqb (snd (fst kv)) snr) d).
  assert (Hin0' : (k0, v0) ∈ matched) by (apply elem_of_matched; tauto).
  assert (HX : Prep.np_vstack (map snd matched)
    = Prep.Ok {| Prep.rows := concat (map Prep.rows (map snd matched));
                 Prep.inner := sh |}).
  { apply np_vstack_uniform.
    - intros Hnil. apply (f_equal (@length _)) in Hnil. rewrite length_map in Hnil.
      destruct matched; [apply elem_of_nil in Hin0'; contradiction | discriminate].
    - apply Forall_forall. intros v Hv. apply list_elem_of_In, in_map_iff in Hv.
      destruct Hv as ([k v'] & <- & Hkv). apply list_elem_of_In, elem_of_matched in Hkv.
      apply (Hshape k v'); tauto. }
  destruct (tagged_test_rows matched) as [Hfst Hsnd].
  pose proof (form_test_data_cases d mods snr) as Hcases. cbv zeta in Hcases.
  fold matched in Hcases. destruct Hcases as [[Hraise _]|(X & HX' & Hcases)].
  { rewrite HX in Hraise. discriminate. }
  rewrite HX in HX'. injection HX' as <-.
  destruct Hcases as [[Hnil _]|[(_ & (s & Hs & Hnot) & _)|(_ & y & Hy & Hall)]].
  - exfalso. assert (Hl : fst k0 ∈ @nil string); [|apply elem_of_nil in Hl; exact Hl].
    rewrite <- Hnil. apply elem_of_test_labels. exists (k0, v0). tauto.
  - exfalso. apply Hnot. apply elem_of_test_labels in Hs.
    destruct Hs as ([k v] & Hkv & Hne & <-). apply elem_of_matched in Hkv.
    apply (Hmods k v); tauto.
  - exists {| Prep.rows := concat (map Prep.rows (map snd matched)); Prep.inner := sh |}, y.
    split; [exact Hy|]. split; [reflexivity|]. cbv zeta. cbn [Prep.rows].
    split; [symmetry; exact Hfst|].
    rewrite <- Hsnd in Hall. apply Forall2_fmap_l in Hall. exact Hall.
Qed.

(** X7: the ways a first call of [form_test_data(snr)] fails.  It raises
    nothing but ValueError, and it raises it exactly when no array stored
    under that SNR has a sample (in particular when no key has that SNR),
    or the modulation of one that has samples is not in [mods], or two
    arrays stored under that SNR differ in their sample shape. *)
Theorem form_test_data_errors (d : list (Prep.key * Prep.array A))
    (mods : list string) (snr : Z) :
  (forall e, Prep.form_test_data d mods snr [] [] = Prep.Raise e -> e = Prep.ValueError) /\
  (Prep.form_test_data d mods snr [] [] = Prep.Raise Prep.ValueError <->
   (forall k v, (k, v) ∈ d -> snd k = snr -> Prep.rows v = []) \/
   (exists k v, (k, v) ∈ d /\ snd k = snr /\ Prep.rows v <> [] /\ fst k ∉ mods) \/
   (exists k v k' v', (k, v) ∈ d /\ (k', v') ∈ d /\ snd k = snr /\ snd k' = snr /\
                      Prep.inner v <> Prep.inner v')).
Proof.
  set (matched := List.filter (fun kv => Z.eqb (snd (fst kv)) snr) d).
  set (labels :=
    concat (map (fun kv => replicate (Prep.shape0 (snd kv)) (fst (fst kv))) matched)).
  assert (Hempty : labels = [] <->
                   forall k v, (k, v) ∈ d -> snd k = snr -> Prep.rows v = []).
  { split.
    - intros Hnil k v Hin Hsnr. destruct (Prep.rows v) as [|r rs] eqn:Hrows; [reflexivity|].
      exfalso. assert (Hl : fst k ∈ labels).
      { apply elem_of_test_labels. exists (k, v).
        split; [apply elem_of_matched; tauto|]. simpl. rewrite Hrows.
        split; [discriminate | reflexivity]. }
      rewrite Hnil in Hl. apply elem_of_nil in Hl. exact Hl.
    - intros Hall. destruct labels as [|s l] eqn:Hlabels; [reflexivity|]. exfalso.
      assert (Hs : s ∈ labels) by (rewrite Hlabels; left).
      apply elem_of_test_labels in Hs. destruct Hs as ([k v] & Hkv & Hne & _).
      apply elem_of_matched in Hkv. apply Hne. apply (Hall k v); tauto. }
  assert (Hmissing : (exists s, s ∈ labels /\ s ∉ mods) <->
    exists k v, (k, v) ∈ d /\ snd k = snr /\ Prep.rows v <> [] /\ fst k ∉ mods).
  { split.
    - intros (s & Hs & Hnot). apply elem_of_test_labels in Hs.
      destruct Hs as ([k v] & Hkv & Hne & <-). apply elem_of_matched in Hkv.
      exists k, v. tauto.
    - intros (k & v & Hin & Hsnr & Hne & Hnot). exists (fst k). split; [|exact Hnot].
      apply elem_of_test_labels. exists (k, v).
      split; [apply elem_of_matched; tauto|]. tauto. }
  assert (Hstack : Prep.np_vstack (map snd matched) = Prep.Raise Prep.ValueError ->
    (forall k v, (k, v) ∈ d -> snd k = snr -> Prep.rows v = []) \/
    (exists k v k' v', (k, v) ∈ d /\ (k', v') ∈ d /\ snd k = snr /\ snd k' = snr /\
                       Prep.inner v <> Prep.inner v')).
  { intros Hraise. apply np_vstack_ValueError in Hraise.
    destruct Hraise as [Hnil|(v & w & Hv & Hw & Hne)].
    - left. intros k v Hin Hsnr. exfalso.
      assert (Hkv : (k, v) ∈ matched) by (apply elem_of_matched; tauto).
      destruct matched; [apply elem_of_nil in Hkv; exact Hkv | discriminate].
    - right. apply list_elem_of_In, in_map_iff in Hv, Hw.
      destruct Hv as ([k v1] & <- & Hkv), Hw as ([k' v2] & <- & Hkv').
      apply list_elem_of_In, elem_of_matched in Hkv, Hkv'.
      exists k, v1, k', v2. tauto. }
  assert (Hmismatch :
    (exists k v k' v', (k, v) ∈ d /\ (k', v') ∈ d /\ snd k = snr /\ snd k' = snr /\
                       Prep.inner v <> Prep.inner v') ->
    Prep.np_vstack (map snd matched) = Prep.Raise Prep.ValueError).
  { intros (k & v & k' & v' & Hin & Hin' & Hsnr & Hsnr' & Hne).
    apply np_vstack_ValueError. right. exists v, v'.
    split; [|split; [|exact Hne]]; apply list_elem_of_In, in_map_iff.
    - exists (k, v). split; [reflexivity|]. apply list_elem_of_In, elem_of_matched. tauto.
    - exists (k', v'). split; [reflexivity|]. apply list_elem_of_In, elem_of_matched. tauto. }
  pose proof (form_test_data_cases d mods snr) as Hcases. cbv zeta in Hcases.
  fold matched in Hcases. fold labels in Hcases.
  destruct Hcases as [[Hraise Hft]|(X & HX & Hcases)].
  { rewrite Hft. split; [intros e He; congruence|].
    split; [|reflexivity]. intros _. destruct (Hstack Hraise); tauto. }
  destruct Hcases as [[Hnil Hft]|[(Hne & Hs & Hft)|(Hne & y & Hft & Hall)]]; rewrite Hft.
  - split; [intros e He; congruence|]. split; [|reflexivity].
    intros _. left. apply Hempty, Hnil.
  - split; [intros e He; congruence|]. split; [|reflexivity].
    intros _. right. left. apply Hmissing, Hs.
  - split; [discriminate|]. split; [discriminate|].
    intros [Hall0|[Hmiss|Hmis]]; exfalso.
    + apply Hne, Hempty, Hall0.
    + apply Hmissing in Hmiss. destruct Hmiss as (s & Hs & Hnot).
      apply list_elem_of_lookup in Hs. destruct Hs as [i Hi].
      destruct (Forall2_lookup_l _ _ _ _ _ Hall Hi) as (j & _ & Hj).
      apply Hnot. apply list_elem_of_lookup. eauto.
    + rewrite (Hmismatch Hmis) in HX. discriminate.
Qed.

End TestTheorems.

(** ** Cells 4 and 8 together *)

Section SplitThenTest.
Context {A : Type}.

Lemma form_test_data_no_sample (d : list (Prep.key * Prep.array A))
    (mods : list string) (snr : Z) :
  (forall k v, (k, v) ∈ d -> snd k = snr -> Prep.rows v = []) ->
  Prep.form_test_data d mods snr [] [] = Prep.Raise Prep.ValueError.
Proof.
  intros Hall.
  pose proof (form_test_data_cases d mods snr) as Hcases. cbv zeta in Hcases.
  assert (Hlabels :
    concat (map (fun kv : Prep.key * Prep.array A =>
                   replicate (Prep.shape0 (snd kv)) (fst (fst kv)))
              (List.filter (fun kv => Z.eqb (snd (fst kv)) snr) d)) = []).
  { destruct (concat _) as [|s l] eqn:Hl; [reflexivity|]. exfalso.
    assert (Hs : s ∈ s :: l) by left. rewrite <- Hl in Hs.
    apply elem_of_test_labels in Hs. destruct Hs as ([k v] & Hkv & Hne & _).
    apply elem_of_matched in Hkv. apply Hne. apply (Hall k v); tauto. }
  destruct Hcases as [[_ Hft]|(X & _ & [[_ Hft]|[(Hne & _)|(Hne & _)]])];
    try exact Hft; exfalso; apply Hne; exact Hlabels.
Qed.

(** X12: keys with a single sample leave the test set empty.  The split
    gives the test dictionary floor(n/2) of the n samples of a key, so when
    no array of the data set has more than one sample, every test array is
    empty and a first call of [form_test_data] raises ValueError for every
    SNR. *)
Theorem single_samples_give_no_test_data (shuffle : Prep.array A -> Prep.array A)
    (Xd : list (Prep.key * Prep.array A)) (mods : list string) (snr : Z) :
  NoDup (Prep.dict_keys Xd) ->
  (forall v, Prep.inner (shuffle v) = Prep.inner v /\
             Prep.rows (shuffle v) ≡ₚ Prep.rows v) ->
  (forall k v, (k, v) ∈ Xd -> Prep.shape0 v <= 1) ->
  Prep.form_test_data (Prep.dict_test (Prep.Xd_shuffled shuffle Xd)) mods snr [] []
  = Prep.Raise Prep.ValueError.
Proof.
  intros Hnodup Hshuffle Hsmall.
  apply form_test_data_no_sample. intros k te Hin _.
  rewrite (Xd_shuffled_map shuffle Xd Hnodup) in Hin.
  rewrite dict_test_map in Hin
    by (rewrite (dict_keys_map_values (fun kv => shuffle (snd kv))); exact Hnodup).
  rewrite map_map in Hin. apply list_elem_of_In, in_map_iff in Hin.
  destruct Hin as ([k' v] & Heq & Hv). cbn [fst snd] in Heq.
  injection Heq as <- <-. apply list_elem_of_In in Hv.
  specialize (Hsmall k' v Hv). destruct (Hshuffle v) as [_ Hperm].
  apply Permutation_length in Hperm.
  unfold Prep.slice_to, Prep.half, Prep.shape0 in *. cbn [Prep.rows].
  rewrite Hperm.
  assert (Hhalf : length (Prep.rows v) / 2 = 0) by (apply Nat.div_small; lia).
  rewrite Hhalf. apply take_0.
Qed.

End SplitThenTest.

(** ** The extractors: every outcome, and the lag *)

Section ExtractorOutcomes.
Context {F : Type} `{Scalar F}.

(** X8: the outcome of the two extractors and of their concatenation, for a
    batch of any shape (N, C, L).  With N = 0 or L = 0 each raises
    ValueError, whatever C; otherwise with C < 2 each raises IndexError;
    otherwise each returns.  So an empty batch is reported before a missing
    channel, the three fail and succeed together, and none of them divides
    by zero. *)
Theorem extractors_outcomes (X : ndarray3 F) :
  (forall e,
     form_features X = Raise e <->
     (e = ValueError /\ (shape0 X = 0 \/ shape2 X = 0)) \/
     (e = IndexError /\ 1 <= shape0 X /\ 1 <= shape2 X /\ shape1 X < 2)) /\
  (forall e, form_next16_features X = Raise e <-> form_features X = Raise e) /\
  (forall e, X_32 X = Raise e <-> form_features X = Raise e) /\
  (is_ok (form_features X) <-> 1 <= shape0 X /\ 1 <= shape2 X /\ 2 <= shape1 X) /\
  (is_ok (X_32 X) <-> is_ok (form_features X)) /\
  (is_ok (form_next16_features X) <-> is_ok (form_features X)).
Proof.
  destruct (decide (shape0 X = 0 \/ shape2 X = 0)) as [Hz|Hnz].
  { unfold X_32.
    rewrite (form_features_empty X Hz), (form_next16_features_empty X Hz).
    cbn [bind is_ok].
    split; [|split; [tauto|split; [tauto|split; [lia|tauto]]]].
    intros e. split.
    - intros He. injection He as <-. left. tauto.
    - intros [[-> _]|[_ Hpos]]; [reflexivity | lia]. }
  destruct (decide (shape1 X < 2)) as [HC|HC].
  { unfold X_32.
    rewrite (form_features_index X), (form_next16_features_index X) by lia.
    cbn [bind is_ok].
    split; [|split; [tauto|split; [tauto|split; [lia|tauto]]]].
    intros e. split.
    - intros He. injection He as <-. right. split; [reflexivity | lia].
    - intros [[_ Hzero]|[-> _]]; [tauto | reflexivity]. }
  unfold X_32.
  rewrite (form_features_ok X), (form_next16_features_ok X) by lia.
  cbn [bind]. rewrite np_concatenate1_pair. cbn [is_ok].
  split; [|split; [|split; [|split; [|tauto]]]].
  - intros e. split; [discriminate|].
    intros [[_ Hzero]|(_ & _ & _ & Hlt)]; [tauto | lia].
  - intros e. split; discriminate.
  - intros e. split; discriminate.
  - split; [lia | tauto].
Qed.

Lemma lagged_product_mod (T T' : nat) (z : list (complex F)) :
  T mod length z = T' mod length z ->
  spec_lagged_product T z = spec_lagged_product T' z.
Proof.
  intros Hmod. unfold spec_lagged_product. apply map_ext. intros k.
  rewrite <- (Nat.Div0.add_mod_idemp_r k T), <- (Nat.Div0.add_mod_idemp_r k T').
  rewrite Hmod. reflexivity.
Qed.

(** X9: the lag counts modulo the length of the sequences.  On N sequences
    of length L the loops of the lagged products give the same array for two
    lags that are congruent modulo L; with the lag 8 of the notebook and a
    length L that divides 8 (1, 2, 4 or 8) the array of lagged products is
    the elementwise square of the input, as for lag 0. *)
Theorem lag_counts_modulo_length (T T' N L : nat) (Z : list (list (complex F))) :
  length Z = N -> Forall (fun row => length row = L) Z ->
  (T mod L = T' mod L -> X_complex_lag T N L Z = X_complex_lag T' N L Z) /\
  (8 mod L = 0 -> X_complex_8lag N L Z = Ok (np_csquare Z)).
Proof.
  intros HN HRows.
  assert (Hcong : forall T1 T2, T1 mod L = T2 mod L ->
            map (spec_lagged_product T1) Z = map (spec_lagged_product T2) Z).
  { intros T1 T2 Hmod. apply map_ext_in. intros z Hz.
    apply lagged_product_mod. rewrite Forall_forall in HRows.
    rewrite (HRows z) by (apply list_elem_of_In; exact Hz). exact Hmod. }
  split.
  - intros Hmod. rewrite !(X_complex_lag_ok _ N L Z HN HRows).
    f_equal. apply Hcong. exact Hmod.
  - intros H8. unfold X_complex_8lag.
    rewrite (X_complex_lag_ok 8 N L Z HN HRows). f_equal.
    rewrite (Hcong 8 0) by (rewrite H8, Nat.Div0.mod_0_l; reflexivity).
    unfold np_csquare. apply map_ext. intros z. apply lagged_product_0.
Qed.

End ExtractorOutcomes.

(** ** Exact arithmetic: the order of the readings *)

Lemma R_foldl_plus (a : R) (l : list R) :
  foldl Rplus a l = (a + foldl Rplus 0 l)%R.
Proof.
  revert a. induction l as [|x l IH]; intros a; simpl; [ring|].
  rewrite (IH (a + x)%R), (IH (0 + x)%R). ring.
Qed.

Lemma R_fsum_cons (x : R) (l : list R) : fsum (x :: l) = (x + fsum l)%R.
Proof.
  change (fsum (x :: l)) with (foldl Rplus (0 + x)%R l).
  change (fsum l) with (foldl Rplus 0%R l).
  rewrite R_foldl_plus. ring.
Qed.

Lemma R_fsum_nil : fsum (@nil R) = 0%R.
Proof. reflexivity. Qed.

Lemma R_fsum_perm (l l' : list R) : l ≡ₚ l' -> fsum l = fsum l'.
Proof.
  induction 1 as [|x l l' _ IH|x y l|l l' l'' _ IH1 _ IH2].
  - reflexivity.
  - rewrite !R_fsum_cons, IH. reflexivity.
  - rewrite !R_fsum_cons. ring.
  - congruence.
Qed.

Lemma R_csum_parts (l : list (complex R)) :
  csum l = Cplx (fsum (map re l)) (fsum (map im l)).
Proof.
  unfold csum.
  assert (Hgen : forall a : complex R,
            foldl cadd a l
            = Cplx (re a + fsum (map re l))%R (im a + fsum (map im l))%R).
  { induction l as [|z l IH]; intros a.
    - simpl. rewrite !R_fsum_nil. destruct a as [x y]. simpl. f_equal; ring.
    - cbn [foldl map]. rewrite IH, !R_fsum_cons. unfold cadd. simpl. f_equal; ring. }
  rewrite Hgen. unfold czero, fzero. simpl. f_equal; ring.
Qed.

Lemma R_csum_perm (l l' : list (complex R)) : l ≡ₚ l' -> csum l = csum l'.
Proof.
  intros Hp. rewrite !R_csum_parts.
  rewrite (R_fsum_perm (map re l) (map re l')) by (apply Permutation_map; exact Hp).
  rewrite (R_fsum_perm (map im l) (map im l')) by (apply Permutation_map; exact Hp).
  reflexivity.
Qed.

Lemma R_mean_perm {A : Type} (g : A -> R) (l l' : list A) :
  l ≡ₚ l' -> mean (map g l) = mean (map g l').
Proof.
  intros Hp. unfold mean.
  rewrite (R_fsum_perm (map g l) (map g l')) by (apply Permutation_map; exact Hp).
  rewrite !length_map, (Permutation_length Hp). reflexivity.
Qed.

Lemma R_fsum_map_perm {A : Type} (g : A -> R) (l l' : list A) :
  l ≡ₚ l' -> fsum (map g l) = fsum (map g l').
Proof. intros Hp. apply R_fsum_perm, Permutation_map, Hp. Qed.

Lemma R_cmean_perm {A : Type} (g : A -> complex R) (l l' : list A) :
  l ≡ₚ l' -> cmean (map g l) = cmean (map g l').
Proof.
  intros Hp. unfold cmean.
  rewrite (R_csum_perm (map g l) (map g l')) by (apply Permutation_map; exact Hp).
  rewrite !length_map, (Permutation_length Hp). reflexivity.
Qed.

(** The sixteen raw values of a row read its values through sums only. *)
Lemma R_sample_raw_perm (L : nat) (z z' : list (complex R)) (s : R) :
  z ≡ₚ z' -> sample_raw L z s = sample_raw L z' s.
Proof.
  intros Hp. unfold sample_raw. cbv zeta.
  rewrite !map_map.
  replace (cmean z) with (cmean z')
    by (unfold cmean; rewrite (R_csum_perm z z' Hp), (Permutation_length Hp); reflexivity).
  rewrite (R_csum_perm z z' Hp).
  rewrite (R_cmean_perm csquare z z' Hp).
  rewrite (R_cmean_perm (fun x => cpower x 4) z z' Hp).
  rewrite (R_csum_perm (map csquare z) (map csquare z')) by (apply Permutation_map, Hp).
  rewrite (R_mean_perm cabs z z' Hp).
  rewrite (R_mean_perm cangle z z' Hp).
  rewrite (R_mean_perm (fun x => fabs (cangle x)) z z' Hp).
  rewrite (R_mean_perm (fun x => fsquare (cabs x)) z z' Hp).
  rewrite (R_mean_perm (fun x => fsquare (cangle x)) z z' Hp).
  rewrite (R_mean_perm (fun x => fsquare (fabs (cangle x))) z z' Hp).
  rewrite (R_mean_perm (fun x => fpower (cabs x) 4) z z' Hp).
  rewrite (R_mean_perm (fun x => fpower (fabs (cangle x)) 4) z z' Hp).
  rewrite (R_fsum_map_perm cabs z z' Hp).
  rewrite (R_fsum_map_perm cangle z z' Hp).
  rewrite (R_fsum_map_perm (fun x => fabs (cangle x)) z z' Hp).
  rewrite (R_fsum_map_perm (fun x => fsquare (cabs x)) z z' Hp).
  rewrite (R_fsum_map_perm (fun x => fsquare (fabs (cangle x))) z z' Hp).
  reflexivity.
Qed.

Lemma R_f15_sample_perm (L : nat) (a a' : list R) :
  a ≡ₚ a' -> f15_sample L a = f15_sample L a'.
Proof.
  intros Hp. unfold f15_sample.
  rewrite (R_mean_perm (fun x => fpower x 4) a a' Hp).
  rewrite (R_fsum_map_perm fsquare a a' Hp). reflexivity.
Qed.

Lemma R_f31_sample_perm (L : nat) (a a' : list R) :
  a ≡ₚ a' -> f31_sample L a = f31_sample L a'.
Proof.
  intros Hp. unfold f31_sample.
  rewrite (R_fsum_map_perm (fun x => fpower x 4) a a' Hp).
  rewrite (R_fsum_map_perm fsquare a a' Hp). reflexivity.
Qed.

Lemma R_form_features_sample_perm (z z' : list (complex R)) :
  z ≡ₚ z' -> form_features_sample z = form_features_sample z'.
Proof.
  intros Hp. unfold form_features_sample.
  rewrite (Permutation_length Hp).
  rewrite (R_f15_sample_perm _ (map cangle z) (map cangle z'))
    by (apply Permutation_map, Hp).
  rewrite (R_sample_raw_perm _ z z' _ Hp). reflexivity.
Qed.

Lemma nth_map_seq {B : Type} (f : nat -> B) (d : B) (n k : nat) :
  k < n -> nth k (map f (seq 0 n)) d = f k.
Proof.
  intros Hk. rewrite nth_lookup.
  change (map f (seq 0 n)) with (f <$> seq 0 n).
  rewrite list_lookup_fmap, lookup_seq_lt by exact Hk. reflexivity.
Qed.

Lemma mod_wrap (i m L : nat) : i < L -> m < L -> L <= i + m -> (i + m) mod L = i + m - L.
Proof.
  intros Hi Hm Hle.
  transitivity (((i + m - L) + 1 * L) mod L); [f_equal; lia|].
  rewrite Nat.Div0.mod_add. apply Nat.mod_small. lia.
Qed.

(** Reading a list from position [r] on, cyclically, is [rotate r]. *)
Lemma cyclic_read_rotate {A : Type} (d : A) (l : list A) (r : nat) :
  map (fun k => nth ((k + r) mod length l) l d) (seq 0 (length l)) = rotate r l.
Proof.
  destruct l as [|x0 l0].
  { unfold rotate. rewrite drop_nil, take_nil. reflexivity. }
  set (l := x0 :: l0). set (L := length l).
  assert (HL : 0 < L) by (unfold L, l; simpl; lia).
  unfold rotate. fold L. set (m := r mod L).
  assert (Hm : m < L) by (apply Nat.mod_upper_bound; lia).
  apply list_eq. intros i.
  change (map ?f ?s) with (f <$> s). rewrite list_lookup_fmap.
  destruct (decide (i < L)) as [Hi|Hi].
  - rewrite lookup_seq_lt by exact Hi. cbn [fmap option_fmap option_map].
    rewrite Nat.add_0_l.
    rewrite <- (Nat.Div0.add_mod_idemp_r i r L). fold m.
    rewrite nth_lookup.
    destruct (decide (i + m < L)) as [Hlt|Hge].
    + rewrite Nat.mod_small by exact Hlt.
      rewrite lookup_app_l by (rewrite length_drop; fold L; lia).
      rewrite lookup_drop, (Nat.add_comm m i).
      destruct (lookup_lt_is_Some_2 l (i + m)) as [y ->]; [fold L; lia|]. reflexivity.
    + rewrite mod_wrap by lia.
      rewrite lookup_app_r by (rewrite length_drop; fold L; lia).
      rewrite length_drop. fold L.
      rewrite lookup_take_lt by lia.
      replace (i - (L - m)) with (i + m - L) by lia.
      destruct (lookup_lt_is_Some_2 l (i + m - L)) as [y ->]; [fold L; lia|]. reflexivity.
  - rewrite lookup_seq_ge by lia. symmetry. apply lookup_ge_None_2.
    rewrite length_app, length_drop, length_take. fold L. lia.
Qed.

Lemma rotate_perm {A : Type} (l : list A) (r : nat) : rotate r l ≡ₚ l.
Proof.
  unfold rotate. rewrite Permutation_app_comm, take_drop. reflexivity.
Qed.

Section ShiftFacts.
Context {F : Type} `{Scalar F}.

Lemma nth_sample_sequence (X : ndarray3 F) (n k : nat) :
  k < shape2 X ->
  nth k (sample_sequence X n) czero = Cplx (item X n 0 k) (item X n 1 k).
Proof.
  intros Hk. unfold sample_sequence.
  exact (nth_map_seq (fun k => Cplx (item X n 0 k) (item X n 1 k)) czero _ k Hk).
Qed.

(** A batch whose sample [n] is read from position [r] on is the rotation
    of the sequence of the sample. *)
Lemma sample_sequence_rotate (X X' : ndarray3 F) (n r : nat) :
  shape2 X' = shape2 X ->
  (forall k, k < shape2 X ->
     item X' n 0 k = item X n 0 ((k + r) mod shape2 X) /\
     item X' n 1 k = item X n 1 ((k + r) mod shape2 X)) ->
  sample_sequence X' n = rotate r (sample_sequence X n).
Proof.
  intros HL Hitems. rewrite <- (cyclic_read_rotate czero).
  rewrite length_sample_sequence. unfold sample_sequence at 1. rewrite HL.
  apply map_ext_in. intros k Hk. apply in_seq in Hk.
  destruct (Hitems k) as [-> ->]; [lia|].
  rewrite nth_sample_sequence by (apply Nat.mod_upper_bound; lia). reflexivity.
Qed.

(** The lagged products of a rotated sequence are the rotated lagged
    products. *)
Lemma lagged_product_rotate (T r : nat) (z : list (complex F)) :
  spec_lagged_product T (rotate r z) = rotate r (spec_lagged_product T z).
Proof.
  rewrite <- (cyclic_read_rotate czero (spec_lagged_product T z)).
  rewrite lagged_product_length.
  unfold spec_lagged_product at 1. rewrite length_rotate.
  destruct (decide (length z = 0)) as [Hz|Hz]; [rewrite Hz; reflexivity|].
  apply map_ext_in. intros k Hk. apply in_seq in Hk.
  rewrite <- !(cyclic_read_rotate czero z).
  rewrite !nth_map_seq by (try apply Nat.mod_upper_bound; lia).
  unfold spec_lagged_product.
  rewrite nth_map_seq by (apply Nat.mod_upper_bound; lia).
  f_equal. f_equal.
  rewrite (Nat.Div0.add_mod_idemp_l (k + T) r), (Nat.Div0.add_mod_idemp_l (k + r) T).
  f_equal. lia.
Qed.

End ShiftFacts.

(** X10: in exact arithmetic the features do not depend on where a sample
    starts.  If every sample of a second batch is a cyclic shift of the
    sample of the first (by [r n] readings for sample [n]), the two
    extractors give the same result on both batches; and the lag-0
    extractor gives the same result whenever every sample of the second
    batch holds the readings of the sample of the first in some order. *)
Theorem features_ignore_cyclic_shift (X X' : ndarray3 R) (r : nat -> nat) :
  shape0 X' = shape0 X -> shape2 X' = shape2 X ->
  2 <= shape1 X -> 2 <= shape1 X' ->
  ((forall n k, n < shape0 X -> k < shape2 X ->
      item X' n 0 k = item X n 0 ((k + r n) mod shape2 X) /\
      item X' n 1 k = item X n 1 ((k + r n) mod shape2 X)) ->
   form_features X' = form_features X /\
   form_next16_features X' = form_next16_features X) /\
  ((forall n, n < shape0 X -> sample_sequence X' n ≡ₚ sample_sequence X n) ->
   form_features X' = form_features X).
Proof.
  intros HN HL HC HC'.
  assert (Hreorder :
    (forall n, n < shape0 X -> sample_sequence X' n ≡ₚ sample_sequence X n) ->
    form_features X' = form_features X).
  { intros Hperm.
    destruct (decide (shape0 X = 0 \/ shape2 X = 0)) as [Hz|Hnz].
    { rewrite (form_features_empty X Hz), (form_features_empty X') by lia.
      reflexivity. }
    rewrite (form_features_ok X), (form_features_ok X') by lia.
    f_equal. unfold batch_sequences. rewrite !map_map, HN.
    apply map_ext_in. intros n Hn. apply in_seq in Hn.
    apply R_form_features_sample_perm, Hperm. lia. }
  split; [|exact Hreorder].
  intros Hshift.
  assert (Hrot : forall n, n < shape0 X ->
            sample_sequence X' n = rotate (r n) (sample_sequence X n)).
  { intros n Hn. apply sample_sequence_rotate; [exact HL|].
    intros k Hk. apply Hshift; assumption. }
  split.
  { apply Hreorder. intros n Hn. rewrite (Hrot n Hn). apply rotate_perm. }
  destruct (decide (shape0 X = 0 \/ shape2 X = 0)) as [Hz|Hnz].
  { rewrite (form_next16_features_empty X Hz), (form_next16_features_empty X') by lia.
    reflexivity. }
  rewrite (form_next16_features_ok X), (form_next16_features_ok X') by lia.
  f_equal. unfold batch_sequences. rewrite !map_map, HN.
  apply map_ext_in. intros n Hn. apply in_seq in Hn.
  rewrite (Hrot n) by lia.
  unfold form_next16_features_sample. cbv zeta.
  rewrite lagged_product_rotate, length_rotate.
  set (w := spec_lagged_product 8 (sample_sequence X n)).
  rewrite (R_f31_sample_perm _ (map cangle (rotate (r n) w)) (map cangle w))
    by (apply Permutation_map, rotate_perm).
  rewrite (R_sample_raw_perm _ (rotate (r n) w) w _ (rotate_perm w (r n))).
  reflexivity.
Qed.

(** ** Exact arithmetic: the amplitude of the signal *)

Lemma R_cabs_cscale (k : R) (w : complex R) :
  (0 <= k)%R -> cabs (cscale k w) = (k * cabs w)%R.
Proof.
  intros Hk. destruct w as [x y]. unfold cabs, cscale. simpl.
  replace (k * x * (k * x) + k * y * (k * y))%R with ((k * k) * (x * x + y * y))%R by ring.
  rewrite sqrt_mult by nra. rewrite sqrt_square by exact Hk. reflexivity.
Qed.

Lemma Rarctan2_scale (k y x : R) :
  (0 < k)%R -> Rarctan2 (k * y) (k * x) = Rarctan2 y x.
Proof.
  intros Hk. unfold Rarctan2.
  assert (Hdiv : x <> 0%R -> (k * y / (k * x) = y / x)%R).
  { intros Hx. field. split; [exact Hx | lra]. }
  destruct (Rlt_dec 0 (k * x)) as [H1|H1], (Rlt_dec 0 x) as [H2|H2]; try nra.
  - rewrite Hdiv by lra. reflexivity.
  - destruct (Rlt_dec (k * x) 0) as [H3|H3], (Rlt_dec x 0) as [H4|H4]; try nra.
    + rewrite Hdiv by lra.
      destruct (Rle_dec 0 (k * y)) as [H5|H5], (Rle_dec 0 y) as [H6|H6];
        try nra; reflexivity.
    + destruct (Rlt_dec 0 (k * y)) as [H5|H5], (Rlt_dec 0 y) as [H6|H6];
        try nra; try reflexivity.
      destruct (Rlt_dec (k * y) 0) as [H7|H7], (Rlt_dec y 0) as [H8|H8];
        try nra; reflexivity.
Qed.

Lemma R_cangle_cscale (k : R) (w : complex R) :
  (0 < k)%R -> cangle (cscale k w) = cangle w.
Proof. intros Hk. destruct w as [x y]. unfold cangle, cscale. simpl. apply Rarctan2_scale, Hk. Qed.

Lemma R_csquare_cscale (k : R) (w : complex R) :
  csquare (cscale k w) = cscale (k * k)%R (csquare w).
Proof. destruct w as [x y]. unfold csquare, cmul, cscale. simpl. f_equal; ring. Qed.

Lemma R_cpower4_cscale (k : R) (w : complex R) :
  cpower (cscale k w) 4 = cscale (k * k * (k * k))%R (cpower w 4).
Proof. destruct w as [x y]. unfold cpower, cmul, cscale, cone. simpl. f_equal; ring. Qed.

Lemma R_fsum_scale {A : Type} (k : R) (g : A -> R) (l : list A) :
  fsum (map (fun x => k * g x)%R l) = (k * fsum (map g l))%R.
Proof.
  induction l as [|x l IH]; cbn [map].
  - rewrite R_fsum_nil. ring.
  - rewrite !R_fsum_cons, IH. ring.
Qed.

Lemma R_mean_scale_map {A : Type} (k : R) (g : A -> R) (l : list A) :
  mean (map (fun x => k * g x)%R l) = (k * mean (map g l))%R.
Proof.
  unfold mean. rewrite R_fsum_scale, !length_map. simpl. unfold Rdiv. ring.
Qed.

Lemma R_csum_scale {A : Type} (k : R) (g : A -> complex R) (l : list A) :
  csum (map (fun x => cscale k (g x)) l) = cscale k (csum (map g l)).
Proof.
  rewrite !R_csum_parts, !map_map. unfold cscale. cbn [re im].
  rewrite (R_fsum_scale k (fun x => re (g x))), (R_fsum_scale k (fun x => im (g x))).
  reflexivity.
Qed.

Lemma R_cmean_scale {A : Type} (k : R) (g : A -> complex R) (l : list A) :
  cmean (map (fun x => cscale k (g x)) l) = cscale k (cmean (map g l)).
Proof.
  unfold cmean. rewrite R_csum_scale, !length_map.
  unfold cscale, cdiv_real. simpl. f_equal; unfold Rdiv; ring.
Qed.

Lemma R_of_real_scale (k x : R) : of_real (k * x)%R = cscale k (of_real x).
Proof. unfold of_real, cscale, fzero. simpl. f_equal. ring. Qed.

Lemma R_cumulant_scale (k c : R) (A B : complex R) :
  csub (cscale (k * k)%R A) (cscale c (csquare (cscale k B)))
  = cscale (k * k)%R (csub A (cscale c (csquare B))).
Proof.
  destruct A as [a1 a2], B as [b1 b2]. unfold csub, cscale, csquare, cmul. simpl.
  f_equal; ring.
Qed.

Lemma R_real_cumulant_scale (k c m s : R) :
  of_real (fsub (k * k * m)%R (fmul c (fsquare (k * s)%R)))
  = cscale (k * k)%R (of_real (fsub m (fmul c (fsquare s)))).
Proof. unfold of_real, cscale, fsquare, fzero. simpl. f_equal; ring. Qed.

(** The sixteen magnitudes of a sequence scaled by [a]: the degrees of
    homogeneity are 1, 1, 0, 0, 2, 2, 0, 0, 2, 2, 0, 0, 4, 4, 0, 0. *)
Lemma R_sample_raw_scale (L : nat) (z : list (complex R)) (a s : R) :
  (0 < a)%R ->
  map cabs (sample_raw L (map (cscale a) z) s)
  = zip_with Rmult (map (pow a) [1; 1; 0; 0; 2; 2; 0; 0; 2; 2; 0; 0; 4; 4; 0; 0])
             (map cabs (sample_raw L z s)).
Proof.
  intros Ha.
  assert (Ha2 : (0 <= a * a)%R) by nra.
  assert (Ha4 : (0 <= a * a * (a * a))%R) by nra.
  unfold sample_raw. cbv zeta. rewrite !map_map.
  rewrite (map_ext (fun x => cabs (cscale a x)) (fun x => a * cabs x)%R)
    by (intros x; apply R_cabs_cscale; lra).
  rewrite (map_ext (fun x => cangle (cscale a x)) cangle)
    by (intros x; apply R_cangle_cscale; exact Ha).
  rewrite (map_ext (fun x => fabs (cangle (cscale a x))) (fun x => fabs (cangle x)))
    by (intros x; rewrite R_cangle_cscale by exact Ha; reflexivity).
  rewrite (map_ext (fun x => csquare (cscale a x)) (fun x => cscale (a * a)%R (csquare x)))
    by (intros x; apply R_csquare_cscale).
  rewrite (map_ext (fun x => fsquare (cabs (cscale a x)))
                   (fun x => a * a * fsquare (cabs x))%R)
    by (intros x; rewrite R_cabs_cscale by lra; unfold fsquare; simpl; ring).
  rewrite (map_ext (fun x => fsquare (cangle (cscale a x))) (fun x => fsquare (cangle x)))
    by (intros x; rewrite R_cangle_cscale by exact Ha; reflexivity).
  rewrite (map_ext (fun x => fsquare (fabs (cangle (cscale a x))))
                   (fun x => fsquare (fabs (cangle x))))
    by (intros x; rewrite R_cangle_cscale by exact Ha; reflexivity).
  rewrite (map_ext (fun x => cpower (cscale a x) 4)
                   (fun x => cscale (a * a * (a * a))%R (cpower x 4)))
    by (intros x; apply R_cpower4_cscale).
  rewrite (map_ext (fun x => fpower (cabs (cscale a x)) 4)
                   (fun x => a * a * (a * a) * fpower (cabs x) 4)%R)
    by (intros x; rewrite R_cabs_cscale by lra; simpl; ring).
  rewrite (map_ext (fun x => fpower (fabs (cangle (cscale a x))) 4)
                   (fun x => fpower (fabs (cangle x)) 4))
    by (intros x; rewrite R_cangle_cscale by exact Ha; reflexivity).
  change (map (cscale a) z) with (map (fun x => cscale a ((fun y => y) x)) z).
  rewrite !R_mean_scale_map, !R_fsum_scale, !R_csum_scale, !R_cmean_scale.
  rewrite !map_id.
  rewrite (R_cumulant_scale a), (R_cumulant_scale (a * a)).
  rewrite (R_real_cumulant_scale a), (R_real_cumulant_scale (a * a)).
  rewrite !R_of_real_scale.
  cbn [map zip_with pow].
  rewrite !R_cabs_cscale by lra.
  repeat (apply (f_equal2 cons); [ring|]). reflexivity.
Qed.

Lemma R_lagged_product_scale (T : nat) (a : R) (z : list (complex R)) :
  spec_lagged_product T (map (cscale a) z)
  = map (cscale (a * a)%R) (spec_lagged_product T z).
Proof.
  assert (Hzero : czero = cscale a (czero : complex R)).
  { unfold czero, cscale, fzero. simpl. f_equal; ring. }
  unfold spec_lagged_product. rewrite length_map, map_map.
  apply map_ext. intros k.
  rewrite Hzero at 1 2. rewrite !map_nth.
  destruct (nth k z czero) as [x y], (nth ((k + T) mod length z) z czero) as [u v].
  unfold cmul, cscale. simpl. f_equal; ring.
Qed.

Lemma R_form_features_sample_scale (a : R) (z : list (complex R)) :
  (0 < a)%R ->
  form_features_sample (map (cscale a) z)
  = zip_with Rmult (map (pow a) [1; 1; 0; 0; 2; 2; 0; 0; 2; 2; 0; 0; 4; 4; 0; 0])
             (form_features_sample z).
Proof.
  intros Ha. unfold form_features_sample.
  rewrite length_map, map_map.
  rewrite (map_ext (fun x => cangle (cscale a x)) cangle)
    by (intros x; apply R_cangle_cscale; exact Ha).
  apply R_sample_raw_scale. exact Ha.
Qed.

Lemma R_form_next16_features_sample_scale (a : R) (z : list (complex R)) :
  (0 < a)%R ->
  form_next16_features_sample (map (cscale a) z)
  = zip_with Rmult (map (pow a) [2; 2; 0; 0; 4; 4; 0; 0; 4; 4; 0; 0; 8; 8; 0; 0])
             (form_next16_features_sample z).
Proof.
  intros Ha. unfold form_next16_features_sample. cbv zeta.
  rewrite R_lagged_product_scale, length_map, map_map.
  assert (Ha2 : (0 < a * a)%R) by nra.
  rewrite (map_ext (fun x => cangle (cscale (a * a)%R x)) cangle)
    by (intros x; apply R_cangle_cscale; exact Ha2).
  rewrite (R_sample_raw_scale _ _ (a * a)%R _ Ha2).
  set (row := map cabs (sample_raw _ _ _)).
  assert (Hlen : length row = 16) by (unfold row; rewrite length_map; apply length_sample_raw).
  clearbody row.
  do 16 (destruct row as [|? row]; [discriminate Hlen|]).
  destruct row as [|? row]; [|discriminate Hlen].
  cbn [map zip_with pow].
  repeat (apply (f_equal2 cons); [ring|]). reflexivity.
Qed.

(** X11: in exact arithmetic the features are homogeneous in the amplitude
    of the signal.  Multiplying every reading of a batch by a > 0
    multiplies column j of the lag-0 block by a^d, with d = 1, 1, 0, 0, 2,
    2, 0, 0, 2, 2, 0, 0, 4, 4, 0, 0 for the sixteen columns, and column j of
    the lag-8 block by a^(2d): the eight columns computed from angles do
    not change. *)
Theorem features_amplitude_scaling (X X' : ndarray3 R) (a : R) :
  (0 < a)%R ->
  shape0 X' = shape0 X -> shape2 X' = shape2 X ->
  2 <= shape1 X -> 2 <= shape1 X' -> 1 <= shape0 X -> 1 <= shape2 X ->
  (forall n k, n < shape0 X -> k < shape2 X ->
     item X' n 0 k = (a * item X n 0 k)%R /\ item X' n 1 k = (a * item X n 1 k)%R) ->
  exists M W,
    form_features X = Ok M /\
    form_next16_features X = Ok W /\
    form_features X'
    = Ok (map (zip_with Rmult
                 (map (pow a) [1; 1; 0; 0; 2; 2; 0; 0; 2; 2; 0; 0; 4; 4; 0; 0])) M) /\
    form_next16_features X'
    = Ok (map (zip_with Rmult
                 (map (pow a) [2; 2; 0; 0; 4; 4; 0; 0; 4; 4; 0; 0; 8; 8; 0; 0])) W).
Proof.
  intros Ha HN HL HC HC' HN1 HL1 Hitems.
  exists (map form_features_sample (batch_sequences X)),
         (map form_next16_features_sample (batch_sequences X)).
  split; [apply form_features_ok; lia|].
  split; [apply form_next16_features_ok; lia|].
  assert (Hseq : batch_sequences X' = map (map (cscale a)) (batch_sequences X)).
  { unfold batch_sequences. rewrite HN, map_map.
    apply map_ext_in. intros n Hn. apply in_seq in Hn.
    unfold sample_sequence. rewrite HL, map_map.
    apply map_ext_in. intros k Hk. apply in_seq in Hk.
    destruct (Hitems n k) as [-> ->]; [lia | lia |]. reflexivity. }
  rewrite (form_features_ok X'), (form_next16_features_ok X') by lia.
  rewrite Hseq, !map_map. split; f_equal; apply map_ext; intros z.
  - apply R_form_features_sample_scale, Ha.
  - apply R_form_next16_features_sample_scale, Ha.
Qed.

(** ** The properties at concrete data *)

Ltac distinct_keys :=
  repeat (constructor;
          [ let Hin := fresh "Hin" in
            intros Hin;
            repeat (apply elem_of_cons in Hin; destruct Hin as [Hin|Hin];
                    [discriminate Hin|]);
            apply elem_of_nil in Hin; exact Hin | ]);
  constructor.

Lemma reverse_rows_shuffles {A : Type} (v : Prep.array A) :
  Prep.inner (reverse_rows v) = Prep.inner v /\
  Prep.rows (reverse_rows v) ≡ₚ Prep.rows v.
Proof. split; [reflexivity | apply reverse_Permutation]. Qed.

Lemma Xd_digital_keeps_digital_witness :
  NoDup (Prep.dict_keys small_dataset) /\
  Prep.Xd_digital small_dataset = Prep.Ok digital_dataset.
Proof.
  assert (Hkeys : NoDup (Prep.dict_keys small_dataset)).
  { unfold Prep.dict_keys, small_dataset. cbn [map fst]. distinct_keys. }
  split; [exact Hkeys|].
  exact (proj1 (Xd_digital_keeps_digital small_dataset Hkeys)).
Defined.

Lemma train_test_split_witness :
  (NoDup (Prep.dict_keys digital_dataset) /\
   forall v : Prep.array nat,
     Prep.inner (reverse_rows v) = Prep.inner v /\
     Prep.rows (reverse_rows v) ≡ₚ Prep.rows v) /\
  exists te tr,
    Prep.dict_getitem (Prep.dict_test (Prep.Xd_shuffled reverse_rows digital_dataset))
                      ("QPSK"%string, 0%Z) = Prep.Ok te /\
    Prep.dict_getitem (Prep.dict_train (Prep.Xd_shuffled reverse_rows digital_dataset))
                      ("QPSK"%string, 0%Z) = Prep.Ok tr /\
    Prep.rows te ++ Prep.rows tr = [4; 3; 2; 1] /\
    Prep.shape0 te = 2 /\ Prep.shape0 tr = 2.
Proof.
  assert (Hkeys : NoDup (Prep.dict_keys digital_dataset)).
  { unfold Prep.dict_keys, digital_dataset. cbn [map fst]. distinct_keys. }
  split; [split; [exact Hkeys | apply reverse_rows_shuffles]|].
  destruct (train_test_split reverse_rows digital_dataset Hkeys reverse_rows_shuffles)
    as (_ & _ & Hsplit).
  destruct (Hsplit ("QPSK"%string, 0%Z)
              {| Prep.rows := [1; 2; 3; 4]; Prep.inner := (2, 8) |})
    as (te & tr & Hte & Htr & Hrows & _ & Hn & Hm & _); [left|].
  exists te, tr. split; [exact Hte|]. split; [exact Htr|].
  split; [exact Hrows|]. split; [exact Hn | exact Hm].
Defined.

Lemma training_set_aligned_witness :
  (digital_dataset <> [] /\
   (forall m s, m ∈ Prep.mods_of digital_dataset -> s ∈ Prep.snrs_of digital_dataset ->
                (m, s) ∈ Prep.dict_keys digital_dataset) /\
   Forall (fun kv => Prep.inner (snd kv) = (2, 8)) digital_dataset) /\
  exists X y,
    Prep.training_set digital_dataset = Prep.Ok (X, y) /\ Prep.inner X = (2, 8).
Proof.
  assert (Hgrid : forall m s,
            m ∈ Prep.mods_of digital_dataset -> s ∈ Prep.snrs_of digital_dataset ->
            (m, s) ∈ Prep.dict_keys digital_dataset).
  { intros m s Hm Hs.
    change (Prep.mods_of digital_dataset) with ["BPSK"%string; "QPSK"%string] in Hm.
    change (Prep.snrs_of digital_dataset) with [(-2)%Z; 0%Z] in Hs.
    unfold Prep.dict_keys, digital_dataset. cbn [map fst].
    repeat (apply elem_of_cons in Hm; destruct Hm as [->|Hm]);
      [| |apply elem_of_nil in Hm; contradiction];
      (repeat (apply elem_of_cons in Hs; destruct Hs as [->|Hs]);
       [| |apply elem_of_nil in Hs; contradiction]);
      repeat first [left; reflexivity | right]. }
  assert (Hshape : Forall (fun kv : Prep.key * Prep.array nat =>
                             Prep.inner (snd kv) = (2, 8)) digital_dataset).
  { repeat constructor. }
  split; [split; [discriminate | split; [exact Hgrid | exact Hshape]]|].
  destruct (training_set_aligned digital_dataset (2, 8))
    as (X & y & vs & HX & _ & Hinner & _); [discriminate | exact Hgrid | exact Hshape |].
  exists X, y. split; [exact HX | exact Hinner].
Defined.

Lemma form_test_data_aligned_witness :
  ((forall k v, (k, v) ∈ digital_dataset -> snd k = 0%Z -> Prep.inner v = (2, 8)) /\
   (exists k v, (k, v) ∈ digital_dataset /\ snd k = 0%Z /\ Prep.rows v <> []) /\
   (forall k v, (k, v) ∈ digital_dataset -> snd k = 0%Z -> Prep.rows v <> [] ->
                fst k ∈ ["BPSK"%string; "QPSK"%string])) /\
  exists X y,
    Prep.form_test_data digital_dataset ["BPSK"%string; "QPSK"%string] 0 [] []
    = Prep.Ok (X, y) /\ Prep.inner X = (2, 8).
Proof.
  assert (Hshape : forall k v, (k, v) ∈ digital_dataset -> snd k = 0%Z ->
                               Prep.inner v = (2, 8)).
  { intros k v Hin _. unfold digital_dataset in Hin.
    repeat (apply elem_of_cons in Hin; destruct Hin as [Heq|Hin];
            [injection Heq as -> ->; reflexivity|]).
    apply elem_of_nil in Hin. contradiction. }
  assert (Hsome : exists k v, (k, v) ∈ digital_dataset /\ snd k = 0%Z /\
                              Prep.rows v <> []).
  { exists ("QPSK"%string, 0%Z), {| Prep.rows := [1; 2; 3; 4]; Prep.inner := (2, 8) |}.
    split; [left|]. split; [reflexivity | discriminate]. }
  assert (Hmods : forall k v, (k, v) ∈ digital_dataset -> snd k = 0%Z ->
                              Prep.rows v <> [] ->
                              fst k ∈ ["BPSK"%string; "QPSK"%string]).
  { intros k v Hin _ _. unfold digital_dataset in Hin.
    repeat (apply elem_of_cons in Hin; destruct Hin as [Heq|Hin];
            [injection Heq as -> ->; repeat first [left; reflexivity | right]|]).
    apply elem_of_nil in Hin. contradiction. }
  split; [split; [exact Hshape | split; [exact Hsome | exact Hmods]]|].
  destruct (form_test_data_aligned digital_dataset ["BPSK"%string; "QPSK"%string]
              0%Z (2, 8) Hshape Hsome Hmods)
    as (X & y & HX & Hinner & _).
  exists X, y. split; [exact HX | exact Hinner].
Defined.

Lemma lag_counts_modulo_length_witness :
  (length three_values = 1 /\ Forall (fun row => length row = 3) three_values /\
   8 mod 3 = 2 mod 3) /\
  X_complex_lag 8 1 3 three_values = X_complex_lag 2 1 3 three_values.
Proof.
  assert (Hrows : Forall (fun row : list (complex R) => length row = 3) three_values).
  { repeat constructor. }
  split; [split; [reflexivity | split; [exact Hrows | reflexivity]]|].
  exact (proj1 (lag_counts_modulo_length 8 2 1 3 three_values eq_refl Hrows) eq_refl).
Defined.

Lemma features_ignore_cyclic_shift_witness :
  (shape0 shifted_batch = shape0 rotating_batch /\
   shape2 shifted_batch = shape2 rotating_batch /\
   2 <= shape1 rotating_batch /\ 2 <= shape1 shifted_batch /\
   forall n k, n < shape0 rotating_batch -> k < shape2 rotating_batch ->
     item shifted_batch n 0 k
     = item rotating_batch n 0 ((k + 1) mod shape2 rotating_batch) /\
     item shifted_batch n 1 k
     = item rotating_batch n 1 ((k + 1) mod shape2 rotating_batch)) /\
  form_features shifted_batch = form_features rotating_batch /\
  form_next16_features shifted_batch = form_next16_features rotating_batch.
Proof.
  assert (Hitems : forall n k,
            n < shape0 rotating_batch -> k < shape2 rotating_batch ->
            item shifted_batch n 0 k
            = item rotating_batch n 0 ((k + 1) mod shape2 rotating_batch) /\
            item shifted_batch n 1 k
            = item rotating_batch n 1 ((k + 1) mod shape2 rotating_batch)).
  { intros n k _ _. split; reflexivity. }
  split.
  { split; [reflexivity|]. split; [reflexivity|].
    split; [simpl; lia|]. split; [simpl; lia | exact Hitems]. }
  apply (proj1 (features_ignore_cyclic_shift rotating_batch shifted_batch (fun _ => 1)
                  eq_refl eq_refl (le_n 2) (le_n 2))).
  exact Hitems.
Defined.

Lemma features_amplitude_scaling_witness :
  ((0 < 2)%R /\
   shape0 doubled_batch = shape0 rotating_batch /\
   shape2 doubled_batch = shape2 rotating_batch /\
   2 <= shape1 rotating_batch /\ 2 <= shape1 doubled_batch /\
   1 <= shape0 rotating_batch /\ 1 <= shape2 rotating_batch /\
   forall n k, n < shape0 rotating_batch -> k < shape2 rotating_batch ->
     item doubled_batch n 0 k = (2 * item rotating_batch n 0 k)%R /\
     item doubled_batch n 1 k = (2 * item rotating_batch n 1 k)%R) /\
  exists M W,
    form_features rotating_batch = Ok M /\
    form_next16_features rotating_batch = Ok W /\
    form_features doubled_batch
    = Ok (map (zip_with Rmult
                 (map (pow 2) [1; 1; 0; 0; 2; 2; 0; 0; 2; 2; 0; 0; 4; 4; 0; 0])) M) /\
    form_next16_features doubled_batch
    = Ok (map (zip_with Rmult
                 (map (pow 2) [2; 2; 0; 0; 4; 4; 0; 0; 4; 4; 0; 0; 8; 8; 0; 0])) W).
Proof.
  assert (Hitems : forall n k,
            n < shape0 rotating_batch -> k < shape2 rotating_batch ->
            item doubled_batch n 0 k = (2 * item rotating_batch n 0 k)%R /\
            item doubled_batch n 1 k = (2 * item rotating_batch n 1 k)%R).
  { intros n k _ _. split; reflexivity. }
  split.
  { split; [lra|]. split; [reflexivity|]. split; [reflexivity|].
    split; [simpl; lia|]. split; [simpl; lia|].
    split; [simpl; lia|]. split; [simpl; lia | exact Hitems]. }
  apply (features_amplitude_scaling rotating_batch doubled_batch 2%R);
    [lra | reflexivity | reflexivity | simpl; lia | simpl; lia | simpl; lia
     | simpl; lia | exact Hitems].
Defined.

Lemma single_samples_give_no_test_data_witness :
  (NoDup (Prep.dict_keys single_sample_dataset) /\
   (forall v : Prep.array nat,
      Prep.inner (reverse_rows v) = Prep.inner v /\
      Prep.rows (reverse_rows v) ≡ₚ Prep.rows v) /\
   forall k v, (k, v) ∈ single_sample_dataset -> Prep.shape0 v <= 1) /\
  Prep.form_test_data
    (Prep.dict_test (Prep.Xd_shuffled reverse_rows single_sample_dataset))
    ["BPSK"%string; "QPSK"%string] 0 [] []
  = Prep.Raise Prep.ValueError.
Proof.
  assert (Hkeys : NoDup (Prep.dict_keys single_sample_dataset)).
  { unfold Prep.dict_keys, single_sample_dataset. cbn [map fst]. distinct_keys. }
  assert (Hsmall : forall k v, (k, v) ∈ single_sample_dataset -> Prep.shape0 v <= 1).
  { intros k v Hin. unfold single_sample_dataset in Hin.
    repeat (apply elem_of_cons in Hin; destruct Hin as [Heq|Hin];
            [injection Heq as -> ->; apply le_n|]).
    apply elem_of_nil in Hin. contradiction. }
  split; [split; [exact Hkeys | split; [apply reverse_rows_shuffles | exact Hsmall]]|].
  exact (single_samples_give_no_test_data reverse_rows single_sample_dataset
           ["BPSK"%string; "QPSK"%string] 0%Z Hkeys reverse_rows_shuffles Hsmall).
Defined.
